(** * Bonzaikono: the procedural bonsai generator

    A shallow embedding of the tree-generation code of the repository
    (the two versions of [components/TreeRender.tsx] and the DNA encoder of
    [App.tsx]) together with the properties its specification states.

    Conventions of the embedding.
    - A JavaScript int32 is represented by its unsigned residue modulo 2^32:
      [^], [&], [>>>] and [Math.imul] only look at the low 32 bits, so the
      residue determines every result of the hash.
    - The 53-bit result of the hash and [val % 1000] are exact integers in
      JavaScript and are integers ([Z]) here.
    - Fractional quantities (the quotient by 1000, lengths, radii, angles)
      are JavaScript doubles; they are embedded as exact rationals ([Q]),
      that is, rounding is not modelled. The two comparisons of the source
      that decide the shape of a tree ([> 0.85] and [> 0.4]) give the same
      answer on binary64 numbers and on rationals (lemma
      [thresholds_binary64]). Where rounding decides a property, the
      products of the source are taken on binary64 numbers (module
      [Double]).
    - [Math.random()] is a stream of results; a function that calls it takes
      the number of calls made so far and returns the new number.
    - Depths, cursors and the pruning counter are natural numbers, the wiring
      state is an integer.
    - Strings are [string]; [charCodeAt] is the code of the character. *)

From Stdlib Require Import ZArith QArith Qround List Bool Lia Lqa Arith FinFun.
From Stdlib Require Import Ascii String DecimalString DecimalNat.
From Stdlib Require Import HexadecimalString HexadecimalN.
From Stdlib Require PrimFloat Uint63.
Import ListNotations.

Local Open Scope Z_scope.

#[local] Set Warnings "-register-all".

(** ** Seeded hash stream *)

Module Hash.

(** [Math.imul a b]: the low 32 bits of the product. *)
Definition imul (a b : Z) : Z := (a * b) mod 2 ^ 32.

(** [str.charCodeAt i] for the characters of [str] in order. *)
Definition charCodes (str : string) : list Z :=
  map (fun c => Z.of_N (N_of_ascii c)) (list_ascii_of_string str).

(** One turn of the [for] loop of [cyrb53]. *)
Definition mix (h : Z * Z) (ch : Z) : Z * Z :=
  (imul (Z.lxor (fst h) ch) 2654435761, imul (Z.lxor (snd h) ch) 1597334677).

(** [cyrb53(str, seed)]. Both versions of TreeRender.tsx carry the same text.
    [^] works on the low 32 bits of its operands, so an integer [seed]
    enters by its residue modulo 2^32. *)
Definition cyrb53_seeded (str : string) (seed : Z) : Z :=
  let h0 := (Z.lxor 0xdeadbeef (seed mod 2 ^ 32),
             Z.lxor 0x41c6ce57 (seed mod 2 ^ 32)) in
  let h := fold_left mix (charCodes str) h0 in
  let h1 := fst h in
  let h2 := snd h in
  let h1 := Z.lxor (imul (Z.lxor h1 (Z.shiftr h1 16)) 2246822507)
                   (imul (Z.lxor h2 (Z.shiftr h2 13)) 3266489909) in
  let h2 := Z.lxor (imul (Z.lxor h2 (Z.shiftr h2 16)) 2246822507)
                   (imul (Z.lxor h1 (Z.shiftr h1 13)) 3266489909) in
  4294967296 * (Z.land 2097151 h2) + h1.

(** [cyrb53(str)], the seed defaulting to 0. *)
Definition cyrb53 (str : string) : Z := cyrb53_seeded str 0.

(** [(val % 1000) / 1000] *)
Definition unitFloat (val : Z) : Q := (val mod 1000) # 1000.

End Hash.

(** ** JavaScript values used by both renderers *)

Module Js.

(** [String(n)] for a non-negative integer [n], as used by [+] and template
    strings. *)
Definition str (n : nat) : string :=
  DecimalString.NilEmpty.string_of_uint (Nat.to_uint n).

(** [arr[i]]: [undefined] (here [None]) outside the array. *)
Definition index (arr : list string) (i : Z) : option string :=
  if i <? 0 then None else nth_error arr (Z.to_nat i).

(** Truthiness of an array element: [undefined] and the empty string are
    falsy. *)
Definition truthy (a : option string) : bool :=
  match a with
  | Some s => negb (String.eqb s "")
  | None => false
  end.

(** [a || b] *)
Definition orElse (a b : option string) : option string :=
  if truthy a then a else b.

(** The string held by a truthy value ([fallback] never shows for one). *)
Definition text (a : option string) (fallback : string) : string :=
  match a with
  | Some s => s
  | None => fallback
  end.

(** [x > y] on numbers. *)
Definition gt (x y : Q) : bool := negb (Qle_bool x y).

(** A text without the character [-]. *)
Fixpoint dashFree (s : string) : bool :=
  match s with
  | EmptyString => true
  | String c s' => negb (Ascii.eqb c "-"%char) && dashFree s'
  end.

End Js.

(** ** The binary64 reading of the hash stream *)

Module Double.

Import PrimFloat.

#[local] Set Warnings "-inexact-float".

(** [(val % 1000) / 1000] on doubles. *)
Definition unitFloat (val : Z) : PrimFloat.float :=
  PrimFloat.div (PrimFloat.of_uint63 (Uint63.of_Z (val mod 1000))) 1000%float.

(** [x > 0.85] on doubles. *)
Definition prunes (x : PrimFloat.float) : bool := PrimFloat.ltb 0.85%float x.

(** [x > 0.4] on doubles. *)
Definition leafs (x : PrimFloat.float) : bool := PrimFloat.ltb 0.4%float x.

(** The two readings of the comparisons agree on the hash value [val]. *)
Definition agrees (val : Z) : bool :=
  Bool.eqb (prunes (unitFloat val)) (Js.gt (Hash.unitFloat val) 0.85)
  && Bool.eqb (leafs (unitFloat val)) (Js.gt (Hash.unitFloat val) 0.4).

(** [radius * 0.7] of [Branch], on doubles. *)
Definition nextRadius (radius : PrimFloat.float) : PrimFloat.float :=
  PrimFloat.mul radius 0.7%float.

(** [length * (0.75 + (rndStructure * 0.1))] of [Branch], on doubles. *)
Definition nextLength (length rndStructure : PrimFloat.float) : PrimFloat.float :=
  PrimFloat.mul length
    (PrimFloat.add 0.75%float (PrimFloat.mul rndStructure 0.1%float)).

(** [Number.MIN_VALUE], the smallest positive double. *)
Definition MIN_VALUE : PrimFloat.float := 0x1p-1074%float.

(** The length factor read from the hash value [val] lies in [0.75, 0.85),
    on doubles. *)
Definition factorInRange (val : Z) : bool :=
  let factor := PrimFloat.add 0.75%float (PrimFloat.mul (unitFloat val) 0.1%float) in
  PrimFloat.leb 0.75%float factor && PrimFloat.ltb factor 0.85%float.

(** The radius [TreeRender] and [Branch] hand to the branches of a level. *)
Fixpoint radiusAt (depth : nat) : PrimFloat.float :=
  match depth with
  | O => 0.3%float
  | S d => nextRadius (radiusAt d)
  end.

End Double.

(** ** Types and constants (types.ts, constants.ts) *)

Inductive TreeSpecies := PINE | MAPLE | CHERRY | OAK.

(** The string value of the enum member. *)
Definition speciesName (s : TreeSpecies) : string :=
  match s with
  | PINE => "Pine" | MAPLE => "Maple" | CHERRY => "Cherry" | OAK => "Oak"
  end.

Inductive GrowthStage := SEED | SAPLING | ADULT | MASTER.

Record TreeData := mkTreeData {
  id : string;
  species : TreeSpecies;
  stage : GrowthStage;
  age : Q;
  water : Q;
  fertilizer : Q;
  health : Q;
  seedValue : Q;
  pruningCount : nat;
  wiringState : Z;
  (** [None] for a record stored before the field existed (the renderers
      guard with [tree.dna || ...]). *)
  dna : option (list string);
  name : string;
  createdAt : Z
}.

Record SpeciesConfig := mkSpeciesConfig {
  colorLeaf : string;
  colorBark : string
}.

Definition SPECIES_CONFIG (s : TreeSpecies) : SpeciesConfig :=
  match s with
  | PINE => mkSpeciesConfig "#2d4f1e" "#3e2723"
  | MAPLE => mkSpeciesConfig "#b91c1c" "#5d4037"
  | CHERRY => mkSpeciesConfig "#fbcfe8" "#4e342e"
  | OAK => mkSpeciesConfig "#4ade80" "#5c4033"
  end.

(** ** The 3D renderer (recursive mesh version of TreeRender.tsx) *)

Module Mesh.

Local Open Scope Q_scope.

Definition Vec3 : Type := Q * Q * Q.

(** [getDnaRandom]: the segment chosen for a depth. *)
Definition segmentFor (dna : list string) (depth : nat) : string :=
  let segmentIndex :=
    Z.min (Z.of_nat (depth / 2)) (Z.of_nat (List.length dna) - 1) in
  Js.text (Js.orElse (Js.orElse (Js.index dna segmentIndex) (Js.index dna 0))
                      (Some "DEFAULT"%string))
          "DEFAULT".

(** The text handed to the hash: [segment + depth + offset]. *)
Definition hashKey (dna : list string) (depth offset : nat) : string :=
  (segmentFor dna depth ++ Js.str depth ++ Js.str offset)%string.

Definition getDnaRandom (dna : list string) (depth offset : nat) : Q :=
  let val := Hash.cyrb53 (hashKey dna depth offset) in
  Hash.unitFloat val.

(** What a [Branch] element renders: its props, the wood segment and, at a
    terminal branch, the foliage cluster tinted by the lightness shift. *)
Inductive BranchNode : Type := mkBranchNode {
  position : Vec3;
  rotation : Vec3;
  length : Q;
  radius : Q;
  depth : nat;
  topRadius : Q;
  bark : string;
  foliage : option (string * Q);
  children : list BranchNode
}.

(** React renders nothing for a child component that returns [null]. *)
Fixpoint rendered (cs : list (option BranchNode)) : list BranchNode :=
  match cs with
  | [] => []
  | Some c :: cs' => c :: rendered cs'
  | None :: cs' => rendered cs'
  end.

(** The [Branch] component. The recursion of the source stops at
    [depth >= maxDepth]; [fuel] bounds the remaining levels. Lengths and
    radii are exact rationals here; the two products of the source that
    round, [radius * 0.7] and [length * (0.75 + rnd * 0.1)], are
    [Double.nextRadius] and [Double.nextLength] on binary64 numbers. *)
Fixpoint Branch_fuel (fuel : nat) (position rotation : Vec3) (length radius : Q)
    (depth maxDepth : nat) (species : TreeSpecies)
    (pruneState : nat) (wireState : Z) (dna : list string) : option BranchNode :=
  let config := SPECIES_CONFIG species in
  let isEnd := (maxDepth <=? depth)%nat in
  let rndStructure := getDnaRandom dna depth 100 in
  let rndAngle := getDnaRandom dna depth 200 in
  if (1 <? depth)%nat && Js.gt (getDnaRandom dna depth (300 + pruneState)) 0.85
  then None
  else
    let curveMod := inject_Z wireState * 0.2 in
    let nextLength := length * (0.75 + rndStructure * 0.1) in
    let nextRadius := radius * 0.7 in
    let childCount := if isEnd then 0%nat else 2%nat in
    let children :=
      if isEnd then []
      else
        match fuel with
        | O => []
        | S fuel' =>
            map (fun i : nat =>
                   let angleVariance := rndAngle * 0.6 - 0.3 in
                   let angleOffset :=
                     (if (i =? 0)%nat then 0.6 else - 0.6) + angleVariance + curveMod in
                   let rotX := getDnaRandom dna (depth + 1) (i * 50) * 0.6 in
                   let rotZ := angleOffset in
                   Branch_fuel fuel' (0, length, 0) (rotX, 0, rotZ)
                     nextLength nextRadius (depth + 1) maxDepth species
                     pruneState wireState dna)
                (seq 0 childCount)
        end in
    let leafColor :=
      (colorLeaf config, (getDnaRandom dna maxDepth 999 - 0.5) * 0.1) in
    Some (mkBranchNode position rotation length radius depth nextRadius
            (colorBark config)
            (if isEnd then Some leafColor else None)
            (rendered children)).

Definition Branch (position rotation : Vec3) (length radius : Q)
    (depth maxDepth : nat) (species : TreeSpecies)
    (pruneState : nat) (wireState : Z) (dna : list string) : option BranchNode :=
  Branch_fuel (maxDepth - depth) position rotation length radius depth maxDepth
    species pruneState wireState dna.

(** [SeedObject]: the capsule of the seed, its two radii scaled by the hash. *)
Record SeedMesh := mkSeedMesh {
  capsuleRadius : Q;
  capsuleLength : Q;
  seedColor : string
}.

Definition SeedObject (dna : list string) (species : TreeSpecies) : SeedMesh :=
  let seedHash := getDnaRandom dna 0 1 in
  mkSeedMesh (0.15 + seedHash * 0.05) (0.3 + seedHash * 0.1)
    (colorBark (SPECIES_CONFIG species)).

(** [complexity]; the [default] arm of the [switch] (1) is out of reach of
    the enum. *)
Definition complexity (stage : GrowthStage) : nat :=
  match stage with
  | SEED => 0
  | SAPLING => 3
  | ADULT => 5
  | MASTER => 7
  end.

(** The "Tree Logic" group of [TreeRender]. *)
Inductive TreeLogic :=
  | SeedScene (seed : SeedMesh)
  | BranchScene (root : option BranchNode).

(** [tree.dna || [tree.species + 'INIT']] *)
Definition dnaOf (tree : TreeData) : list string :=
  match dna tree with
  | Some d => d
  | None => [(speciesName (species tree) ++ "INIT")%string]
  end.

Definition TreeRender (tree : TreeData) : TreeLogic :=
  let dna := dnaOf tree in
  match stage tree with
  | SEED => SeedScene (SeedObject dna (species tree))
  | _ =>
      BranchScene
        (Branch (0, 0, 0) (0, 0, 0) 1.5 0.3 0 (complexity (stage tree))
           (species tree) (pruningCount tree) (wiringState tree) dna)
  end.

(** *** Notions used to state the properties of the generated tree *)

(** Every node of a tree, parents first. *)
Fixpoint nodes (t : BranchNode) : list BranchNode :=
  t :: flat_map nodes (children t).

Definition branchNodes (scene : TreeLogic) : list BranchNode :=
  match scene with
  | BranchScene (Some root) => nodes root
  | _ => []
  end.

(** The tree cut [k] levels below its root: deeper nodes are dropped, the
    nodes kept are unchanged but for the list of their children. *)
Fixpoint upTo (k : nat) (t : BranchNode) : BranchNode :=
  mkBranchNode (position t) (rotation t) (length t) (radius t) (depth t)
    (topRadius t) (bark t) (foliage t)
    match k with
    | O => []
    | S k' => map (upTo k') (children t)
    end.

Definition sceneUpTo (k : nat) (scene : TreeLogic) : TreeLogic :=
  match scene with
  | BranchScene root => BranchScene (option_map (upTo k) root)
  | SeedScene seed => SeedScene seed
  end.

(** The tree with the z-rotation of every node erased. *)
Fixpoint unbent (t : BranchNode) : BranchNode :=
  mkBranchNode (position t) (fst (fst (rotation t)), snd (fst (rotation t)), 0)
    (length t) (radius t) (depth t) (topRadius t) (bark t) (foliage t)
    (map unbent (children t)).

Definition sceneUnbent (scene : TreeLogic) : TreeLogic :=
  match scene with
  | BranchScene root => BranchScene (option_map unbent root)
  | SeedScene seed => SeedScene seed
  end.

(** The pruning test of [Branch]. *)
Definition pruned (dna : list string) (depth pruneState : nat) : bool :=
  (1 <? depth)%nat && Js.gt (getDnaRandom dna depth (300 + pruneState)) 0.85.

(** The rotation [Branch] gives to its child [i]. *)
Definition childRotation (dna : list string) (depth : nat) (wireState : Z)
    (i : nat) : Vec3 :=
  (getDnaRandom dna (depth + 1) (i * 50) * 0.6, 0,
   (if (i =? 0)%nat then 0.6 else - 0.6)
   + (getDnaRandom dna depth 200 * 0.6 - 0.3) + inject_Z wireState * 0.2).

(** The children a node renders, as [Branch] computes them. *)
Definition kids (fuel : nat) (length radius : Q) (depth maxDepth : nat)
    (species : TreeSpecies) (pruneState : nat) (wireState : Z)
    (dna : list string) : list (option BranchNode) :=
  if (maxDepth <=? depth)%nat then []
  else
    match fuel with
    | O => []
    | S fuel' =>
        map (fun i =>
               Branch_fuel fuel' (0, length, 0) (childRotation dna depth wireState i)
                 (length * (0.75 + getDnaRandom dna depth 100 * 0.1)) (radius * 0.7)
                 (depth + 1) maxDepth species pruneState wireState dna)
            [0%nat; 1%nat]
    end.

(** The length factor of a level. *)
Definition lengthFactor (dna : list string) (depth : nat) : Q :=
  0.75 + getDnaRandom dna depth 100 * 0.1.

(** No selected segment is a proper prefix of another selected segment. *)
Definition prefixFree (dna : list string) : Prop :=
  forall d1 d2 u,
    segmentFor dna d2 = (segmentFor dna d1 ++ u)%string ->
    segmentFor dna d1 = segmentFor dna d2.

(** The (depth, offset) pairs that one rendered [Branch] hands to
    [getDnaRandom], in the order of the source: rndStructure, rndAngle, the
    pruning test, rotX of the two children, leafColor. *)
Definition draws (depth maxDepth pruneState : nat) : list (nat * nat) :=
  [(depth, 100); (depth, 200)]%nat
  ++ (if (1 <? depth)%nat then [(depth, 300 + pruneState)%nat] else [])
  ++ (if (maxDepth <=? depth)%nat then []
      else map (fun i => (depth + 1, i * 50)%nat) (seq 0 2))
  ++ [(maxDepth, 999%nat)].

Definition drawKeys (dna : list string) (depth maxDepth pruneState : nat) :
    list string :=
  map (fun k => hashKey dna (fst k) (snd k)) (draws depth maxDepth pruneState).

End Mesh.

(** ** The 2D renderer (canvas-texture version of TreeRender.tsx) *)

Module Canvas.

Local Open Scope Q_scope.

(** [getDnaFloat]: the segment chosen for a cursor. *)
Definition segmentFor (dna : list string) (cursor : nat) : string :=
  let len := List.length dna in
  let segmentIdx := ((cursor / 10) mod (if (len =? 0)%nat then 1 else len))%nat in
  if Js.truthy (Js.index dna (Z.of_nat segmentIdx))
  then Js.text (Js.index dna (Z.of_nat segmentIdx)) "SEED"
  else "SEED"%string.

(** The text handed to the hash: the template [`${segment}-${cursor}`]. *)
Definition hashKey (dna : list string) (cursor : nat) : string :=
  (segmentFor dna cursor ++ "-" ++ Js.str cursor)%string.

Definition getDnaFloat (dna : list string) (cursor : nat) : Q :=
  let val := Hash.cyrb53 (hashKey dna cursor) in
  Hash.unitFloat val.

(** What [drawLeaf] paints. *)
Inductive LeafShape :=
  | Needles (radius needle : Q) (count : nat)
  | Blossom (radius : Q) (fill : string)
  | Broad (radiusX radiusY : Q).

Record LeafGlyph := mkLeafGlyph {
  leafSway : Q;
  leafFill : string;
  leafShape : LeafShape
}.

(** What one call of [drawBranch] paints: the curved stroke, the leaf when
    [drawLeaf] is called (the place the canvas is translated to and what
    [drawLeaf] paints there), and the rotated sub-branches. *)
Inductive Stroke : Type := mkStroke {
  len : Q;
  depth : nat;
  cursor : nat;
  lineWidth : Z;
  control : Q * Q;
  tip : Q * Q;
  leaf : option ((Q * Q) * LeafGlyph);
  branches : list (Q * Stroke)
}.

(** The place of the leaf of a stroke. *)
Definition leafAt (t : Stroke) : option (Q * Q) := option_map fst (leaf t).

(** A [for] loop whose body calls [Math.random()]: the bodies run in the
    order of [indices], each from the number of calls the one before it
    left, and the loop leaves the number of calls of the last body. *)
Fixpoint forLoop {B : Type} (body : nat -> nat -> B * nat) (indices : list nat)
    (calls : nat) : list B * nat :=
  match indices with
  | [] => ([], calls)
  | i :: rest =>
      let first := body i calls in
      let others := forLoop body rest (snd first) in
      (fst first :: fst others, snd others)
  end.

Record SeedDrawing := mkSeedDrawing {
  center : Q * Q;
  pulse : Q;
  sproutSway : Q;
  seedFill : string
}.

(** [tree.dna || [tree.species]] *)
Definition dnaOf (tree : TreeData) : list string :=
  match dna tree with
  | Some d => d
  | None => [speciesName (species tree)]
  end.

Section Clock.

(** [Math.sin], left abstract. *)
Variable sin : Q -> Q.

(** [Math.random()]: [random n] is the result of call number [n], the calls
    being counted from the first one of the frame. Every function that
    calls it takes the number of calls made so far and returns the new
    number with its result. *)
Variable random : nat -> Q.

(** [drawLeaf]. *)
Definition drawLeaf (species : TreeSpecies) (config : SpeciesConfig)
    (scale time : Q) (calls : nat) : LeafGlyph * nat :=
  let sway := sin (time * 2 + random calls * 10) * 0.1 in
  match species with
  | PINE =>
      (mkLeafGlyph sway (colorLeaf config) (Needles (6 * scale) (12 * scale) 8),
       S calls)
  | CHERRY =>
      let fill := if Js.gt (random (S calls)) 0.5 then colorLeaf config
                  else "#fed7aa"%string in
      (mkLeafGlyph sway fill (Blossom (5 * scale) fill), S (S calls))
  | _ =>
      (mkLeafGlyph sway (colorLeaf config) (Broad (8 * scale) (12 * scale)),
       S calls)
  end.

(** [drawBranch]. The recursion of the source stops at [depth >= maxDepth];
    [fuel] bounds the remaining levels. *)
Fixpoint drawBranch_fuel (fuel : nat) (len : Q) (depth maxDepth cursor : nat)
    (dna : list string) (species : TreeSpecies) (config : SpeciesConfig)
    (time : Q) (calls : nat) : Stroke * nat :=
  let width := Z.max 1 ((Z.of_nat maxDepth - Z.of_nat depth) * 3) in
  let staticCurve := (getDnaFloat dna (cursor + 1) - 0.5) * 20 * (len / 100) in
  let windSway :=
    sin (time + inject_Z (Z.of_nat depth) * 0.5) * (inject_Z (Z.of_nat depth) * 1.5) in
  let leaf :=
    if (Z.of_nat maxDepth - 3 <? Z.of_nat depth)%Z || (depth =? maxDepth)%nat
    then if Js.gt (getDnaFloat dna (cursor + 99)) 0.4
         then let glyph := drawLeaf species config 1.5 time calls in
              (Some ((0 + windSway * 0.5, - len), fst glyph), snd glyph)
         else (None, calls)
    else (None, calls) in
  let subBranches :=
    if (depth <? maxDepth)%nat then
      match fuel with
      | O => ([], snd leaf)
      | S fuel' =>
          let branchCount := (Qfloor (getDnaFloat dna (cursor + 2) * 2) + 2)%Z in
          let spread :=
            match species with
            | PINE => 0.6
            | OAK => 1.0
            | _ => 0.8
            end in
          forLoop
            (fun (i calls : nat) =>
               let variance := (getDnaFloat dna (cursor + 10 + i) - 0.5) * 0.5 in
               let baseAngle :=
                 ((inject_Z (Z.of_nat i) / inject_Z (branchCount - 1)) - 0.5)
                 * spread * 2 in
               let branchSway :=
                 sin (time * 1.5 + inject_Z (Z.of_nat depth)) * 0.05 in
               let angle := baseAngle + variance + branchSway in
               let decay := 0.7 + getDnaFloat dna (cursor + 20 + i) * 0.1 in
               let sub :=
                 drawBranch_fuel fuel' (len * decay) (depth + 1) maxDepth
                   (cursor + 100 + i * 50) dna species config time calls in
               ((angle, fst sub), snd sub))
            (seq 0 (Z.to_nat branchCount)) (snd leaf)
      end
    else ([], snd leaf) in
  (mkStroke len depth cursor width
     (staticCurve + windSway, - len / 2) (0 + windSway * 0.5, - len)
     (fst leaf) (fst subBranches),
   snd subBranches).

Definition drawBranch (len : Q) (depth maxDepth cursor : nat)
    (dna : list string) (species : TreeSpecies) (config : SpeciesConfig)
    (time : Q) (calls : nat) : Stroke * nat :=
  drawBranch_fuel (maxDepth - depth) len depth maxDepth cursor dna species
    config time calls.

Definition drawSeed (width height : Q) (color : string) (time : Q) : SeedDrawing :=
  let cx := width / 2 in
  let cy := height - 100 in
  let pulse := sin (time * 2) * 0.1 + 4 in
  let sway := sin (time * 3) * 5 in
  mkSeedDrawing (cx, cy) pulse sway color.

(** [complexity]; the [default] arm of the [switch] (1) is out of reach of
    the enum. *)
Definition complexity (stage : GrowthStage) : nat :=
  match stage with
  | SEED => 0
  | SAPLING => 4
  | ADULT => 7
  | MASTER => 9
  end.

(** What the frame callback of [TreeRender] paints on the canvas. *)
Inductive Frame :=
  | SeedFrame (seed : SeedDrawing)
  | BranchFrame (trunk : Stroke).

Definition TreeRender (tree : TreeData) (time : Q) : Frame :=
  let speciesConfig := SPECIES_CONFIG (species tree) in
  match stage tree with
  | SEED => SeedFrame (drawSeed 1024 1024 (colorBark speciesConfig) time)
  | _ =>
      let startLen := 140 in
      let dna := dnaOf tree in
      BranchFrame
        (fst (drawBranch startLen 1 (complexity (stage tree)) 0 dna
                (species tree) speciesConfig time 0))
  end.

(** The angle [drawBranch] rotates the canvas by for its sub-branch [i]. *)
Definition branchAngle (dna : list string) (species : TreeSpecies)
    (depth cursor : nat) (time : Q) (i : nat) : Q :=
  let branchCount := (Qfloor (getDnaFloat dna (cursor + 2) * 2) + 2)%Z in
  let spread :=
    match species with
    | PINE => 0.6
    | OAK => 1.0
    | _ => 0.8
    end in
  ((inject_Z (Z.of_nat i) / inject_Z (branchCount - 1)) - 0.5) * spread * 2
  + (getDnaFloat dna (cursor + 10 + i) - 0.5) * 0.5
  + sin (time * 1.5 + inject_Z (Z.of_nat depth)) * 0.05.

End Clock.

(** Every stroke of a drawing, parents first. *)
Fixpoint strokes (t : Stroke) : list Stroke :=
  t :: flat_map (fun b => strokes (snd b)) (branches t).

Definition frameStrokes (frame : Frame) : list Stroke :=
  match frame with
  | BranchFrame trunk => strokes trunk
  | SeedFrame _ => []
  end.

(** [branchCount] of [drawBranch] at a cursor. *)
Definition branchCount (dna : list string) (cursor : nat) : Z :=
  (Qfloor (getDnaFloat dna (cursor + 2) * 2) + 2)%Z.

End Canvas.

(** Record update of the care loop: [{ ...t, pruningCount: n }]. *)
Definition setPruningCount (t : TreeData) (n : nat) : TreeData :=
  mkTreeData (id t) (species t) (stage t) (age t) (water t) (fertilizer t)
    (health t) (seedValue t) n (wiringState t) (dna t) (name t) (createdAt t).

(** [{ ...t, wiringState: w }] *)
Definition setWiringState (t : TreeData) (w : Z) : TreeData :=
  mkTreeData (id t) (species t) (stage t) (age t) (water t) (fertilizer t)
    (health t) (seedValue t) (pruningCount t) w (dna t) (name t) (createdAt t).

(** [{ ...t, dna: d }] *)
Definition setDna (t : TreeData) (d : list string) : TreeData :=
  mkTreeData (id t) (species t) (stage t) (age t) (water t) (fertilizer t)
    (health t) (seedValue t) (pruningCount t) (wiringState t) (Some d) (name t)
    (createdAt t).

(** ** The genetic history encoder (App.tsx) *)

Module Encoder.

Record Vitals := mkVitals {
  v_health : Q;
  v_water : Q;
  v_fertilizer : Q
}.

(** [c.toUpperCase()] on one character. *)
Definition upperChar (c : ascii) : ascii :=
  let n := nat_of_ascii c in
  if ((97 <=? n) && (n <=? 122))%nat then ascii_of_nat (n - 32) else c.

(** [s.toUpperCase()] *)
Fixpoint toUpperCase (s : string) : string :=
  match s with
  | EmptyString => EmptyString
  | String c s' => String (upperChar c) (toUpperCase s')
  end.

(** [n.toString(16)] on an integer. *)
Definition toString16 (n : Z) : string :=
  let digits :=
    HexadecimalString.NilEmpty.string_of_uint (N.to_hex_uint (Z.to_N (Z.abs n))) in
  if n <? 0 then ("-" ++ digits)%string else digits.

(** [s.padStart(2, '0')] *)
Definition padStart2 (s : string) : string :=
  match String.length s with
  | 0%nat => ("00" ++ s)%string
  | 1%nat => ("0" ++ s)%string
  | _ => s
  end.

(** [Math.floor(x).toString(16).toUpperCase().padStart(2, '0')] *)
Definition hexByte (x : Q) : string :=
  padStart2 (toUpperCase (toString16 (Qfloor x))).

(** [generateDNASegment]. [random36] is the text of
    [Math.random().toString(36)], the one random draw of a call. *)
Definition generateDNASegment (prefix : string) (stats : option Vitals)
    (random36 : string) : string :=
  match stats with
  | None => (prefix ++ "-" ++ toUpperCase (substring 2 4 random36))%string
  | Some stats =>
      let h := hexByte (v_health stats) in
      let w := hexByte (v_water stats) in
      let f := hexByte (v_fertilizer stats) in
      let rnd := toUpperCase (substring 2 2 random36) in
      ("EVO-" ++ h ++ w ++ f ++ "-" ++ rnd)%string
  end.

(** *** Notions used to state the format of a token *)

(** An upper-case hexadecimal digit. *)
Definition isUpperHex (c : ascii) : bool :=
  let n := nat_of_ascii c in
  ((48 <=? n) && (n <=? 57) || (65 <=? n) && (n <=? 70))%nat.

(** A digit or an upper-case letter. *)
Definition isUpperBase36 (c : ascii) : bool :=
  let n := nat_of_ascii c in
  ((48 <=? n) && (n <=? 57) || (65 <=? n) && (n <=? 90))%nat.

(** A digit or a lower-case letter, as [toString(36)] writes them. *)
Definition isLowerBase36 (c : ascii) : bool :=
  let n := nat_of_ascii c in
  ((48 <=? n) && (n <=? 57) || (97 <=? n) && (n <=? 122))%nat.

Fixpoint allChars (P : ascii -> bool) (s : string) : bool :=
  match s with
  | EmptyString => true
  | String c s' => P c && allChars P s'
  end.

(** The value of a text of upper-case hexadecimal digits. *)
Definition hexValue (s : string) : Z :=
  fold_left (fun acc c =>
               let n := Z.of_nat (nat_of_ascii c) in
               16 * acc + (if n <=? 57 then n - 48 else n - 55))%Z
    (list_ascii_of_string s) 0%Z.

Definition hexByteOk (n : nat) : bool :=
  let s := padStart2 (toUpperCase (toString16 (Z.of_nat n))) in
  (String.length s =? 2)%nat && allChars isUpperHex s && (hexValue s =? Z.of_nat n)%Z.

End Encoder.

(** ** The care loop (App.tsx) *)

Module Care.

Local Open Scope Q_scope.

(** [Math.max(x, y)] and [Math.min(x, y)] *)
Definition max (x y : Q) : Q := if Qle_bool x y then y else x.
Definition min (x y : Q) : Q := if Qle_bool x y then x else y.

(** [x < y] on numbers. *)
Definition lt (x y : Q) : bool := negb (Qle_bool y x).

Definition MAX_STATS : Q := 100.
Definition CRITICAL_LOW : Q := 20.

(** The numeric value of the enum member. *)
Definition stageIndex (s : GrowthStage) : Z :=
  match s with
  | SEED => 0 | SAPLING => 1 | ADULT => 2 | MASTER => 3
  end.

Definition stageOfIndex (n : Z) : option GrowthStage :=
  if (n =? 0)%Z then Some SEED
  else if (n =? 1)%Z then Some SAPLING
  else if (n =? 2)%Z then Some ADULT
  else if (n =? 3)%Z then Some MASTER
  else None.

(** The state of [App] that the handlers read and write. *)
Record App := mkApp {
  inventory : list TreeData;
  activeTreeId : option string;
  advice : option string
}.

(** [t.id === activeTreeId] *)
Definition isActive (app : App) (t : TreeData) : bool :=
  match activeTreeId app with
  | Some i => String.eqb (id t) i
  | None => false
  end.

(** [inventory.find(t => t.id === activeTreeId) || null] *)
Definition activeTree (app : App) : option TreeData :=
  find (isActive app) (inventory app).

(** [updateActiveTree]; [!activeTreeId] holds of [null] and of the empty
    string. *)
Definition updateActiveTree (updater : TreeData -> TreeData) (app : App) : App :=
  if Js.truthy (activeTreeId app)
  then mkApp (map (fun t => if isActive app t then updater t else t) (inventory app))
         (activeTreeId app) (advice app)
  else app.

(** The body of the interval callback, for the active tree. *)
Definition tickTree (tree : TreeData) : TreeData :=
  let waterDecay := 0.5 in
  let fertDecay := 0.2 in
  let newHealth :=
    if lt (water tree) CRITICAL_LOW || lt (fertilizer tree) CRITICAL_LOW
    then max 0 (health tree - 0.5)
    else if Js.gt (water tree) 50 && Js.gt (fertilizer tree) 50
         then min MAX_STATS (health tree + 0.1)
         else health tree in
  let newAge := age tree + 0.1 in
  mkTreeData (id tree) (species tree) (stage tree) newAge
    (max 0 (water tree - waterDecay)) (max 0 (fertilizer tree - fertDecay))
    newHealth (seedValue tree) (pruningCount tree) (wiringState tree) (dna tree)
    (name tree) (createdAt tree).

(** One tick of the game loop. *)
Definition tick (app : App) : App :=
  if Js.truthy (activeTreeId app)
  then mkApp (map (fun tree => if negb (isActive app tree) then tree
                               else tickTree tree) (inventory app))
         (activeTreeId app) (advice app)
  else app.

(** [handleCreateTree]; [random36] and [randomId36] are the texts of the two
    calls of [Math.random().toString(36)], [seed] the third random draw and
    [now] the value of [Date.now()]. *)
Definition handleCreateTree (species : TreeSpecies)
    (random36 randomId36 : string) (seed : Q) (now : Z) (app : App) : App :=
  let speciesPrefix := Encoder.toUpperCase (substring 0 3 (speciesName species)) in
  let initialDNA := Encoder.generateDNASegment speciesPrefix None random36 in
  let newTree :=
    mkTreeData (substring 2 9 randomId36) species SEED 0 50 50 100 seed 0 0
      (Some [initialDNA]) ("My " ++ speciesName species)%string now in
  mkApp (inventory app ++ [newTree]) (Some (id newTree))
    (Some "A new life begins. Keep the soil moist."%string).

Definition handleWater (app : App) : App :=
  updateActiveTree
    (fun t => mkTreeData (id t) (species t) (stage t) (age t)
                (min MAX_STATS (water t + 30)) (fertilizer t) (health t)
                (seedValue t) (pruningCount t) (wiringState t) (dna t) (name t)
                (createdAt t))
    app.

Definition handleFertilize (app : App) : App :=
  updateActiveTree
    (fun t => mkTreeData (id t) (species t) (stage t) (age t) (water t)
                (min MAX_STATS (fertilizer t + 30)) (health t)
                (seedValue t) (pruningCount t) (wiringState t) (dna t) (name t)
                (createdAt t))
    app.

Definition handlePrune (app : App) : App :=
  match activeTree app with
  | None => app
  | Some tree =>
      if (stageIndex (stage tree) <? stageIndex SAPLING)%Z then app
      else updateActiveTree
             (fun t => setPruningCount t (pruningCount t + 1)) app
  end.

Definition handleWire (app : App) : App :=
  match activeTree app with
  | None => app
  | Some tree =>
      if (stageIndex (stage tree) <? stageIndex ADULT)%Z then app
      else updateActiveTree
             (fun t => setWiringState t (Z.rem (wiringState t + 1) 5)) app
  end.

(** The age a tree must have reached to leave its stage. *)
Definition minAge (s : GrowthStage) : nat :=
  match s with
  | SEED => 1
  | SAPLING => 15
  | _ => 0
  end.

(** The updater of [handleAdvanceStage]; [[...t.dna, newDNA]] throws a
    TypeError when the record has no [dna] (here [None]). *)
Definition advanceTree (nextStage : GrowthStage) (newDNA : string)
    (t : TreeData) : option TreeData :=
  match dna t with
  | Some d =>
      Some (mkTreeData (id t) (species t) nextStage (age t) (water t)
              (fertilizer t) (health t) (seedValue t) (pruningCount t)
              (wiringState t) (Some (d ++ [newDNA])) (name t) (createdAt t))
  | None => None
  end.

(** [prev.map(t => t.id === activeTreeId ? updater(t) : t)] for an updater
    that can throw. *)
Fixpoint mapActive (app : App) (updater : TreeData -> option TreeData)
    (ts : list TreeData) : option (list TreeData) :=
  match ts with
  | [] => Some []
  | t :: ts' =>
      match (if isActive app t then updater t else Some t) with
      | Some t' =>
          match mapActive app updater ts' with
          | Some r => Some (t' :: r)
          | None => None
          end
      | None => None
      end
  end.

(** [handleAdvanceStage]; [random36] is the text of the random draw of
    [generateDNASegment]. [None] stands for the TypeError of the updater. *)
Definition handleAdvanceStage (random36 : string) (app : App) : option App :=
  match activeTree app with
  | None => Some app
  | Some tree =>
      if lt (health tree) 80 then
        Some (mkApp (inventory app) (activeTreeId app)
                (Some "The tree is too weak to be repotted."%string))
      else if lt (age tree) (inject_Z (Z.of_nat (minAge (stage tree)))) then
        Some (mkApp (inventory app) (activeTreeId app)
                (Some ("The tree is not yet ready. Patience. (Needs Age "
                       ++ Js.str (minAge (stage tree)) ++ ")")%string))
      else
        let nextStage := (stageIndex (stage tree) + 1)%Z in
        if (stageIndex MASTER <? nextStage)%Z then Some app
        else
          match stageOfIndex nextStage with
          | None => Some app
          | Some next =>
              let newDNA :=
                Encoder.generateDNASegment ("S" ++ Js.str (Z.to_nat nextStage))
                  (Some (Encoder.mkVitals (health tree) (water tree)
                           (fertilizer tree)))
                  random36 in
              if Js.truthy (activeTreeId app) then
                match mapActive app (advanceTree next newDNA) (inventory app) with
                | Some inv =>
                    Some (mkApp inv (activeTreeId app)
                            (Some "The roots spread deeper into the earth."%string))
                | None => None
                end
              else
                Some (mkApp (inventory app) (activeTreeId app)
                        (Some "The roots spread deeper into the earth."%string))
          end
  end.

(** What the user and the timer can do. *)
Inductive Action :=
  | Tick
  | Create (species : TreeSpecies) (random36 randomId36 : string) (seed : Q)
      (now : Z)
  | Water
  | Fertilize
  | Prune
  | Wire
  | Advance (random36 : string)
  | Select (treeId : option string).

Definition step (app : App) (a : Action) : option App :=
  match a with
  | Tick => Some (tick app)
  | Create sp r rid seed now => Some (handleCreateTree sp r rid seed now app)
  | Water => Some (handleWater app)
  | Fertilize => Some (handleFertilize app)
  | Prune => Some (handlePrune app)
  | Wire => Some (handleWire app)
  | Advance r => handleAdvanceStage r app
  | Select i => Some (mkApp (inventory app) i (advice app))
  end.

(** A sequence of actions, stopping at the first that throws. *)
Fixpoint run (app : App) (actions : list Action) : option App :=
  match actions with
  | [] => Some app
  | a :: rest =>
      match step app a with
      | Some app' => run app' rest
      | None => None
      end
  end.

(** The garden before the first tree is planted. *)
Definition emptyGarden : App := mkApp [] None None.

(** *** Notions used to state the invariants of the care loop *)

Definition vitalsOk (t : TreeData) : Prop :=
  0 <= water t /\ water t <= 100
  /\ 0 <= fertilizer t /\ fertilizer t <= 100
  /\ 0 <= health t /\ health t <= 100.

(** The segments of a record, none when the field is missing. *)
Definition segments (t : TreeData) : list string :=
  match dna t with
  | Some d => d
  | None => []
  end.

(** What every tree of a garden grown from [emptyGarden] satisfies. *)
Definition wellGrown (t : TreeData) : Prop :=
  vitalsOk t
  /\ 0 <= age t
  /\ (0 <= wiringState t < 5)%Z
  /\ (exists d, dna t = Some d
               /\ Z.of_nat (List.length d) = (stageIndex (stage t) + 1)%Z
               /\ Forall (fun s => s <> ""%string) d).

(** The identifiers drawn for the new trees of [actions] are new: none is
    in [used] or drawn twice. *)
Fixpoint freshIds (used : list string) (actions : list Action) : Prop :=
  match actions with
  | [] => True
  | Create _ _ randomId36 _ _ :: rest =>
      ~ In (substring 2 9 randomId36) used
      /\ freshIds (used ++ [substring 2 9 randomId36]) rest
  | _ :: rest => freshIds used rest
  end.

End Care.

(** ** Further notions on generated trees *)

(** [q] to the power [n]. *)
Fixpoint qpow (q : Q) (n : nat) : Q :=
  match n with
  | O => 1
  | S n' => qpow q n' * q
  end.

(** A branch that carries a foliage cluster. *)
Definition leafy (n : Mesh.BranchNode) : bool :=
  match Mesh.foliage n with
  | Some _ => true
  | None => false
  end.

(** The number of nodes an optional tree has. *)
Definition osize (o : option Mesh.BranchNode) : nat :=
  match o with
  | Some t => List.length (Mesh.nodes t)
  | None => 0%nat
  end.

(** The number of foliage clusters an optional tree has. *)
Definition ofoliage (o : option Mesh.BranchNode) : nat :=
  match o with
  | Some t => List.length (filter leafy (Mesh.nodes t))
  | None => 0%nat
  end.

(** The nodes of a scene that carry foliage. *)
Definition foliageNodes (scene : Mesh.TreeLogic) : list Mesh.BranchNode :=
  filter leafy (Mesh.branchNodes scene).

(** ** Further notions on 2D drawings *)

(** What a stroke keeps when the clock is forgotten: its length, depth,
    cursor, width, whether a leaf is drawn at its tip, and its sub-branches. *)
Inductive Skeleton : Type :=
  mkSkeleton (len : Q) (depth cursor : nat) (lineWidth : Z) (leaf : bool)
    (branches : list Skeleton).

Fixpoint skeleton (t : Canvas.Stroke) : Skeleton :=
  mkSkeleton (Canvas.len t) (Canvas.depth t) (Canvas.cursor t)
    (Canvas.lineWidth t)
    (match Canvas.leafAt t with Some _ => true | None => false end)
    (map (fun b => skeleton (snd b)) (Canvas.branches t)).

Definition frameSkeleton (frame : Canvas.Frame) : option Skeleton :=
  match frame with
  | Canvas.BranchFrame trunk => Some (skeleton trunk)
  | Canvas.SeedFrame _ => None
  end.

(** What a stroke keeps when the glyphs of its leaves are forgotten: all
    that [drawBranch] paints itself, the places of the leaves and the
    rotated sub-branches. *)
Inductive Outline : Type :=
  mkOutline (len : Q) (depth cursor : nat) (lineWidth : Z) (control tip : Q * Q)
    (leafAt : option (Q * Q)) (branches : list (Q * Outline)).

Fixpoint outline (t : Canvas.Stroke) : Outline :=
  mkOutline (Canvas.len t) (Canvas.depth t) (Canvas.cursor t)
    (Canvas.lineWidth t) (Canvas.control t) (Canvas.tip t) (Canvas.leafAt t)
    (map (fun b => (fst b, outline (snd b))) (Canvas.branches t)).

Definition frameOutline (frame : Canvas.Frame) : Outline + Canvas.SeedDrawing :=
  match frame with
  | Canvas.BranchFrame trunk => inl (outline trunk)
  | Canvas.SeedFrame seed => inr seed
  end.

(** The glyphs of the leaves of a drawing, in the order [drawLeaf] paints
    them. *)
Fixpoint glyphs (t : Canvas.Stroke) : list Canvas.LeafGlyph :=
  match Canvas.leaf t with
  | Some placed => [snd placed]
  | None => []
  end
  ++ flat_map (fun b => glyphs (snd b)) (Canvas.branches t).

Definition frameGlyphs (frame : Canvas.Frame) : list Canvas.LeafGlyph :=
  match frame with
  | Canvas.BranchFrame trunk => glyphs trunk
  | Canvas.SeedFrame _ => []
  end.

(** The cursors that one call of [drawBranch] with [count] sub-branches
    hands to [getDnaFloat], in the order of the source: staticCurve, the
    leaf roll, branchCount, then variance and decay of each sub-branch. *)
Definition strokeDraws (cursor count : nat) : list nat :=
  [cursor + 1; cursor + 99; cursor + 2]%nat
  ++ flat_map (fun i => [cursor + 10 + i; cursor + 20 + i]%nat) (seq 0 count).

(** ** Sample records *)

Definition oldPine : TreeData :=
  mkTreeData "k3v9" PINE ADULT 20 50 50 100 0.25 2 1
    (Some ["PIN-AB12"; "EVO-643232-7K"]%string) "My Pine" 1700000000000.

Definition sameGenes : TreeData :=
  mkTreeData "zz01" PINE ADULT 31.5 12 80.5 64 0.75 2 1
    (Some ["PIN-AB12"; "EVO-643232-7K"]%string) "Renamed" 1800000000000.

Definition seedling : TreeData :=
  mkTreeData "a1" MAPLE SEED 0 50 50 100 0.5 0 0 (Some ["MAP-Q7ZK"%string])
    "My Maple" 1700000000000.

Definition adultOf (sp : TreeSpecies) (pruning : nat) (d : list string) : TreeData :=
  mkTreeData "t1" sp ADULT 20 60 60 90 0.5 pruning 0 (Some d) "Tree" 1700000000000.

Definition wiredOak : TreeData :=
  mkTreeData "w7" OAK SAPLING 3 60 60 90 0.5 0 2 (Some ["X"%string]) "Oak"
    1700000000000.

Definition bareSapling : TreeData :=
  mkTreeData "e0" CHERRY SAPLING 2 50 50 100 0.5 0 0 (Some []) "Cherry"
    1700000000000.

Definition pruned699 : TreeData :=
  mkTreeData "p6" MAPLE SAPLING 5 60 60 90 0.5 699 0 (Some ["MAP-Q7ZK"%string])
    "Maple" 1700000000000.

Definition blossomTree : TreeData :=
  mkTreeData "b2" CHERRY SAPLING 4 60 60 90 0.5 0 0
    (Some ["CHE-7QK2"; "EVO-5A3C3C-K9"]%string) "My Cherry" 1700000000000.

Definition collidingPine : TreeData :=
  mkTreeData "c5" PINE SAPLING 5 60 60 90 0.5 0 0 (Some ["PIN-X5G6"%string])
    "Pine" 1700000000000.

Definition trunkOfX : Mesh.BranchNode :=
  Eval vm_compute in
    match Mesh.Branch (0, 0, 0)%Q (0, 0, 0)%Q 1.5 0.3 0 1 OAK 0 0 ["X"%string] with
    | Some t => t
    | None => Mesh.mkBranchNode (0, 0, 0)%Q (0, 0, 0)%Q 0 0 0 0 "" None []
    end.

Definition wiredRoot : Mesh.BranchNode :=
  Eval vm_compute in hd trunkOfX (Mesh.branchNodes (Mesh.TreeRender wiredOak)).

Definition pineTrunk : Canvas.Stroke :=
  Eval vm_compute in
    hd (Canvas.mkStroke 0 0 0 0 (0, 0)%Q (0, 0)%Q None [])
      (Canvas.frameStrokes
         (Canvas.TreeRender (fun x => x) (fun _ => 0%Q) collidingPine 0)).

Definition youngGarden : Care.App :=
  Eval vm_compute in
    Care.handleCreateTree PINE "0.4fzyo82mvyr" "0.k3v9x1abcde" 0.5 1700000000000
      Care.emptyGarden.

(** A garden whose one record was stored without a history. *)
Definition legacyGarden : Care.App :=
  Care.mkApp
    [mkTreeData "old1" OAK SAPLING 20 60 60 90 0.5 0 0 None "Oak" 1600000000000]
    (Some "old1"%string) None.

Definition pineGarden : Care.App :=
  Care.mkApp [seedling; oldPine] (Some "k3v9"%string) None.

(** The garden after a first tree whose identifier was cut from the random
    text "0". *)
Definition unselectableGarden : Care.App :=
  Eval vm_compute in
    Care.handleCreateTree PINE "0.4fzyo82mvyr" "0" 0.5 1700000000000
      Care.emptyGarden.

(** * Properties *)

(** ** The hash stream *)

(** Reference values of the published cyrb53. *)
Example cyrb53_a : Hash.cyrb53 "a" = 7929297801672961.
Proof. vm_compute. reflexivity. Qed.

Example cyrb53_revenge : Hash.cyrb53 "revenge" = 4051478007546757.
Proof. vm_compute. reflexivity. Qed.

Lemma unitFloat_range (val : Z) :
  (0 <= Hash.unitFloat val)%Q /\ (Hash.unitFloat val < 1)%Q.
Proof.
  unfold Hash.unitFloat, Qle, Qlt; simpl.
  pose proof (Z.mod_pos_bound val 1000 ltac:(lia)). lia.
Qed.

Lemma getDnaRandom_range (dna : list string) (depth offset : nat) :
  (0 <= Mesh.getDnaRandom dna depth offset)%Q
  /\ (Mesh.getDnaRandom dna depth offset < 1)%Q.
Proof. apply unitFloat_range. Qed.

Lemma getDnaFloat_range (dna : list string) (cursor : nat) :
  (0 <= Canvas.getDnaFloat dna cursor)%Q /\ (Canvas.getDnaFloat dna cursor < 1)%Q.
Proof. apply unitFloat_range. Qed.

Lemma thresholds_table :
  forallb (fun k => Double.agrees (Z.of_nat k)) (seq 0 1000) = true.
Proof. vm_compute. reflexivity. Qed.

(** On every hash value the pruning test and the leaf test give the same
    answer whether the quotient by 1000 is a binary64 number or a rational. *)
Lemma thresholds_binary64 (val : Z) :
  Double.prunes (Double.unitFloat val) = Js.gt (Hash.unitFloat val) 0.85
  /\ Double.leafs (Double.unitFloat val) = Js.gt (Hash.unitFloat val) 0.4.
Proof.
  pose proof (Z.mod_pos_bound val 1000 ltac:(lia)) as Hk.
  pose proof thresholds_table as T. rewrite forallb_forall in T.
  specialize (T (Z.to_nat (val mod 1000))).
  rewrite in_seq, Z2Nat.id in T by lia. specialize (T ltac:(lia)).
  assert (E1 : Double.unitFloat (val mod 1000) = Double.unitFloat val)
    by (unfold Double.unitFloat; now rewrite Z.mod_mod).
  assert (E2 : Hash.unitFloat (val mod 1000) = Hash.unitFloat val)
    by (unfold Hash.unitFloat; now rewrite Z.mod_mod).
  unfold Double.agrees in T. rewrite E1, E2 in T.
  apply andb_true_iff in T. destruct T as [T1 T2].
  split; now apply Bool.eqb_prop.
Qed.

(** ** The recursion of [Branch] *)

Section BranchFacts.

Import Mesh.
Local Open Scope Q_scope.

Lemma Branch_fuel_eq fuel pos rot len rad d m sp p w dna :
  Branch_fuel fuel pos rot len rad d m sp p w dna =
  if pruned dna d p then None
  else Some (mkBranchNode pos rot len rad d (rad * 0.7)
               (colorBark (SPECIES_CONFIG sp))
               (if (m <=? d)%nat
                then Some (colorLeaf (SPECIES_CONFIG sp),
                           (getDnaRandom dna m 999 - 0.5) * 0.1)
                else None)
               (rendered (kids fuel len rad d m sp p w dna))).
Proof.
  unfold kids, pruned.
  destruct fuel; simpl;
    destruct ((1 <? d)%nat && Js.gt (getDnaRandom dna d (300 + p)) 0.85);
    try reflexivity;
    destruct (m <=? d)%nat; reflexivity.
Qed.

End BranchFacts.

Section BranchRecursion.

Import Mesh.
Local Open Scope Q_scope.

(** Any fuel that covers the remaining levels gives the same tree: the
    recursion never runs out when started by [Branch]. *)
Lemma Branch_fuel_enough fuel1 :
  forall fuel2 pos rot len rad d m sp p w dna,
    (m - d <= fuel1)%nat -> (m - d <= fuel2)%nat ->
    Branch_fuel fuel1 pos rot len rad d m sp p w dna =
    Branch_fuel fuel2 pos rot len rad d m sp p w dna.
Proof.
  induction fuel1 as [|fuel1 IH]; intros fuel2 pos rot len rad d m sp p w dna H1 H2;
    rewrite !Branch_fuel_eq; destruct (pruned dna d p); try reflexivity;
    do 3 f_equal; unfold kids;
    destruct (Nat.leb_spec m d); try reflexivity.
  - lia.
  - destruct fuel2 as [|fuel2]; [lia|].
    simpl. rewrite !(IH fuel2) by lia. reflexivity.
Qed.

Lemma Branch_unfold pos rot len rad d m sp p w dna :
  Branch pos rot len rad d m sp p w dna =
  if pruned dna d p then None
  else Some (mkBranchNode pos rot len rad d (rad * 0.7)
               (colorBark (SPECIES_CONFIG sp))
               (if (m <=? d)%nat
                then Some (colorLeaf (SPECIES_CONFIG sp),
                           (getDnaRandom dna m 999 - 0.5) * 0.1)
                else None)
               (if (m <=? d)%nat then []
                else rendered
                       (map (fun i =>
                               Branch (0, len, 0) (childRotation dna d w i)
                                 (len * (0.75 + getDnaRandom dna d 100 * 0.1))
                                 (rad * 0.7) (d + 1) m sp p w dna)
                            [0%nat; 1%nat]))).
Proof.
  unfold Branch. rewrite Branch_fuel_eq.
  destruct (pruned dna d p); try reflexivity.
  do 3 f_equal. unfold kids.
  destruct (Nat.leb_spec m d); try reflexivity.
  destruct (m - d)%nat as [|f] eqn:E; [lia|].
  simpl. rewrite !(Branch_fuel_enough f (m - (d + 1))) by lia. reflexivity.
Qed.

Lemma nodes_eq (t : BranchNode) : nodes t = t :: flat_map nodes (children t).
Proof. destruct t; reflexivity. Qed.

Lemma rendered_In (cs : list (option BranchNode)) (c : BranchNode) :
  In c (rendered cs) <-> In (Some c) cs.
Proof.
  induction cs as [|[x|] cs IH]; simpl.
  - tauto.
  - rewrite IH. split; intros [H|H]; auto; left; congruence.
  - rewrite IH. split; [auto|]. intros [H|H]; [discriminate|auto].
Qed.

Lemma nodes_rendered (cs : list (option BranchNode)) (n : BranchNode) :
  In n (flat_map nodes (rendered cs)) <->
  exists t, In (Some t) cs /\ In n (nodes t).
Proof.
  rewrite in_flat_map. split; intros [t [H1 H2]]; exists t; split; auto;
    now apply rendered_In.
Qed.

(** A node below the root of a [Branch] tree is a node of one of the two
    sub-branches. *)
Lemma kids_nodes fuel len rad d m sp p w dna n :
  In n (flat_map nodes (rendered (kids fuel len rad d m sp p w dna))) ->
  exists fuel' i t,
    fuel = S fuel' /\ (d < m)%nat /\ (i < 2)%nat /\
    Branch_fuel fuel' (0, len, 0) (childRotation dna d w i)
      (len * (0.75 + getDnaRandom dna d 100 * 0.1)) (rad * 0.7)
      (d + 1) m sp p w dna = Some t /\
    In n (nodes t).
Proof.
  rewrite nodes_rendered. intros [t [Ht Hn]].
  unfold kids in Ht. destruct (Nat.leb_spec m d); [contradiction|].
  destruct fuel as [|fuel']; [contradiction|].
  apply in_map_iff in Ht. destruct Ht as [i [Hi Hin]].
  exists fuel', i, t. repeat split; auto.
  simpl in Hin. lia.
Qed.

(** No node lies deeper than [maxDepth]. *)
Lemma Branch_fuel_depth fuel :
  forall pos rot len rad d m sp p w dna t,
    Branch_fuel fuel pos rot len rad d m sp p w dna = Some t ->
    (d <= m)%nat ->
    Forall (fun n => (depth n <= m)%nat) (nodes t).
Proof.
  induction fuel as [|fuel IH]; intros pos rot len rad d m sp p w dna t Ht Hd;
    rewrite Branch_fuel_eq in Ht; destruct (pruned dna d p); try discriminate;
    injection Ht as <-; rewrite nodes_eq; constructor; simpl; auto;
    rewrite Forall_forall; intros n Hn;
    apply kids_nodes in Hn;
    destruct Hn as (fuel' & i & t & Hf & Hlt & Hi & Ht & Hn);
    try discriminate.
  injection Hf as <-.
  apply IH in Ht; [|lia]. rewrite Forall_forall in Ht. auto.
Qed.

End BranchRecursion.

Section Loops.

Import Canvas.

Context {B : Type}.

Lemma forLoop_length (body : nat -> nat -> B * nat) (l : list nat) :
  forall k, List.length (fst (forLoop body l k)) = List.length l.
Proof. induction l as [|i l IH]; intros k; cbn; auto. Qed.

(** Each result of a loop is the result of its body at some number of
    calls. *)
Lemma forLoop_nth (body : nat -> nat -> B * nat) (l : list nat) :
  forall k j b,
    nth_error (fst (forLoop body l k)) j = Some b ->
    exists i k', nth_error l j = Some i /\ b = fst (body i k').
Proof.
  induction l as [|i l IH]; intros k [|j] b H; cbn in H; try discriminate.
  - injection H as <-. exists i, k. split; reflexivity.
  - apply IH in H. exact H.
Qed.

Lemma forLoop_at (body : nat -> nat -> B * nat) (l : list nat) :
  forall k j i,
    nth_error l j = Some i ->
    exists k', nth_error (fst (forLoop body l k)) j = Some (fst (body i k')).
Proof.
  induction l as [|x l IH]; intros k [|j] i H; cbn in H; try discriminate.
  - injection H as <-. exists k. reflexivity.
  - cbn. eapply IH; eauto.
Qed.

(** A view of the results that does not depend on the number of calls is a
    map over the indices. *)
Lemma forLoop_map {C : Type} (F : B -> C) (G : nat -> C)
    (body : nat -> nat -> B * nat) (l : list nat) :
  (forall i k, In i l -> F (fst (body i k)) = G i) ->
  forall k, map F (fst (forLoop body l k)) = map G l.
Proof.
  induction l as [|i l IH]; intros H k; [reflexivity|].
  cbn. rewrite H by (left; reflexivity).
  rewrite IH by (intros; apply H; right; assumption). reflexivity.
Qed.

Lemma forLoop_ext (body1 body2 : nat -> nat -> B * nat) (l : list nat) :
  (forall i k, In i l -> body1 i k = body2 i k) ->
  forall k, forLoop body1 l k = forLoop body2 l k.
Proof.
  induction l as [|i l IH]; intros H k; [reflexivity|].
  cbn. rewrite H by (left; reflexivity).
  rewrite IH by (intros; apply H; right; assumption). reflexivity.
Qed.

End Loops.

Section DrawBranchRecursion.

Import Canvas.
Local Open Scope Q_scope.

Variable sin : Q -> Q.
Variable random : nat -> Q.

Lemma drawBranch_fuel_depth_eq fuel len d m c dna sp cfg time k :
  depth (fst (drawBranch_fuel sin random fuel len d m c dna sp cfg time k)) = d
  /\ cursor (fst (drawBranch_fuel sin random fuel len d m c dna sp cfg time k)) = c.
Proof. destruct fuel; split; reflexivity. Qed.

(** The leaf of a call and the number of calls of [Math.random()] after it. *)
Lemma drawBranch_fuel_leaf_eq fuel len d m c dna sp cfg time k :
  leaf (fst (drawBranch_fuel sin random fuel len d m c dna sp cfg time k)) =
  if (Z.of_nat m - 3 <? Z.of_nat d)%Z || (d =? m)%nat
  then if Js.gt (getDnaFloat dna (c + 99)) 0.4
       then Some (tip (fst (drawBranch_fuel sin random fuel len d m c dna sp cfg
                              time k)),
                  fst (drawLeaf sin random sp cfg 1.5 time k))
       else None
  else None.
Proof.
  destruct fuel; cbn [drawBranch_fuel fst leaf tip];
    destruct ((Z.of_nat m - 3 <? Z.of_nat d)%Z || (d =? m)%nat);
    try reflexivity;
    destruct (Js.gt (getDnaFloat dna (c + 99)) 0.4); reflexivity.
Qed.

Lemma drawBranch_fuel_branches_eq fuel len d m c dna sp cfg time k :
  branches (fst (drawBranch_fuel sin random fuel len d m c dna sp cfg time k)) =
  if (d <? m)%nat then
    match fuel with
    | O => []
    | S fuel' =>
        fst (forLoop
               (fun i k' =>
                  ((branchAngle sin dna sp d c time i,
                    fst (drawBranch_fuel sin random fuel'
                           (len * (0.7 + getDnaFloat dna (c + 20 + i) * 0.1))
                           (d + 1) m (c + 100 + i * 50) dna sp cfg time k')),
                   snd (drawBranch_fuel sin random fuel'
                          (len * (0.7 + getDnaFloat dna (c + 20 + i) * 0.1))
                          (d + 1) m (c + 100 + i * 50) dna sp cfg time k')))
               (seq 0 (Z.to_nat (branchCount dna c)))
               (if (Z.of_nat m - 3 <? Z.of_nat d)%Z || (d =? m)%nat
                then if Js.gt (getDnaFloat dna (c + 99)) 0.4
                     then snd (drawLeaf sin random sp cfg 1.5 time k)
                     else k
                else k))
    end
  else [].
Proof.
  destruct fuel; cbn [drawBranch_fuel fst branches];
    destruct (d <? m)%nat; try reflexivity.
  destruct ((Z.of_nat m - 3 <? Z.of_nat d)%Z || (d =? m)%nat);
    try reflexivity.
  destruct (Js.gt (getDnaFloat dna (c + 99)) 0.4); reflexivity.
Qed.

(** The sub-branch at index [i] is a call of [drawBranch] one level deeper,
    at the cursor shifted by [100 + i * 50], turned by the angle of [i]. *)
Lemma drawBranch_fuel_branch fuel len d m c dna sp cfg time k i b :
  nth_error
    (branches (fst (drawBranch_fuel sin random fuel len d m c dna sp cfg time k)))
    i = Some b ->
  exists fuel' k',
    fuel = S fuel' /\ (d < m)%nat /\ (i < Z.to_nat (branchCount dna c))%nat
    /\ b = (branchAngle sin dna sp d c time i,
            fst (drawBranch_fuel sin random fuel'
                   (len * (0.7 + getDnaFloat dna (c + 20 + i) * 0.1))
                   (d + 1) m (c + 100 + i * 50) dna sp cfg time k')).
Proof.
  rewrite drawBranch_fuel_branches_eq.
  destruct (Nat.ltb_spec d m); [|destruct i; discriminate].
  destruct fuel as [|fuel']; [destruct i; discriminate|].
  intros Hb. apply forLoop_nth in Hb. destruct Hb as (j & k' & Hj & ->).
  rewrite nth_error_seq in Hj.
  destruct (Nat.ltb_spec i (Z.to_nat (branchCount dna c))) as [Hi|Hi];
    [|discriminate].
  injection Hj as <-. exists fuel', k'. repeat split; auto.
Qed.

(** Below the maximal depth every index under the branch count has its
    sub-branch. *)
Lemma drawBranch_fuel_branch_at fuel len d m c dna sp cfg time k i :
  (d < m)%nat -> (i < Z.to_nat (branchCount dna c))%nat ->
  exists k',
    nth_error
      (branches (fst (drawBranch_fuel sin random (S fuel) len d m c dna sp cfg
                        time k))) i
    = Some (branchAngle sin dna sp d c time i,
            fst (drawBranch_fuel sin random fuel
                   (len * (0.7 + getDnaFloat dna (c + 20 + i) * 0.1))
                   (d + 1) m (c + 100 + i * 50) dna sp cfg time k')).
Proof.
  intros Hd Hi. rewrite drawBranch_fuel_branches_eq.
  destruct (Nat.ltb_spec d m); [|lia].
  match goal with
  | |- exists k', nth_error (fst (forLoop ?body ?l ?a)) _ = _ =>
      destruct (forLoop_at body l a i i) as [k' Hk]
  end.
  - rewrite nth_error_seq.
    destruct (Nat.ltb_spec i (Z.to_nat (branchCount dna c))); [reflexivity|lia].
  - exists k'. exact Hk.
Qed.

Lemma drawBranch_fuel_branches fuel len d m c dna sp cfg time k b :
  In b (branches (fst (drawBranch_fuel sin random fuel len d m c dna sp cfg
                         time k))) ->
  exists fuel' i len' k',
    fuel = S fuel' /\ (d < m)%nat /\ (i < Z.to_nat (branchCount dna c))%nat /\
    snd b = fst (drawBranch_fuel sin random fuel' len' (d + 1) m (c + 100 + i * 50)
                   dna sp cfg time k').
Proof.
  intros Hb. apply In_nth_error in Hb. destruct Hb as [i Hb].
  apply drawBranch_fuel_branch in Hb.
  destruct Hb as (fuel' & k' & Hf & Hlt & Hi & ->).
  eexists fuel', i, _, k'. repeat split; auto.
Qed.

Lemma drawBranch_fuel_count_eq fuel len d m c dna sp cfg time k :
  List.length
    (branches (fst (drawBranch_fuel sin random fuel len d m c dna sp cfg time k)))
  = if (d <? m)%nat
    then match fuel with
         | O => 0%nat
         | S _ => Z.to_nat (branchCount dna c)
         end
    else 0%nat.
Proof.
  rewrite drawBranch_fuel_branches_eq.
  destruct (d <? m)%nat; [|reflexivity].
  destruct fuel; [reflexivity|].
  now rewrite forLoop_length, length_seq.
Qed.

Lemma stroke_ext (s t : Stroke) :
  len s = len t -> depth s = depth t -> cursor s = cursor t ->
  lineWidth s = lineWidth t -> control s = control t -> tip s = tip t ->
  leaf s = leaf t -> branches s = branches t -> s = t.
Proof. destruct s, t; simpl; intros; subst; reflexivity. Qed.

(** A call of [drawBranch] is the stroke painted by the call itself, with
    the sub-branches and the calls of [Math.random()] of the loop. *)
Lemma drawBranch_fuel_eq fuel len d m c dna sp cfg time k :
  drawBranch_fuel sin random fuel len d m c dna sp cfg time k =
  let s := fst (drawBranch_fuel sin random O len d m c dna sp cfg time k) in
  let after :=
    if (Z.of_nat m - 3 <? Z.of_nat d)%Z || (d =? m)%nat
    then if Js.gt (getDnaFloat dna (c + 99)) 0.4
         then snd (drawLeaf sin random sp cfg 1.5 time k)
         else k
    else k in
  let loop :=
    if (d <? m)%nat then
      match fuel with
      | O => ([], after)
      | S fuel' =>
          forLoop
            (fun i k' =>
               ((branchAngle sin dna sp d c time i,
                 fst (drawBranch_fuel sin random fuel'
                        (len * (0.7 + getDnaFloat dna (c + 20 + i) * 0.1))
                        (d + 1) m (c + 100 + i * 50) dna sp cfg time k')),
                snd (drawBranch_fuel sin random fuel'
                       (len * (0.7 + getDnaFloat dna (c + 20 + i) * 0.1))
                       (d + 1) m (c + 100 + i * 50) dna sp cfg time k')))
            (seq 0 (Z.to_nat (branchCount dna c))) after
      end
    else ([], after) in
  (mkStroke (Canvas.len s) (depth s) (cursor s) (lineWidth s) (control s) (tip s)
     (leaf s) (fst loop),
   snd loop).
Proof.
  destruct fuel; cbn [drawBranch_fuel fst snd Canvas.len depth cursor lineWidth
                      control tip leaf];
    destruct (d <? m)%nat;
    destruct ((Z.of_nat m - 3 <? Z.of_nat d)%Z || (d =? m)%nat);
    try reflexivity;
    destruct (Js.gt (getDnaFloat dna (c + 99)) 0.4); reflexivity.
Qed.

Lemma drawBranch_fuel_enough fuel1 :
  forall fuel2 len d m c dna sp cfg time k,
    (m - d <= fuel1)%nat -> (m - d <= fuel2)%nat ->
    drawBranch_fuel sin random fuel1 len d m c dna sp cfg time k =
    drawBranch_fuel sin random fuel2 len d m c dna sp cfg time k.
Proof.
  induction fuel1 as [|fuel1 IH]; intros fuel2 l d m c dna sp cfg time k H1 H2;
    rewrite (drawBranch_fuel_eq _ l), (drawBranch_fuel_eq fuel2 l); cbv zeta;
    destruct (Nat.ltb_spec d m); try reflexivity; try lia.
  destruct fuel2 as [|fuel2]; [lia|].
  match goal with
  | |- (mkStroke _ _ _ _ _ _ _ (fst (forLoop ?b1 ?l ?a)), _)
       = (mkStroke _ _ _ _ _ _ _ (fst (forLoop ?b2 _ _)), _) =>
      rewrite (forLoop_ext b1 b2 l)
  end; [reflexivity|].
  intros i k' _. rewrite (IH fuel2) by lia. reflexivity.
Qed.

Lemma strokes_eq (t : Stroke) :
  strokes t = t :: flat_map (fun b => strokes (snd b)) (branches t).
Proof. destruct t; reflexivity. Qed.

(** No stroke lies deeper than [maxDepth]. *)
Lemma drawBranch_fuel_bound fuel :
  forall len d m c dna sp cfg time k,
    (d <= m)%nat ->
    Forall (fun n => (depth n <= m)%nat)
      (strokes (fst (drawBranch_fuel sin random fuel len d m c dna sp cfg time k))).
Proof.
  induction fuel as [|fuel IH]; intros len d m c dna sp cfg time k Hd;
    rewrite strokes_eq; constructor;
    try (rewrite (proj1 (drawBranch_fuel_depth_eq _ _ _ _ _ _ _ _ _ _)); exact Hd);
    rewrite Forall_forall; intros n Hn;
    apply in_flat_map in Hn; destruct Hn as [b [Hb Hn]];
    apply drawBranch_fuel_branches in Hb;
    destruct Hb as (fuel' & i & len' & k' & Hf & Hlt & Hi & Hb); try discriminate.
  injection Hf as <-. rewrite Hb in Hn.
  specialize (IH len' (d + 1)%nat m (c + 100 + i * 50)%nat dna sp cfg time k'
                ltac:(lia)).
  rewrite Forall_forall in IH. auto.
Qed.

End DrawBranchRecursion.

Section DrawBranchViews.

Import Canvas.
Local Open Scope Q_scope.

Lemma own_eq sin random fuel len d m c dna sp cfg time k :
  Canvas.len (fst (drawBranch_fuel sin random fuel len d m c dna sp cfg time k)) = len
  /\ depth (fst (drawBranch_fuel sin random fuel len d m c dna sp cfg time k)) = d
  /\ cursor (fst (drawBranch_fuel sin random fuel len d m c dna sp cfg time k)) = c
  /\ lineWidth (fst (drawBranch_fuel sin random fuel len d m c dna sp cfg time k))
     = Z.max 1 ((Z.of_nat m - Z.of_nat d) * 3).
Proof. destruct fuel; repeat split; reflexivity. Qed.

(** The curve of a call: its control point and its end point. *)
Lemma curve_eq sin random fuel len d m c dna sp cfg time k :
  control (fst (drawBranch_fuel sin random fuel len d m c dna sp cfg time k))
  = ((getDnaFloat dna (c + 1) - 0.5) * 20 * (len / 100)
     + sin (time + inject_Z (Z.of_nat d) * 0.5) * (inject_Z (Z.of_nat d) * 1.5),
     - len / 2)
  /\ tip (fst (drawBranch_fuel sin random fuel len d m c dna sp cfg time k))
     = (0 + sin (time + inject_Z (Z.of_nat d) * 0.5)
            * (inject_Z (Z.of_nat d) * 1.5) * 0.5,
        - len).
Proof. destruct fuel; split; reflexivity. Qed.

Lemma leafAt_eq sin random fuel len d m c dna sp cfg time k :
  leafAt (fst (drawBranch_fuel sin random fuel len d m c dna sp cfg time k)) =
  if (Z.of_nat m - 3 <? Z.of_nat d)%Z || (d =? m)%nat
  then if Js.gt (getDnaFloat dna (c + 99)) 0.4
       then Some (tip (fst (drawBranch_fuel sin random fuel len d m c dna sp cfg
                              time k)))
       else None
  else None.
Proof.
  unfold leafAt. rewrite drawBranch_fuel_leaf_eq.
  destruct ((Z.of_nat m - 3 <? Z.of_nat d)%Z || (d =? m)%nat);
    [|reflexivity].
  destruct (Js.gt (getDnaFloat dna (c + 99)) 0.4); reflexivity.
Qed.

Lemma skeleton_eq (t : Stroke) :
  skeleton t =
  mkSkeleton (len t) (depth t) (cursor t) (lineWidth t)
    (match leafAt t with Some _ => true | None => false end)
    (map (fun b => skeleton (snd b)) (branches t)).
Proof. destruct t; reflexivity. Qed.

Lemma skeleton_call sin random fuel l d m c dna sp cfg time k :
  skeleton (fst (drawBranch_fuel sin random fuel l d m c dna sp cfg time k)) =
  mkSkeleton l d c (Z.max 1 ((Z.of_nat m - Z.of_nat d) * 3))
    (((Z.of_nat m - 3 <? Z.of_nat d)%Z || (d =? m)%nat)
     && Js.gt (getDnaFloat dna (c + 99)) 0.4)
    (map (fun b => skeleton (snd b))
       (branches (fst (drawBranch_fuel sin random fuel l d m c dna sp cfg time k)))).
Proof.
  rewrite skeleton_eq, leafAt_eq.
  destruct (own_eq sin random fuel l d m c dna sp cfg time k) as (A1 & A2 & A3 & A4).
  rewrite A1, A2, A3, A4.
  destruct ((Z.of_nat m - 3 <? Z.of_nat d)%Z || (d =? m)%nat);
    destruct (Js.gt (getDnaFloat dna (c + 99)) 0.4); reflexivity.
Qed.

(** The skeleton of a call depends neither on the sine function and the
    clock nor on the results of [Math.random()]. *)
Lemma skeleton_clock_free fuel :
  forall sin1 sin2 random1 random2 len d m c dna sp cfg time1 time2 k1 k2,
    skeleton (fst (drawBranch_fuel sin1 random1 fuel len d m c dna sp cfg time1 k1))
    = skeleton (fst (drawBranch_fuel sin2 random2 fuel len d m c dna sp cfg time2 k2)).
Proof.
  induction fuel as [|fuel IH];
    intros sin1 sin2 random1 random2 l d m c dna sp cfg time1 time2 k1 k2;
    rewrite !skeleton_call, !drawBranch_fuel_branches_eq; apply f_equal;
    destruct (d <? m)%nat; try reflexivity.
  rewrite (forLoop_map (fun b => skeleton (snd b))
             (fun i => skeleton
                         (fst (drawBranch_fuel sin1 random1 fuel
                                 (l * (0.7 + getDnaFloat dna (c + 20 + i) * 0.1))
                                 (d + 1) m (c + 100 + i * 50) dna sp cfg time1 0))))
    by (intros i k _; cbn [fst snd]; apply IH).
  rewrite (forLoop_map (fun b => skeleton (snd b))
             (fun i => skeleton
                         (fst (drawBranch_fuel sin1 random1 fuel
                                 (l * (0.7 + getDnaFloat dna (c + 20 + i) * 0.1))
                                 (d + 1) m (c + 100 + i * 50) dna sp cfg time1 0))))
    by (intros i k _; cbn [fst snd]; apply IH).
  reflexivity.
Qed.

Lemma outline_eq (t : Stroke) :
  outline t =
  mkOutline (len t) (depth t) (cursor t) (lineWidth t) (control t) (tip t)
    (leafAt t) (map (fun b => (fst b, outline (snd b))) (branches t)).
Proof. destruct t; reflexivity. Qed.

Lemma outline_call sin random fuel l d m c dna sp cfg time k :
  outline (fst (drawBranch_fuel sin random fuel l d m c dna sp cfg time k)) =
  mkOutline l d c (Z.max 1 ((Z.of_nat m - Z.of_nat d) * 3))
    ((getDnaFloat dna (c + 1) - 0.5) * 20 * (l / 100)
     + sin (time + inject_Z (Z.of_nat d) * 0.5) * (inject_Z (Z.of_nat d) * 1.5),
     - l / 2)
    (0 + sin (time + inject_Z (Z.of_nat d) * 0.5)
         * (inject_Z (Z.of_nat d) * 1.5) * 0.5,
     - l)
    (if (Z.of_nat m - 3 <? Z.of_nat d)%Z || (d =? m)%nat
     then if Js.gt (getDnaFloat dna (c + 99)) 0.4
          then Some (0 + sin (time + inject_Z (Z.of_nat d) * 0.5)
                         * (inject_Z (Z.of_nat d) * 1.5) * 0.5,
                     - l)
          else None
     else None)
    (map (fun b => (fst b, outline (snd b)))
       (branches (fst (drawBranch_fuel sin random fuel l d m c dna sp cfg time k)))).
Proof.
  rewrite outline_eq, leafAt_eq.
  destruct (own_eq sin random fuel l d m c dna sp cfg time k) as (A1 & A2 & A3 & A4).
  destruct (curve_eq sin random fuel l d m c dna sp cfg time k) as (K1 & K2).
  rewrite A1, A2, A3, A4, K1, K2. reflexivity.
Qed.

(** At one clock value the outline of a call does not depend on the
    results of [Math.random()]. *)
Lemma outline_random_free sin fuel :
  forall random1 random2 len d m c dna sp cfg time k1 k2,
    outline (fst (drawBranch_fuel sin random1 fuel len d m c dna sp cfg time k1))
    = outline (fst (drawBranch_fuel sin random2 fuel len d m c dna sp cfg time k2)).
Proof.
  induction fuel as [|fuel IH];
    intros random1 random2 l d m c dna sp cfg time k1 k2;
    rewrite !outline_call, !drawBranch_fuel_branches_eq; apply f_equal;
    destruct (d <? m)%nat; try reflexivity.
  rewrite (forLoop_map (fun b => (fst b, outline (snd b)))
             (fun i => (branchAngle sin dna sp d c time i,
                        outline
                          (fst (drawBranch_fuel sin random1 fuel
                                  (l * (0.7 + getDnaFloat dna (c + 20 + i) * 0.1))
                                  (d + 1) m (c + 100 + i * 50) dna sp cfg time 0)))))
    by (intros i k _; cbn [fst snd]; apply f_equal; apply IH).
  rewrite (forLoop_map (fun b => (fst b, outline (snd b)))
             (fun i => (branchAngle sin dna sp d c time i,
                        outline
                          (fst (drawBranch_fuel sin random1 fuel
                                  (l * (0.7 + getDnaFloat dna (c + 20 + i) * 0.1))
                                  (d + 1) m (c + 100 + i * 50) dna sp cfg time 0)))))
    by (intros i k _; cbn [fst snd]; apply f_equal; apply IH).
  reflexivity.
Qed.

End DrawBranchViews.

(** ** Determinism *)

(** C1, as stated, fails for the 2D renderer: two invocations on one record
    do not paint the same drawing. [drawLeaf] takes the sway of each leaf
    and, for a cherry, its fill from [Math.random()], so with other random
    results the leaves of the same tree are painted otherwise, whatever the
    clock is; and the clock bends every stroke, so for a sine function that
    tells 0.5 from 1.5, as [Math.sin] does, the frames at the times 0 and 1
    differ. *)
Lemma generate_deterministic_counterexample :
  (forall sin time,
      map Canvas.leafFill
        (frameGlyphs (Canvas.TreeRender sin (fun _ => 0%Q) blossomTree time))
      <> map Canvas.leafFill
           (frameGlyphs (Canvas.TreeRender sin (fun _ => 0.9%Q) blossomTree time)))
  /\ (forall sin time,
        Canvas.TreeRender sin (fun _ => 0%Q) blossomTree time
        <> Canvas.TreeRender sin (fun _ => 0.9%Q) blossomTree time)
  /\ (forall sin random,
        ~ (sin 0.5 == sin 1.5)%Q ->
        Canvas.TreeRender sin random blossomTree 0
        <> Canvas.TreeRender sin random blossomTree 1).
Proof.
  assert (Hfill : forall sin time,
             map Canvas.leafFill
               (frameGlyphs (Canvas.TreeRender sin (fun _ => 0%Q) blossomTree time))
             <> map Canvas.leafFill
                  (frameGlyphs
                     (Canvas.TreeRender sin (fun _ => 0.9%Q) blossomTree time))).
  { intros sin time. vm_compute. discriminate. }
  split; [exact Hfill|]. split.
  - intros sin time E. apply (Hfill sin time). now rewrite E.
  - intros sin random Hsin E.
    unfold Canvas.TreeRender, Canvas.drawBranch in E. cbn [stage blossomTree] in E.
    pose proof (f_equal (fun f => match f with
                                  | Canvas.BranchFrame t => fst (Canvas.control t)
                                  | Canvas.SeedFrame _ => 0%Q
                                  end) E) as E'.
    cbv beta iota in E'. clear E.
    rewrite !(proj1 (curve_eq _ _ _ _ _ _ _ _ _ _ _ _)) in E'.
    cbn [fst] in E'.
    change (0 + inject_Z (Z.of_nat 1) * 0.5)%Q with 0.5%Q in E'.
    change (1 + inject_Z (Z.of_nat 1) * 0.5)%Q with 1.5%Q in E'.
    change (inject_Z (Z.of_nat 1) * 1.5)%Q with 1.5%Q in E'.
    apply Hsin.
    match type of E' with
    | (?c + ?x * _)%Q = (_ + ?y * _)%Q =>
        assert (Hq : (c + x * 1.5 == c + y * 1.5)%Q) by (rewrite E'; reflexivity);
        clear E'; set (curve := c) in Hq; clearbody curve
    end.
    lra.
Qed.

(** C1, amended. Two records that agree on (species, stage, dnaHistory,
    pruningCount, wiringState) give the same 3D tree, node for node, with
    the same transforms and foliage. Their 2D drawings have the same
    structure in every invocation, whatever the clock and the results of
    [Math.random()] are: the same strokes with the same lengths, depths,
    cursors and widths, and leaves on the same strokes. At one clock value
    the drawings agree in all but the glyphs of the leaves: curves,
    rotations and leaf places are the same whatever [Math.random()]
    returns; and with the same random results they are equal. The two
    records have the same hash stream, and the hash accessors give the same
    float for the same key text. *)
Theorem generate_deterministic (t1 t2 : TreeData) :
  species t1 = species t2 ->
  stage t1 = stage t2 ->
  dna t1 = dna t2 ->
  pruningCount t1 = pruningCount t2 ->
  wiringState t1 = wiringState t2 ->
  Mesh.TreeRender t1 = Mesh.TreeRender t2
  /\ (forall sin1 sin2 random1 random2 time1 time2,
        frameSkeleton (Canvas.TreeRender sin1 random1 t1 time1)
        = frameSkeleton (Canvas.TreeRender sin2 random2 t2 time2))
  /\ (forall sin random1 random2 time,
        frameOutline (Canvas.TreeRender sin random1 t1 time)
        = frameOutline (Canvas.TreeRender sin random2 t2 time))
  /\ (forall sin random time,
        Canvas.TreeRender sin random t1 time = Canvas.TreeRender sin random t2 time)
  /\ (forall depth offset,
        Mesh.getDnaRandom (Mesh.dnaOf t1) depth offset
        = Mesh.getDnaRandom (Mesh.dnaOf t2) depth offset)
  /\ (forall cursor,
        Canvas.getDnaFloat (Canvas.dnaOf t1) cursor
        = Canvas.getDnaFloat (Canvas.dnaOf t2) cursor)
  /\ (forall dna1 d1 o1 dna2 d2 o2,
        Mesh.hashKey dna1 d1 o1 = Mesh.hashKey dna2 d2 o2 ->
        Mesh.getDnaRandom dna1 d1 o1 = Mesh.getDnaRandom dna2 d2 o2)
  /\ (forall dna1 c1 dna2 c2,
        Canvas.hashKey dna1 c1 = Canvas.hashKey dna2 c2 ->
        Canvas.getDnaFloat dna1 c1 = Canvas.getDnaFloat dna2 c2).
Proof.
  intros Hsp Hst Hdna Hp Hw.
  split; [|split; [|split; [|split; [|split; [|split; [|split]]]]]].
  8: intros dna1 c1 dna2 c2 H; unfold Canvas.getDnaFloat; now rewrite H.
  7: intros dna1 d1 o1 dna2 d2 o2 H; unfold Mesh.getDnaRandom; now rewrite H.
  6: intros cursor; unfold Canvas.dnaOf; now rewrite Hsp, Hdna.
  5: intros depth offset; unfold Mesh.dnaOf; now rewrite Hsp, Hdna.
  - unfold Mesh.TreeRender, Mesh.dnaOf. rewrite Hsp, Hst, Hdna, Hp, Hw. reflexivity.
  - intros sin1 sin2 random1 random2 time1 time2.
    unfold Canvas.TreeRender, Canvas.dnaOf. rewrite Hsp, Hst, Hdna.
    destruct (stage t2); [reflexivity| | |];
      unfold frameSkeleton, Canvas.drawBranch; apply f_equal;
      apply skeleton_clock_free.
  - intros sin random1 random2 time.
    unfold Canvas.TreeRender, Canvas.dnaOf. rewrite Hsp, Hst, Hdna.
    destruct (stage t2); [reflexivity| | |];
      unfold frameOutline, Canvas.drawBranch; apply f_equal;
      apply outline_random_free.
  - intros sin random time. unfold Canvas.TreeRender, Canvas.dnaOf.
    rewrite Hsp, Hst, Hdna. reflexivity.
Qed.

Lemma generate_deterministic_witness :
  Mesh.TreeRender oldPine = Mesh.TreeRender sameGenes.
Proof.
  apply (generate_deterministic oldPine sameGenes); reflexivity.
Defined.

(** ** Depth bound *)

(** C2. No branch node is deeper than the complexity of the stage (0 for
    SEED, then 3/5/7 in the 3D renderer and 4/7/9 in the 2D renderer), and a
    record at stage SEED gives no branch node at all: only the seed visual
    is produced. *)
Theorem depth_bound (tree : TreeData) :
  Forall (fun n => (Mesh.depth n <= Mesh.complexity (stage tree))%nat)
    (Mesh.branchNodes (Mesh.TreeRender tree))
  /\ (forall sin random time,
        Forall (fun n => (Canvas.depth n <= Canvas.complexity (stage tree))%nat)
          (Canvas.frameStrokes (Canvas.TreeRender sin random tree time)))
  /\ map Mesh.complexity [SEED; SAPLING; ADULT; MASTER] = [0; 3; 5; 7]%nat
  /\ map Canvas.complexity [SEED; SAPLING; ADULT; MASTER] = [0; 4; 7; 9]%nat
  /\ (stage tree = SEED ->
      Mesh.branchNodes (Mesh.TreeRender tree) = []
      /\ (exists seed, Mesh.TreeRender tree = Mesh.SeedScene seed)
      /\ forall sin random time,
          Canvas.frameStrokes (Canvas.TreeRender sin random tree time) = []
          /\ exists seed, Canvas.TreeRender sin random tree time = Canvas.SeedFrame seed).
Proof.
  split; [|split; [|split; [|split]]]; try reflexivity.
  - unfold Mesh.TreeRender, Mesh.branchNodes.
    destruct (stage tree) eqn:E; [apply Forall_nil| | |];
      match goal with
      | |- context [Mesh.Branch ?a ?b ?c ?e ?f ?g ?h ?i ?j ?k] =>
          destruct (Mesh.Branch a b c e f g h i j k) as [t|] eqn:Ht;
          [apply Branch_fuel_depth in Ht; [exact Ht | apply Nat.le_0_l]
          | apply Forall_nil]
      end.
  - intros sin random time. unfold Canvas.TreeRender, Canvas.frameStrokes.
    destruct (stage tree); [apply Forall_nil| | |];
      apply drawBranch_fuel_bound; cbv [Canvas.complexity]; lia.
  - intros E. unfold Mesh.TreeRender, Canvas.TreeRender. rewrite E.
    split; [reflexivity|]. split; [eexists; reflexivity|].
    intros sin random time. split; [reflexivity|eexists; reflexivity].
Qed.

Lemma depth_bound_witness :
  stage seedling = SEED /\ Mesh.branchNodes (Mesh.TreeRender seedling) = [].
Proof.
  split; [reflexivity|].
  destruct (depth_bound seedling) as (_ & _ & _ & _ & H).
  exact (proj1 (H eq_refl)).
Defined.

(** ** Nodes at depth 0 and 1 *)

Section Shallow.

Import Mesh.
Local Open Scope Q_scope.

Lemma map_upTo_rendered k (cs : list (option BranchNode)) :
  map (upTo k) (rendered cs) = rendered (map (option_map (upTo k)) cs).
Proof.
  induction cs as [|[c|] cs IH]; simpl; auto. now rewrite IH.
Qed.

Lemma pruned_shallow dna d p : (d <= 1)%nat -> pruned dna d p = false.
Proof.
  intros H. unfold pruned. destruct (Nat.ltb_spec 1 d); [lia|reflexivity].
Qed.

Lemma pruned_true dna d p :
  pruned dna d p = true <->
  (1 < d)%nat /\ 0.85 < getDnaRandom dna d (300 + p).
Proof.
  unfold pruned, Js.gt. rewrite andb_true_iff, negb_true_iff, Nat.ltb_lt.
  split; intros [H1 H2]; split; auto.
  - destruct (Qlt_le_dec 0.85 (getDnaRandom dna d (300 + p))) as [H|H]; auto.
    apply Qle_bool_iff in H. congruence.
  - destruct (Qle_bool (getDnaRandom dna d (300 + p)) 0.85) eqn:E; auto.
    apply Qle_bool_iff in E. exfalso. apply (Qlt_irrefl 0.85).
    eapply Qlt_le_trans; eassumption.
Qed.

(** Two runs whose hash streams agree at depths 0 and 1 build the same nodes
    at those depths, whatever the pruning counters are. *)
Lemma upTo_agree k :
  forall fuel pos rot len rad d m sp p1 p2 w dna1 dna2,
    (d + k <= 1)%nat -> (2 <= m)%nat -> (m - d <= fuel)%nat ->
    (forall d' o, (d' <= 1)%nat -> getDnaRandom dna1 d' o = getDnaRandom dna2 d' o) ->
    option_map (upTo k) (Branch_fuel fuel pos rot len rad d m sp p1 w dna1) =
    option_map (upTo k) (Branch_fuel fuel pos rot len rad d m sp p2 w dna2).
Proof.
  induction k as [|k IH]; intros fuel pos rot len rad d m sp p1 p2 w dna1 dna2
    Hd Hm Hfuel Hdna;
    rewrite !Branch_fuel_eq, !pruned_shallow by lia;
    destruct (Nat.leb_spec m d); try lia; simpl; try reflexivity.
  do 2 f_equal. rewrite !map_upTo_rendered. f_equal.
  unfold kids. destruct (Nat.leb_spec m d); try lia.
  destruct fuel as [|fuel]; [lia|].
  assert (d = 0%nat) by lia. subst d. unfold childRotation. simpl.
  rewrite !(Hdna 0%nat) by lia. rewrite !(Hdna 1%nat) by lia.
  rewrite !(IH fuel _ _ _ _ 1%nat m sp p1 p2 w dna1 dna2) by (auto; lia).
  reflexivity.
Qed.

End Shallow.

(** ** Pruning *)

(** C4. [Branch] renders nothing exactly when its depth exceeds 1 and the
    draw at offset 300 + pruningCount exceeds 0.85; hence another pruning
    counter leaves the trunk and its direct children (all their fields) as
    they were. *)
Theorem pruning_locality :
  (forall pos rot len rad d m sp p w dna,
      Mesh.Branch pos rot len rad d m sp p w dna = None <->
      (1 < d)%nat /\ (0.85 < Mesh.getDnaRandom dna d (300 + p))%Q)
  /\ (forall tree n,
        Mesh.sceneUpTo 1 (Mesh.TreeRender (setPruningCount tree n)) =
        Mesh.sceneUpTo 1 (Mesh.TreeRender tree))
  /\ (forall tree,
        Mesh.sceneUpTo 1 (Mesh.TreeRender (setPruningCount tree (pruningCount tree + 1))) =
        Mesh.sceneUpTo 1 (Mesh.TreeRender tree)).
Proof.
  assert (H : forall tree n,
             Mesh.sceneUpTo 1 (Mesh.TreeRender (setPruningCount tree n)) =
             Mesh.sceneUpTo 1 (Mesh.TreeRender tree)).
  { intros tree n. unfold Mesh.TreeRender, Mesh.dnaOf, setPruningCount.
    cbn [stage species dna pruningCount wiringState].
    destruct (stage tree); [reflexivity| | |];
      unfold Mesh.sceneUpTo, Mesh.Branch; apply f_equal;
      apply upTo_agree; cbv [Mesh.complexity]; try lia; reflexivity. }
  split; [|split]; auto.
  intros pos rot len rad d m sp p w dna.
  rewrite Branch_unfold, <- pruned_true.
  destruct (Mesh.pruned dna d p); split; auto; discriminate.
Qed.

(** ** Segment selection *)

Section Segments.

Local Open Scope nat_scope.

Lemma index_nth (dna : list string) (i : nat) (fallback : string) :
  i < List.length dna ->
  Js.index dna (Z.of_nat i) = Some (nth i dna fallback).
Proof.
  intros H. unfold Js.index.
  destruct (Z.ltb_spec (Z.of_nat i) 0); [lia|].
  rewrite Nat2Z.id. now apply nth_error_nth'.
Qed.

Lemma truthy_nonempty (s : string) : s <> ""%string -> Js.truthy (Some s) = true.
Proof.
  intros H. unfold Js.truthy.
  destruct (String.eqb_spec s ""); [congruence | reflexivity].
Qed.

Lemma mesh_segment_nth (dna : list string) (d : nat) :
  dna <> [] -> Forall (fun s => s <> ""%string) dna ->
  Mesh.segmentFor dna d =
  nth (Nat.min (d / 2) (List.length dna - 1)) dna "DEFAULT"%string.
Proof.
  intros Hne Hall. unfold Mesh.segmentFor.
  assert (Hlen : 0 < List.length dna) by (destruct dna; simpl; [congruence|lia]).
  replace (Z.min (Z.of_nat (d / 2)) (Z.of_nat (List.length dna) - 1))
    with (Z.of_nat (Nat.min (d / 2) (List.length dna - 1))) by lia.
  rewrite (index_nth dna _ "DEFAULT"%string) by lia.
  unfold Js.orElse at 2. rewrite truthy_nonempty.
  - unfold Js.orElse. rewrite truthy_nonempty; [reflexivity|].
    rewrite Forall_forall in Hall. apply Hall, nth_In. lia.
  - rewrite Forall_forall in Hall. apply Hall, nth_In. lia.
Qed.

Lemma canvas_segment_nth (dna : list string) (c : nat) :
  dna <> [] -> Forall (fun s => s <> ""%string) dna ->
  Canvas.segmentFor dna c = nth ((c / 10) mod List.length dna) dna "SEED"%string.
Proof.
  intros Hne Hall. unfold Canvas.segmentFor.
  assert (Hlen : 0 < List.length dna) by (destruct dna; simpl; [congruence|lia]).
  destruct (Nat.eqb_spec (List.length dna) 0); [lia|].
  assert (Hi : (c / 10) mod List.length dna < List.length dna)
    by (apply Nat.mod_upper_bound; lia).
  rewrite (index_nth dna _ "SEED"%string) by exact Hi.
  rewrite truthy_nonempty; [reflexivity|].
  rewrite Forall_forall in Hall. apply Hall, nth_In. exact Hi.
Qed.

Lemma segment_X (d : nat) : Mesh.segmentFor ["X"%string] d = "X"%string.
Proof.
  rewrite mesh_segment_nth.
  - simpl. now rewrite Nat.min_0_r.
  - discriminate.
  - repeat constructor; discriminate.
Qed.

Lemma segment_XY (d : nat) :
  Mesh.segmentFor ["X"%string; "Y"%string] d =
  if d <? 2 then "X"%string else "Y"%string.
Proof.
  rewrite mesh_segment_nth.
  - simpl List.length. destruct (Nat.ltb_spec d 2).
    + rewrite Nat.div_small by lia. reflexivity.
    + assert (1 <= d / 2) by (apply Nat.div_le_lower_bound; lia).
      replace (Nat.min (d / 2) (2 - 1)) with 1 by lia. reflexivity.
  - discriminate.
  - repeat constructor; discriminate.
Qed.

End Segments.

(** C3. At the history ["X","Y"] and depth 4, which an ADULT tree reaches,
    the 3D accessor selects "Y": the index floor(4 / 2) = 2 is clamped to the
    last segment. The comment above the accessor ("Default to the first
    segment (seed) if we are deeper than current history") and the rule of
    the claim, index 2 mod 2 = 0, both name "X", and the 2D accessor does
    reduce its index modulo the length. So the draw for the length at depth
    4 hashes "Y4100" instead of "X4100" and has another value, and from
    depth 2 on the accessor never comes back to the first segment. *)
Theorem segment_clamped_past_history :
  Mesh.segmentFor ["X"; "Y"]%string 4 = "Y"%string
  /\ nth ((4 / 2) mod 2) ["X"; "Y"]%string ""%string = "X"%string
  /\ Canvas.segmentFor ["X"; "Y"]%string 20 = "X"%string
  /\ Mesh.hashKey ["X"; "Y"]%string 4 100 = "Y4100"%string
  /\ Mesh.getDnaRandom ["X"; "Y"]%string 4 100
     <> Hash.unitFloat (Hash.cyrb53 "X4100")
  /\ (forall d, (2 <= d)%nat -> Mesh.segmentFor ["X"; "Y"]%string d = "Y"%string).
Proof.
  split; [reflexivity|]. split; [reflexivity|]. split; [reflexivity|].
  split; [reflexivity|]. split; [vm_compute; discriminate|].
  intros d Hd. rewrite segment_XY.
  destruct (Nat.ltb_spec d 2); [lia|reflexivity].
Qed.

(** What the two accessors select. For a history of non-empty segments the
    3D accessor selects the segment at index min(floor(depth / 2), len - 1)
    and the 2D accessor the segment at index floor(cursor / 10) mod len, so
    the fallback to the first segment is out of reach. Hence the histories
    ["X"] and ["X","Y"] select the same segment at depths 0 and 1, where the
    two trees have the same nodes, and different segments, so different hash
    keys, at every depth from 2 on; at stage ADULT with pruning counter 0 the
    trees differ at depth 2. *)
Lemma accessor_selection (history : list string) :
  history <> [] -> Forall (fun s => s <> ""%string) history ->
  (forall d, Mesh.segmentFor history d =
             nth (Nat.min (d / 2) (List.length history - 1)) history
               "DEFAULT"%string)
  /\ (forall c, Canvas.segmentFor history c =
                nth ((c / 10) mod List.length history) history "SEED"%string)
  /\ (forall d, Mesh.segmentFor ["X"%string] d = "X"%string
                /\ Mesh.segmentFor ["X"; "Y"]%string d =
                   if (d <? 2)%nat then "X"%string else "Y"%string)
  /\ (forall tree,
        Mesh.sceneUpTo 1 (Mesh.TreeRender (setDna tree ["X"%string])) =
        Mesh.sceneUpTo 1 (Mesh.TreeRender (setDna tree ["X"; "Y"]%string)))
  /\ (forall d o1 o2, (2 <= d)%nat ->
        Mesh.hashKey ["X"%string] d o1 <> Mesh.hashKey ["X"; "Y"]%string d o2)
  /\ (forall sp,
        Mesh.sceneUpTo 2 (Mesh.TreeRender (adultOf sp 0 ["X"%string])) <>
        Mesh.sceneUpTo 2 (Mesh.TreeRender (adultOf sp 0 ["X"; "Y"]%string))).
Proof.
  intros Hne Hall.
  split; [|split; [|split; [|split; [|split]]]].
  - intros d. now apply mesh_segment_nth.
  - intros c. now apply canvas_segment_nth.
  - intros d. split; [apply segment_X | apply segment_XY].
  - intros tree. unfold Mesh.TreeRender, Mesh.dnaOf, setDna.
    cbn [stage species dna pruningCount wiringState].
    destruct (stage tree); [reflexivity| | |];
      unfold Mesh.sceneUpTo, Mesh.Branch; apply f_equal;
      apply upTo_agree; cbv [Mesh.complexity]; try lia;
      intros d' o Hd'; unfold Mesh.getDnaRandom, Mesh.hashKey;
      rewrite segment_X, segment_XY;
      destruct (Nat.ltb_spec d' 2); try lia; reflexivity.
  - intros d o1 o2 Hd. unfold Mesh.hashKey. rewrite segment_X, segment_XY.
    destruct (Nat.ltb_spec d 2); [lia|]. simpl. discriminate.
  - intros sp; destruct sp; vm_compute; discriminate.
Qed.

(** ** Decay of length and radius *)

Section Decay.

Import Mesh.
Local Open Scope Q_scope.

Lemma Branch_fuel_fields fuel pos rot len rad d m sp p w dna t :
  Branch_fuel fuel pos rot len rad d m sp p w dna = Some t ->
  position t = pos /\ rotation t = rot /\ length t = len /\ radius t = rad
  /\ depth t = d /\ topRadius t = rad * 0.7
  /\ children t = rendered (kids fuel len rad d m sp p w dna).
Proof.
  rewrite Branch_fuel_eq. destruct (pruned dna d p); [discriminate|].
  intros H. injection H as <-. repeat split; reflexivity.
Qed.

Lemma lengthFactor_range dna d :
  0.75 <= lengthFactor dna d /\ lengthFactor dna d < 0.85.
Proof.
  unfold lengthFactor.
  destruct (getDnaRandom_range dna d 100) as [H0 H1]. split; lra.
Qed.

(** Every node hands to each child its own tip as position, the rotation
    of the child's index, its length times the factor of its level and its
    radius times 0.7. *)
Lemma Branch_fuel_children fuel :
  forall pos rot len rad d m sp p w dna t,
    Branch_fuel fuel pos rot len rad d m sp p w dna = Some t ->
    Forall (fun n =>
              forall c, In c (children n) ->
                exists i, (i < 2)%nat
                /\ position c = (0, length n, 0)
                /\ rotation c = childRotation dna (depth n) w i
                /\ length c = length n * lengthFactor dna (depth n)
                /\ radius c = radius n * 0.7
                /\ depth c = (depth n + 1)%nat)
      (nodes t).
Proof.
  induction fuel as [|fuel IH]; intros pos rot len rad d m sp p w dna t Ht;
    destruct (Branch_fuel_fields _ _ _ _ _ _ _ _ _ _ _ _ Ht)
      as (_ & _ & El & Er & Ed & _ & Ec);
    rewrite nodes_eq; constructor;
    try (rewrite El, Er, Ec, Ed;
         intros c Hc; apply rendered_In in Hc; unfold kids in Hc;
         destruct (Nat.leb_spec m d); [contradiction|]);
    try contradiction;
    try (rewrite Ec, Forall_forall; intros n Hn; apply kids_nodes in Hn;
         destruct Hn as (fuel' & i & t' & Hf & Hlt & Hi & Ht' & Hn));
    try discriminate.
  - apply in_map_iff in Hc. destruct Hc as [i [Hc Hi]].
    apply Branch_fuel_fields in Hc.
    destruct Hc as (Ep' & Erot' & El' & Er' & Ed' & _).
    exists i. repeat split; auto. simpl in Hi. lia.
  - injection Hf as <-.
    apply IH in Ht'. rewrite Forall_forall in Ht'. now apply Ht'.
Qed.

(** A tree grown from a positive length and radius has only nodes of
    positive length and radius. *)
Lemma Branch_fuel_positive fuel :
  forall pos rot len rad d m sp p w dna t,
    Branch_fuel fuel pos rot len rad d m sp p w dna = Some t ->
    0 < len -> 0 < rad ->
    Forall (fun n => 0 < length n /\ 0 < radius n) (nodes t).
Proof.
  induction fuel as [|fuel IH]; intros pos rot len rad d m sp p w dna t Ht Hl Hr;
    destruct (Branch_fuel_fields _ _ _ _ _ _ _ _ _ _ _ _ Ht)
      as (_ & _ & El & Er & Ed & _ & Ec);
    rewrite nodes_eq; constructor;
    try (rewrite El, Er; split; assumption);
    rewrite Ec, Forall_forall; intros n Hn; apply kids_nodes in Hn;
    destruct Hn as (fuel' & i & t' & Hf & Hlt & Hi & Ht' & Hn);
    try discriminate.
  injection Hf as <-.
  apply IH in Ht'.
  - rewrite Forall_forall in Ht'. now apply Ht'.
  - destruct (lengthFactor_range dna d). fold (lengthFactor dna d). nra.
  - lra.
Qed.

End Decay.

(** In exact arithmetic every child of a tree grown from a positive length
    and radius is strictly shorter and strictly thinner than its parent. *)
Lemma Branch_decay pos rot len rad d m sp p w dna t n c :
  (0 < len)%Q -> (0 < rad)%Q ->
  Mesh.Branch pos rot len rad d m sp p w dna = Some t ->
  In n (Mesh.nodes t) -> In c (Mesh.children n) ->
  Mesh.length c
    = (Mesh.length n * (0.75 + Mesh.getDnaRandom dna (Mesh.depth n) 100 * 0.1))%Q
  /\ Mesh.radius c = (Mesh.radius n * 0.7)%Q
  /\ (0.75 <= 0.75 + Mesh.getDnaRandom dna (Mesh.depth n) 100 * 0.1)%Q
  /\ (0.75 + Mesh.getDnaRandom dna (Mesh.depth n) 100 * 0.1 < 0.85)%Q
  /\ (Mesh.length c < Mesh.length n)%Q
  /\ (Mesh.radius c < Mesh.radius n)%Q.
Proof.
  intros Hl Hr Ht Hn Hc.
  pose proof (Branch_fuel_positive _ _ _ _ _ _ _ _ _ _ _ _ Ht Hl Hr) as H.
  rewrite Forall_forall in H. destruct (H n Hn) as (Pl & Pr).
  pose proof (Branch_fuel_children _ _ _ _ _ _ _ _ _ _ _ _ Ht) as Hkids.
  rewrite Forall_forall in Hkids.
  destruct (Hkids n Hn c Hc) as (i & _ & _ & _ & El & Er & _).
  destruct (lengthFactor_range dna (Mesh.depth n)) as [F0 F1].
  unfold Mesh.lengthFactor in *.
  repeat split; auto.
  - rewrite El. nra.
  - rewrite Er. lra.
Qed.

Lemma factor_table :
  forallb (fun k => Double.factorInRange (Z.of_nat k)) (seq 0 1000) = true.
Proof. vm_compute. reflexivity. Qed.

(** On doubles too the length factor lies in [0.75, 0.85), for every hash
    value. *)
Lemma factor_binary64 (val : Z) : Double.factorInRange val = true.
Proof.
  pose proof (Z.mod_pos_bound val 1000 ltac:(lia)) as Hk.
  pose proof factor_table as T. rewrite forallb_forall in T.
  specialize (T (Z.to_nat (val mod 1000))).
  rewrite in_seq, Z2Nat.id in T by lia. specialize (T ltac:(lia)).
  unfold Double.factorInRange, Double.unitFloat in *.
  now rewrite Z.mod_mod in T by lia.
Qed.

(** C5, as stated, fails on doubles: the products [radius * 0.7] and
    [length * (0.75 + rnd * 0.1)] round, so at the smallest positive double
    the child is as thick and as long as its parent, and likewise at
    Infinity. *)
Lemma decay_monotone_counterexample :
  PrimFloat.ltb PrimFloat.zero Double.MIN_VALUE = true
  /\ Double.nextRadius Double.MIN_VALUE = Double.MIN_VALUE
  /\ PrimFloat.ltb (Double.nextRadius Double.MIN_VALUE) Double.MIN_VALUE = false
  /\ Double.nextLength Double.MIN_VALUE (Double.unitFloat 500) = Double.MIN_VALUE
  /\ PrimFloat.ltb (Double.nextLength Double.MIN_VALUE (Double.unitFloat 500))
       Double.MIN_VALUE = false
  /\ PrimFloat.ltb (Double.nextRadius PrimFloat.infinity) PrimFloat.infinity
     = false.
Proof. repeat split; vm_compute; reflexivity. Qed.

(** C5, amended. In every tree that [TreeRender] builds, from the trunk of
    length 1.5 and radius 0.3, each child branch has the length of its
    parent times 0.75 + 0.1 * floatAt(dna, depth, 100), a factor in
    [0.75, 0.85), and the radius of its parent times 0.7, so with the
    products taken exactly every child is strictly shorter and strictly
    thinner than its parent. On doubles the factor lies in [0.75, 0.85) as
    well, for every hash value, and the radii of the eight levels a tree can
    have are strictly decreasing. *)
Theorem decay_monotone (tree : TreeData) (n c : Mesh.BranchNode) :
  In n (Mesh.branchNodes (Mesh.TreeRender tree)) ->
  In c (Mesh.children n) ->
  Mesh.length c
    = (Mesh.length n
       * (0.75 + Mesh.getDnaRandom (Mesh.dnaOf tree) (Mesh.depth n) 100 * 0.1))%Q
  /\ Mesh.radius c = (Mesh.radius n * 0.7)%Q
  /\ (0.75 <= 0.75 + Mesh.getDnaRandom (Mesh.dnaOf tree) (Mesh.depth n) 100 * 0.1)%Q
  /\ (0.75 + Mesh.getDnaRandom (Mesh.dnaOf tree) (Mesh.depth n) 100 * 0.1 < 0.85)%Q
  /\ (Mesh.length c < Mesh.length n)%Q
  /\ (Mesh.radius c < Mesh.radius n)%Q
  /\ (forall val, Double.factorInRange val = true)
  /\ (forall k, (k < 7)%nat ->
        PrimFloat.ltb (Double.radiusAt (S k)) (Double.radiusAt k) = true).
Proof.
  intros Hn Hc.
  assert (Hq : forall root,
             Mesh.Branch (0, 0, 0)%Q (0, 0, 0)%Q 1.5 0.3 0
               (Mesh.complexity (stage tree)) (species tree) (pruningCount tree)
               (wiringState tree) (Mesh.dnaOf tree) = Some root ->
             In n (Mesh.nodes root) ->
             Mesh.length c
             = (Mesh.length n
                * (0.75 + Mesh.getDnaRandom (Mesh.dnaOf tree) (Mesh.depth n) 100
                          * 0.1))%Q
             /\ Mesh.radius c = (Mesh.radius n * 0.7)%Q
             /\ (0.75 <= 0.75 + Mesh.getDnaRandom (Mesh.dnaOf tree)
                                  (Mesh.depth n) 100 * 0.1)%Q
             /\ (0.75 + Mesh.getDnaRandom (Mesh.dnaOf tree) (Mesh.depth n) 100
                         * 0.1 < 0.85)%Q
             /\ (Mesh.length c < Mesh.length n)%Q
             /\ (Mesh.radius c < Mesh.radius n)%Q).
  { intros root Hroot Hin.
    refine (Branch_decay _ _ _ _ _ _ _ _ _ _ _ _ _ _ _ Hroot Hin Hc);
      reflexivity. }
  assert (Hd : forall k, (k < 7)%nat ->
                 PrimFloat.ltb (Double.radiusAt (S k)) (Double.radiusAt k) = true).
  { intros k Hk.
    do 7 (destruct k as [|k]; [vm_compute; reflexivity|]). lia. }
  unfold Mesh.TreeRender, Mesh.branchNodes in Hn.
  destruct (stage tree); [contradiction| | |];
    match type of Hn with
    | context [Mesh.Branch ?x1 ?x2 ?x3 ?x4 ?x5 ?x6 ?x7 ?x8 ?x9 ?x10] =>
        destruct (Mesh.Branch x1 x2 x3 x4 x5 x6 x7 x8 x9 x10) as [root|] eqn:Hroot;
        [|contradiction]
    end;
    destruct (Hq root eq_refl Hn) as (H1 & H2 & H3 & H4 & H5 & H6);
    (split; [exact H1|]); (split; [exact H2|]); (split; [exact H3|]);
    (split; [exact H4|]); (split; [exact H5|]); (split; [exact H6|]);
    (split; [exact factor_binary64|exact Hd]).
Qed.

Lemma decay_monotone_witness :
  (Mesh.length (hd wiredRoot (Mesh.children wiredRoot)) < Mesh.length wiredRoot)%Q
  /\ (Mesh.radius (hd wiredRoot (Mesh.children wiredRoot)) < Mesh.radius wiredRoot)%Q.
Proof.
  refine (let H := decay_monotone wiredOak wiredRoot
                     (hd wiredRoot (Mesh.children wiredRoot)) _ _ in
          conj (proj1 (proj2 (proj2 (proj2 (proj2 H)))))
               (proj1 (proj2 (proj2 (proj2 (proj2 (proj2 H))))))).
  - vm_compute. left. reflexivity.
  - left. reflexivity.
Defined.

(** ** Wiring *)

Section Wiring.

Import Mesh.
Local Open Scope Q_scope.

Lemma map_unbent_rendered (cs : list (option BranchNode)) :
  map unbent (rendered cs) = rendered (map (option_map unbent) cs).
Proof.
  induction cs as [|[c|] cs IH]; simpl; auto. now rewrite IH.
Qed.

(** Apart from the z-rotations the tree does not depend on the wiring. *)
Lemma unbent_agree fuel :
  forall pos rot1 rot2 len rad d m sp p w1 w2 dna,
    fst rot1 = fst rot2 ->
    option_map unbent (Branch_fuel fuel pos rot1 len rad d m sp p w1 dna) =
    option_map unbent (Branch_fuel fuel pos rot2 len rad d m sp p w2 dna).
Proof.
  induction fuel as [|fuel IH]; intros pos rot1 rot2 len rad d m sp p w1 w2 dna Hrot;
    rewrite !Branch_fuel_eq; destruct (pruned dna d p); try reflexivity;
    cbn [option_map unbent position rotation length radius depth topRadius bark
         foliage children];
    rewrite Hrot; do 2 apply f_equal;
    rewrite !map_unbent_rendered; apply f_equal;
    unfold kids; destruct (Nat.leb_spec m d); try reflexivity.
  cbn [map].
  rewrite (IH _ (childRotation dna d w1 0) (childRotation dna d w2 0)
             _ _ _ _ _ _ w1 w2) by reflexivity.
  rewrite (IH _ (childRotation dna d w1 1) (childRotation dna d w2 1)
             _ _ _ _ _ _ w1 w2) by reflexivity.
  reflexivity.
Qed.

End Wiring.

(** C7. The wiring state enters a tree only as the term wiringState * 0.2 of
    the z-rotation that every node gives to each of its children; with the
    z-rotations erased, the tree (node count, pruning outcomes, positions,
    lengths, radii, foliage) is the same for every wiring state. *)
Theorem wiring_shear (tree : TreeData) :
  (forall w,
      Mesh.sceneUnbent (Mesh.TreeRender (setWiringState tree w)) =
      Mesh.sceneUnbent (Mesh.TreeRender tree))
  /\ (forall n c,
        In n (Mesh.branchNodes (Mesh.TreeRender tree)) ->
        In c (Mesh.children n) ->
        exists i, (i < 2)%nat /\
          Mesh.rotation c =
          (Mesh.getDnaRandom (Mesh.dnaOf tree) (Mesh.depth n + 1) (i * 50) * 0.6,
           0,
           (if (i =? 0)%nat then 0.6 else - 0.6)
           + (Mesh.getDnaRandom (Mesh.dnaOf tree) (Mesh.depth n) 200 * 0.6 - 0.3)
           + inject_Z (wiringState tree) * 0.2)%Q).
Proof.
  split.
  - intros w. unfold Mesh.TreeRender, Mesh.dnaOf, setWiringState.
    cbn [stage species dna pruningCount wiringState].
    destruct (stage tree); [reflexivity| | |];
      unfold Mesh.sceneUnbent, Mesh.Branch; apply f_equal;
      apply unbent_agree; reflexivity.
  - intros n c Hn Hc. unfold Mesh.TreeRender, Mesh.branchNodes in Hn.
    destruct (stage tree); [contradiction| | |];
      match type of Hn with
      | context [Mesh.Branch ?x1 ?x2 ?x3 ?x4 ?x5 ?x6 ?x7 ?x8 ?x9 ?x10] =>
          destruct (Mesh.Branch x1 x2 x3 x4 x5 x6 x7 x8 x9 x10) as [t|] eqn:Ht;
          [|contradiction];
          apply Branch_fuel_children in Ht; rewrite Forall_forall in Ht;
          destruct (Ht n Hn c Hc) as (k & Hk & _ & Hrot & _);
          exists k; split; [exact Hk | exact Hrot]
      end.
Qed.

Lemma wiring_shear_witness :
  exists i, (i < 2)%nat /\
    Mesh.rotation (hd wiredRoot (Mesh.children wiredRoot)) =
    (Mesh.getDnaRandom ["X"%string] 1 (i * 50) * 0.6, 0,
     (if (i =? 0)%nat then 0.6 else - 0.6)
     + (Mesh.getDnaRandom ["X"%string] 0 200 * 0.6 - 0.3)
     + inject_Z 2 * 0.2)%Q.
Proof.
  apply (proj2 (wiring_shear wiredOak) wiredRoot
           (hd wiredRoot (Mesh.children wiredRoot))).
  - vm_compute. left. reflexivity.
  - left. reflexivity.
Defined.

(** ** Empty history *)

Lemma mesh_segment_empty (d : nat) : Mesh.segmentFor [] d = "DEFAULT"%string.
Proof.
  unfold Mesh.segmentFor. cbn [List.length].
  replace (Z.min (Z.of_nat (d / 2)) (Z.of_nat 0 - 1)) with (-1)%Z by lia.
  reflexivity.
Qed.

Lemma canvas_segment_empty (c : nat) : Canvas.segmentFor [] c = "SEED"%string.
Proof.
  unfold Canvas.segmentFor. cbn [List.length Nat.eqb].
  rewrite Nat.mod_1_r. reflexivity.
Qed.

(** C9. With an empty history the 3D accessor hashes the token DEFAULT and
    the 2D accessor the token SEED; both accessors return a number in [0, 1)
    for every history, depth (cursor) and offset, and a record past the seed
    stage whose history is empty still renders its trunk. *)
Theorem empty_history_total :
  (forall d o,
      Mesh.getDnaRandom [] d o
      = Hash.unitFloat (Hash.cyrb53 ("DEFAULT" ++ Js.str d ++ Js.str o))
      /\ (0 <= Mesh.getDnaRandom [] d o)%Q /\ (Mesh.getDnaRandom [] d o < 1)%Q)
  /\ (forall c,
        Canvas.getDnaFloat [] c
        = Hash.unitFloat (Hash.cyrb53 ("SEED" ++ "-" ++ Js.str c))
        /\ (0 <= Canvas.getDnaFloat [] c)%Q /\ (Canvas.getDnaFloat [] c < 1)%Q)
  /\ (forall history d o,
        (0 <= Mesh.getDnaRandom history d o)%Q
        /\ (Mesh.getDnaRandom history d o < 1)%Q)
  /\ (forall history c,
        (0 <= Canvas.getDnaFloat history c)%Q
        /\ (Canvas.getDnaFloat history c < 1)%Q)
  /\ (forall tree,
        dna tree = Some [] -> stage tree <> SEED ->
        (exists root,
            Mesh.TreeRender tree = Mesh.BranchScene (Some root)
            /\ Mesh.depth root = 0%nat)
        /\ forall sin random time, exists trunk,
            Canvas.TreeRender sin random tree time = Canvas.BranchFrame trunk
            /\ Canvas.depth trunk = 1%nat).
Proof.
  split; [|split; [|split; [|split]]].
  - intros d o. split; [|apply getDnaRandom_range].
    unfold Mesh.getDnaRandom, Mesh.hashKey. now rewrite mesh_segment_empty.
  - intros c. split; [|apply getDnaFloat_range].
    unfold Canvas.getDnaFloat, Canvas.hashKey. now rewrite canvas_segment_empty.
  - intros; apply getDnaRandom_range.
  - intros; apply getDnaFloat_range.
  - intros tree Hdna Hstage. split.
    + unfold Mesh.TreeRender.
      destruct (stage tree); [congruence| | |];
        rewrite Branch_unfold, pruned_shallow by lia;
        eexists; split; reflexivity.
    + intros sin random time. unfold Canvas.TreeRender.
      destruct (stage tree); [congruence| | |];
        eexists; (split; [reflexivity|]);
        apply (proj1 (drawBranch_fuel_depth_eq _ _ _ _ _ _ _ _ _ _ _ _)).
Qed.

Lemma empty_history_total_witness :
  exists root,
    Mesh.TreeRender bareSapling = Mesh.BranchScene (Some root)
    /\ Mesh.depth root = 0%nat.
Proof.
  destruct empty_history_total as (_ & _ & _ & _ & H).
  apply (proj1 (H bareSapling eq_refl ltac:(discriminate))).
Defined.

(** ** Hash keys *)

Section Keys.

Local Open Scope string_scope.
Local Open Scope nat_scope.

Lemma str_inj (a b : nat) : Js.str a = Js.str b -> a = b.
Proof.
  unfold Js.str. intros H.
  apply (f_equal DecimalString.NilEmpty.uint_of_string) in H.
  rewrite !DecimalString.NilEmpty.usu in H. injection H as H.
  apply (f_equal Nat.of_uint) in H.
  now rewrite !DecimalNat.Unsigned.of_to in H.
Qed.

Lemma str_digit (d : nat) :
  d < 10 -> Js.str d = String (ascii_of_nat (48 + d)) "".
Proof.
  intros H. do 10 (destruct d as [|d]; [reflexivity|]). lia.
Qed.

Lemma append_cancel (s a b : string) : s ++ a = s ++ b -> a = b.
Proof.
  induction s as [|c s IH]; simpl; intros H; auto.
  injection H as H. auto.
Qed.

(** Two texts with a common extension: one starts with the other. *)
Lemma append_eq_prefix (s1 : string) :
  forall s2 t1 t2, s1 ++ t1 = s2 ++ t2 ->
    (exists u, s2 = s1 ++ u) \/ (exists u, s1 = s2 ++ u).
Proof.
  induction s1 as [|c s1 IH]; intros s2 t1 t2 H.
  - left. now exists s2.
  - destruct s2 as [|c' s2].
    + right. now exists (String c s1).
    + simpl in H. injection H as -> H.
      destruct (IH _ _ _ H) as [[u ->]|[u ->]]; [left|right]; now exists u.
Qed.

(** The 3D keys of one depth are told apart by their offsets. *)
Lemma mesh_key_offset dna d o1 o2 :
  Mesh.hashKey dna d o1 = Mesh.hashKey dna d o2 -> o1 = o2.
Proof.
  unfold Mesh.hashKey. intros H.
  apply append_cancel, append_cancel in H. now apply str_inj.
Qed.

(** The 3D keys of two depths below 10 differ when the history is
    prefix-free. *)
Lemma mesh_key_depth dna d1 d2 o1 o2 :
  Mesh.prefixFree dna -> d1 < 10 -> d2 < 10 -> d1 <> d2 ->
  Mesh.hashKey dna d1 o1 <> Mesh.hashKey dna d2 o2.
Proof.
  intros Hpf H1 H2 Hne H. unfold Mesh.hashKey in H.
  assert (E : Mesh.segmentFor dna d1 = Mesh.segmentFor dna d2).
  { destruct (append_eq_prefix _ _ _ _ H) as [[u Hu]|[u Hu]].
    - exact (Hpf _ _ _ Hu).
    - symmetry. exact (Hpf _ _ _ Hu). }
  rewrite E in H. apply append_cancel in H.
  rewrite (str_digit d1), (str_digit d2) in H by assumption.
  simpl in H. injection H as H _.
  apply (f_equal nat_of_ascii) in H.
  rewrite !nat_ascii_embedding in H by lia. lia.
Qed.

Lemma dashFree_uint (d : Decimal.uint) :
  Js.dashFree (DecimalString.NilEmpty.string_of_uint d) = true.
Proof. induction d; simpl; auto. Qed.

Lemma dashFree_app (a b : string) : Js.dashFree (a ++ String "-" b) = false.
Proof.
  induction a as [|c a IH]; simpl; auto. rewrite IH. apply andb_false_r.
Qed.

(** The dash-free tail of a text after its last [-] is determined. *)
Lemma dash_tail (x : string) :
  forall y a b,
    Js.dashFree a = true -> Js.dashFree b = true ->
    x ++ "-" ++ a = y ++ "-" ++ b -> a = b.
Proof.
  induction x as [|c x IH]; intros [|c' y] a b Ha Hb H; simpl in H.
  - now injection H.
  - injection H as <- H. subst a. now rewrite dashFree_app in Ha.
  - injection H as -> H. subst b. now rewrite dashFree_app in Hb.
  - injection H as _ H. eauto.
Qed.

(** The 2D keys of two cursors differ, whatever the history is. *)
Lemma canvas_key_cursor dna c1 c2 :
  Canvas.hashKey dna c1 = Canvas.hashKey dna c2 -> c1 = c2.
Proof.
  unfold Canvas.hashKey. intros H.
  apply dash_tail in H; try apply dashFree_uint. now apply str_inj.
Qed.

End Keys.

(** C8, as stated, fails: at pruning counter 699 the pruning test of a
    terminal branch reads the key of the leaf colour; and a history in which
    one segment extends another can make the pruning test of a branch read
    the key of a child rotation. *)
Lemma offset_separation_counterexample :
  (exists n,
      In n (Mesh.branchNodes (Mesh.TreeRender pruned699))
      /\ Mesh.depth n = Mesh.complexity (stage pruned699)
      /\ ~ NoDup (Mesh.drawKeys (Mesh.dnaOf pruned699) (Mesh.depth n)
                    (Mesh.complexity (stage pruned699)) (pruningCount pruned699)))
  /\ Mesh.hashKey ["A"; "B"; "B3"]%string 3 (300 + 150)
     = Mesh.hashKey ["A"; "B"; "B3"]%string (3 + 1) (1 * 50).
Proof.
  split; [|vm_compute; reflexivity].
  eexists. split; [|split].
  - vm_compute. do 3 right. left. reflexivity.
  - reflexivity.
  - vm_compute. intros H.
    inversion H as [|? ? _ H1]; subst.
    inversion H1 as [|? ? _ H2]; subst.
    inversion H2 as [|? ? Hin _]; subst.
    apply Hin. left. reflexivity.
Qed.

(** C8, amended. When the pruning counter is not 699 and no selected segment
    is a proper prefix of another one, the decisions of a branch (length
    decay, angle, pruning test, the two child rotations, leaf colour) read
    pairwise different hash keys, at every depth up to a maximal depth
    below 10. *)
Theorem offset_separation (history : list string) (d m p : nat) :
  Mesh.prefixFree history -> (m < 10)%nat -> (d <= m)%nat -> p <> 699%nat ->
  NoDup (Mesh.drawKeys history d m p).
Proof.
  intros Hpf Hm Hd Hp. unfold Mesh.drawKeys, Mesh.draws.
  destruct (Nat.ltb_spec 1 d); destruct (Nat.leb_spec m d);
    cbn [map app seq fst snd];
    repeat (constructor;
            [ cbn [In]; intros Hin;
              repeat match goal with
                     | H : _ \/ _ |- _ => destruct H as [H|H]
                     | H : False |- _ => contradiction
                     end;
              match goal with
              | H : Mesh.hashKey _ ?a _ = Mesh.hashKey _ ?b _ |- _ =>
                  destruct (Nat.eq_dec a b) as [E|E];
                  [ first [ lia
                          | try rewrite E in H; apply mesh_key_offset in H; lia ]
                  | refine (mesh_key_depth _ _ _ _ _ Hpf _ _ E H); lia ]
              end
            | ]);
    constructor.
Qed.

Lemma offset_separation_witness :
  NoDup (Mesh.drawKeys ["MAP-Q7ZK"%string] 3 3 0).
Proof.
  apply (offset_separation ["MAP-Q7ZK"%string] 3 3 0); try lia.
  intros d1 d2 u _.
  rewrite !(mesh_segment_nth ["MAP-Q7ZK"%string])
    by (try discriminate; repeat constructor; discriminate).
  cbn [List.length]. rewrite !Nat.min_0_r. reflexivity.
Defined.

(** ** Siblings *)

Section Siblings.

Import Canvas.

Variable sin : Q -> Q.
Variable random : nat -> Q.

(** A property of every call of [drawBranch] holds of every stroke drawn. *)
Lemma strokes_all (P : Stroke -> Prop) :
  (forall fuel len d m c dna sp cfg time k,
      P (fst (drawBranch_fuel sin random fuel len d m c dna sp cfg time k))) ->
  forall fuel len d m c dna sp cfg time k,
    Forall P
      (strokes (fst (drawBranch_fuel sin random fuel len d m c dna sp cfg time k))).
Proof.
  intros HP. induction fuel as [|fuel IH]; intros len d m c dna sp cfg time k;
    rewrite strokes_eq; constructor; auto;
    rewrite Forall_forall; intros n Hn;
    apply in_flat_map in Hn; destruct Hn as [b [Hb Hn]];
    apply drawBranch_fuel_branches in Hb;
    destruct Hb as (fuel' & i & len' & k' & Hf & Hlt & Hi & Hb); try discriminate.
  injection Hf as <-. rewrite Hb in Hn.
  specialize (IH len' (d + 1)%nat m (c + 100 + i * 50)%nat dna sp cfg time k').
  rewrite Forall_forall in IH. auto.
Qed.

(** The sub-branches of a stroke start at pairwise different cursors. *)
Lemma branch_cursors_NoDup fuel len d m c dna sp cfg time k :
  NoDup (map (fun b => cursor (snd b))
           (branches (fst (drawBranch_fuel sin random fuel len d m c dna sp cfg
                             time k)))).
Proof.
  rewrite drawBranch_fuel_branches_eq.
  destruct (d <? m)%nat; [|constructor].
  destruct fuel as [|fuel]; [constructor|].
  rewrite (forLoop_map (fun b => cursor (snd b)) (fun i => (c + 100 + i * 50)%nat))
    by (intros i k' _; cbn [fst snd];
        apply (proj2 (drawBranch_fuel_depth_eq _ _ _ _ _ _ _ _ _ _ _ _))).
  apply Injective_map_NoDup; [|apply seq_NoDup].
  intros i j Hij. lia.
Qed.

End Siblings.

(** C6, as stated, fails. In the 3D renderer the two children of the trunk
    are different branches at one depth that read the same hash key, hence
    the same float, at every offset, and carry the same sub-trees. In the 2D
    renderer the keys of two siblings differ, yet their floats can coincide:
    the siblings at cursors 100 and 150 draw the same variance at offset 10. *)
Lemma sibling_decorrelation_counterexample :
  (exists c0 c1,
      Mesh.children wiredRoot = [c0; c1]
      /\ c0 <> c1
      /\ Mesh.depth c0 = Mesh.depth c1
      /\ (forall o, Mesh.hashKey (Mesh.dnaOf wiredOak) (Mesh.depth c0) o
                    = Mesh.hashKey (Mesh.dnaOf wiredOak) (Mesh.depth c1) o)
      /\ Mesh.getDnaRandom (Mesh.dnaOf wiredOak) (Mesh.depth c0) 100
         = Mesh.getDnaRandom (Mesh.dnaOf wiredOak) (Mesh.depth c1) 100
      /\ Mesh.children c0 = Mesh.children c1
      /\ Mesh.children c0 <> [])
  /\ (forall sin random time, exists t b0 b1,
        In t (Canvas.frameStrokes (Canvas.TreeRender sin random collidingPine time))
        /\ In b0 (Canvas.branches t) /\ In b1 (Canvas.branches t)
        /\ Canvas.cursor (snd b0) = 100%nat /\ Canvas.cursor (snd b1) = 150%nat
        /\ Canvas.hashKey (Canvas.dnaOf collidingPine) (Canvas.cursor (snd b0) + 10)
           <> Canvas.hashKey (Canvas.dnaOf collidingPine) (Canvas.cursor (snd b1) + 10)
        /\ Canvas.getDnaFloat (Canvas.dnaOf collidingPine) (Canvas.cursor (snd b0) + 10)
           = Canvas.getDnaFloat (Canvas.dnaOf collidingPine) (Canvas.cursor (snd b1) + 10)).
Proof.
  split.
  - do 2 eexists. split; [reflexivity|].
    split; [discriminate|].
    split; [reflexivity|]. split; [reflexivity|]. split; [reflexivity|].
    split; [reflexivity|discriminate].
  - intros sin random time.
    unfold Canvas.TreeRender, Canvas.frameStrokes. cbn [stage collidingPine].
    unfold Canvas.drawBranch.
    change (Canvas.complexity SAPLING - 1)%nat with 3%nat.
    assert (Hcount : Z.to_nat (Canvas.branchCount (Canvas.dnaOf collidingPine) 0)
                     = 3%nat) by (vm_compute; reflexivity).
    match goal with
    | |- context [Canvas.drawBranch_fuel sin random 3 ?l 1 ?m 0 ?dna ?sp ?cfg time 0] =>
        destruct (drawBranch_fuel_branch_at sin random 2 l 1 m 0 dna sp cfg time
                    0 0) as [k0 H0];
        [cbv [Canvas.complexity]; lia | rewrite Hcount; lia |];
        destruct (drawBranch_fuel_branch_at sin random 2 l 1 m 0 dna sp cfg time
                    0 1) as [k1 H1];
        [cbv [Canvas.complexity]; lia | rewrite Hcount; lia |]
    end.
    eexists. do 2 eexists.
    split; [rewrite strokes_eq; left; reflexivity|].
    split; [eapply nth_error_In; exact H0|].
    split; [eapply nth_error_In; exact H1|].
    cbn [snd].
    rewrite !(proj2 (drawBranch_fuel_depth_eq _ _ _ _ _ _ _ _ _ _ _ _)).
    split; [reflexivity|]. split; [reflexivity|].
    split; [|vm_compute; reflexivity].
    intros H. apply canvas_key_cursor in H. discriminate.
Qed.

(** C6, amended. The draws that carry the branch index read different hash
    keys for different siblings: in the 3D renderer the rotation draw of
    child i, at offset i * 50; in the 2D renderer the variance and decay
    draws of sub-branch i, at cursor + 10 + i and cursor + 20 + i, and every
    draw of the sub-branch itself, whose cursor is shifted by 100 + i * 50,
    so that the sub-branches of every stroke start at pairwise different
    cursors. *)
Theorem sibling_keys (history : list string) (i j : nat) :
  i <> j ->
  (forall d, Mesh.hashKey history (d + 1) (i * 50)
             <> Mesh.hashKey history (d + 1) (j * 50))
  /\ (forall c, Canvas.hashKey history (c + 10 + i)
                <> Canvas.hashKey history (c + 10 + j))
  /\ (forall c, Canvas.hashKey history (c + 20 + i)
                <> Canvas.hashKey history (c + 20 + j))
  /\ (forall c k, Canvas.hashKey history (c + 100 + i * 50 + k)
                  <> Canvas.hashKey history (c + 100 + j * 50 + k))
  /\ (forall sin random tree time,
        Forall (fun t => NoDup (map (fun b => Canvas.cursor (snd b))
                                  (Canvas.branches t)))
          (Canvas.frameStrokes (Canvas.TreeRender sin random tree time))).
Proof.
  intros Hij. split; [|split; [|split; [|split]]].
  - intros d H. apply mesh_key_offset in H. lia.
  - intros c H. apply canvas_key_cursor in H. lia.
  - intros c H. apply canvas_key_cursor in H. lia.
  - intros c k H. apply canvas_key_cursor in H. lia.
  - intros sin random tree time. unfold Canvas.TreeRender, Canvas.frameStrokes.
    destruct (stage tree); [apply Forall_nil| | |];
      apply strokes_all; intros; apply branch_cursors_NoDup.
Qed.

Lemma sibling_keys_witness :
  Mesh.hashKey ["X"%string] (0 + 1) (0 * 50)
  <> Mesh.hashKey ["X"%string] (0 + 1) (1 * 50).
Proof.
  apply (proj1 (sibling_keys ["X"%string] 0 1 ltac:(discriminate)) 0%nat).
Defined.

(** ** The encoder *)

Section EncoderFacts.

Import Encoder.
Local Open Scope string_scope.
Local Open Scope nat_scope.

Lemma hexByte_table : forallb hexByteOk (seq 0 101) = true.
Proof. vm_compute. reflexivity. Qed.

(** A vital in [0, 100] is written as the two upper-case hexadecimal digits
    of its integer part. *)
Lemma hexByte_format (x : Q) :
  (0 <= x)%Q -> (x <= 100)%Q ->
  String.length (hexByte x) = 2%nat
  /\ allChars isUpperHex (hexByte x) = true
  /\ hexValue (hexByte x) = Qfloor x.
Proof.
  intros H0 H100.
  assert (Hf : (0 <= Qfloor x <= 100)%Z).
  { split.
    - change 0%Z with (Qfloor 0). now apply Qfloor_resp_le.
    - change 100%Z with (Qfloor 100). now apply Qfloor_resp_le. }
  pose proof hexByte_table as T. rewrite forallb_forall in T.
  specialize (T (Z.to_nat (Qfloor x))).
  rewrite in_seq in T. specialize (T ltac:(lia)).
  unfold hexByteOk in T. rewrite Z2Nat.id in T by lia.
  fold (hexByte x) in T.
  apply andb_true_iff in T. destruct T as [T T3].
  apply andb_true_iff in T. destruct T as [T1 T2].
  apply Nat.eqb_eq in T1. apply Z.eqb_eq in T3. auto.
Qed.

Lemma append_length (a b : string) :
  String.length (a ++ b) = String.length a + String.length b.
Proof. induction a; simpl; auto. Qed.

Lemma toUpperCase_length (s : string) :
  String.length (toUpperCase s) = String.length s.
Proof. induction s; simpl; auto. Qed.

Lemma substring_length (s : string) :
  forall n m, (n + m <= String.length s)%nat ->
    String.length (substring n m s) = m.
Proof.
  induction s as [|c s IH]; intros [|n] [|m] H; simpl in *; try lia; auto.
  - rewrite (IH 0%nat m) by lia. reflexivity.
  - apply IH. lia.
  - apply IH. lia.
Qed.

Lemma substring_short (s : string) :
  forall n m, String.length (substring n m s) <= m.
Proof.
  induction s as [|c s IH]; intros [|n] [|m]; simpl; try lia.
  - specialize (IH 0%nat m). lia.
  - apply IH.
  - apply IH.
Qed.

Lemma upperChar_base36 (c : ascii) :
  isLowerBase36 c = true -> isUpperBase36 (upperChar c) = true.
Proof.
  unfold isLowerBase36, isUpperBase36, upperChar. intros H.
  assert (Hn : (nat_of_ascii c < 256)%nat) by apply nat_ascii_bounded.
  destruct ((97 <=? nat_of_ascii c) && (nat_of_ascii c <=? 122))%nat eqn:E.
  - apply andb_true_iff in E. destruct E as [E1 E2].
    apply Nat.leb_le in E1, E2.
    rewrite nat_ascii_embedding by lia.
    apply orb_true_iff. right. apply andb_true_iff.
    split; apply Nat.leb_le; lia.
  - rewrite orb_false_r in H. rewrite H. reflexivity.
Qed.

Lemma allChars_substring (P : ascii -> bool) (s : string) :
  forall n m, allChars P s = true -> allChars P (substring n m s) = true.
Proof.
  induction s as [|c s IH]; intros [|n] [|m] H; simpl in *; auto;
    apply andb_true_iff in H; destruct H as [H1 H2]; auto.
  rewrite H1. simpl. now apply (IH 0%nat m).
Qed.

Lemma allChars_upper (s : string) :
  allChars isLowerBase36 s = true ->
  allChars isUpperBase36 (toUpperCase s) = true.
Proof.
  induction s as [|c s IH]; simpl; auto. intros H.
  apply andb_true_iff in H. destruct H as [H1 H2].
  rewrite upperChar_base36, IH; auto.
Qed.

(** The format of a token, for a random text "0." followed by [fraction]:
    the suffix is the upper-cased start of [fraction], of the full width
    when [fraction] is long enough and shorter otherwise. *)
Lemma generateDNASegment_format (prefix fraction : string) :
  allChars isLowerBase36 fraction = true ->
  let random36 := "0." ++ fraction in
  (exists suffix,
      generateDNASegment prefix None random36 = prefix ++ "-" ++ suffix
      /\ suffix = toUpperCase (substring 0 4 fraction)
      /\ allChars isUpperBase36 suffix = true
      /\ (String.length suffix <= 4)%nat
      /\ ((4 <= String.length fraction)%nat -> String.length suffix = 4%nat))
  /\ (forall stats,
        (0 <= v_health stats <= 100)%Q ->
        (0 <= v_water stats <= 100)%Q ->
        (0 <= v_fertilizer stats <= 100)%Q ->
        exists h w f suffix,
          generateDNASegment prefix (Some stats) random36
          = "EVO-" ++ h ++ w ++ f ++ "-" ++ suffix
          /\ (String.length h = 2 /\ allChars isUpperHex h = true
              /\ hexValue h = Qfloor (v_health stats))
          /\ (String.length w = 2 /\ allChars isUpperHex w = true
              /\ hexValue w = Qfloor (v_water stats))
          /\ (String.length f = 2 /\ allChars isUpperHex f = true
              /\ hexValue f = Qfloor (v_fertilizer stats))
          /\ suffix = toUpperCase (substring 0 2 fraction)
          /\ allChars isUpperBase36 suffix = true
          /\ (String.length suffix <= 2)%nat
          /\ ((2 <= String.length fraction)%nat -> String.length suffix = 2%nat))%nat.
Proof.
  intros Hfrac random36. split.
  - exists (toUpperCase (substring 0 4 fraction)).
    split; [reflexivity|]. split; [reflexivity|].
    split; [now apply allChars_upper, allChars_substring|].
    rewrite toUpperCase_length.
    split; [apply substring_short|]. intros H. now apply substring_length.
  - intros stats [Hh0 Hh1] [Hw0 Hw1] [Hf0 Hf1].
    exists (hexByte (v_health stats)), (hexByte (v_water stats)),
      (hexByte (v_fertilizer stats)), (toUpperCase (substring 0 2 fraction)).
    split; [reflexivity|].
    split; [now apply hexByte_format|].
    split; [now apply hexByte_format|].
    split; [now apply hexByte_format|].
    split; [reflexivity|].
    split; [now apply allChars_upper, allChars_substring|].
    rewrite toUpperCase_length.
    split; [apply substring_short|]. intros H. now apply substring_length.
Qed.

End EncoderFacts.

(** C10. When the random draw is 0.5, whose base-36 text is "0.i", the
    suffix of the seed token has one character instead of four and the
    suffix of the stage-transition token one instead of two; the vitals are
    written as two upper-case hexadecimal digits each. *)
Theorem generateDNASegment_short_suffix :
  Encoder.generateDNASegment "PIN" None "0.i" = "PIN-I"%string
  /\ Encoder.generateDNASegment "S1"
       (Some (Encoder.mkVitals 100 (65 # 2) 7.25)) "0.i"
     = "EVO-642007-I"%string
  /\ (forall suffix, String.length suffix = 4%nat ->
        Encoder.generateDNASegment "PIN" None "0.i" <> ("PIN" ++ "-" ++ suffix)%string)
  /\ (forall h w f suffix,
        String.length h = 2%nat -> String.length w = 2%nat ->
        String.length f = 2%nat -> String.length suffix = 2%nat ->
        Encoder.generateDNASegment "S1"
          (Some (Encoder.mkVitals 100 (65 # 2) 7.25)) "0.i"
        <> ("EVO-" ++ h ++ w ++ f ++ "-" ++ suffix)%string).
Proof.
  split; [vm_compute; reflexivity|]. split; [vm_compute; reflexivity|]. split.
  - intros suffix Hlen H. vm_compute in H.
    injection H as H. subst suffix. discriminate.
  - intros h w f suffix Hh Hw Hf Hs H.
    apply (f_equal String.length) in H.
    rewrite !append_length, Hh, Hw, Hf, Hs in H. simpl in H. lia.
Qed.

(** * Further properties of the code *)

(** ** Range of the hash *)

Section HashRange.

Local Open Scope Z_scope.

Lemma imul_range (a b : Z) : 0 <= Hash.imul a b < 2 ^ 32.
Proof. unfold Hash.imul. apply Z.mod_pos_bound. lia. Qed.

Lemma lxor_range (a b : Z) :
  0 <= a < 2 ^ 32 -> 0 <= b < 2 ^ 32 -> 0 <= Z.lxor a b < 2 ^ 32.
Proof.
  intros Ha Hb.
  assert (H0 : 0 <= Z.lxor a b) by (apply Z.lxor_nonneg; lia).
  split; [exact H0|].
  destruct (Z.eq_dec (Z.lxor a b) 0) as [E|E]; [rewrite E; lia|].
  apply Z.log2_lt_pow2; [lia|].
  pose proof (Z.log2_lxor a b ltac:(lia) ltac:(lia)) as Hl.
  assert (La : Z.log2 a < 32).
  { destruct (Z.eq_dec a 0) as [->|]; [reflexivity|].
    apply Z.log2_lt_pow2; lia. }
  assert (Lb : Z.log2 b < 32).
  { destruct (Z.eq_dec b 0) as [->|]; [reflexivity|].
    apply Z.log2_lt_pow2; lia. }
  lia.
Qed.

(** The hash is a non-negative integer below 2^53, for every text and
    every seed. *)
Theorem cyrb53_range (str : string) (seed : Z) :
  0 <= Hash.cyrb53_seeded str seed < 2 ^ 53.
Proof.
  unfold Hash.cyrb53_seeded. cbv zeta.
  set (h := fold_left Hash.mix (Hash.charCodes str) _).
  set (h1 := Z.lxor (Hash.imul (Z.lxor (fst h) _) 2246822507) _).
  set (h2 := Z.lxor (Hash.imul (Z.lxor (snd h) _) 2246822507) _).
  assert (H1 : 0 <= h1 < 2 ^ 32) by (apply lxor_range; apply imul_range).
  assert (Ht : 0 <= Z.land 2097151 h2 < 2 ^ 21).
  { rewrite Z.land_comm. change 2097151 with (Z.ones 21).
    rewrite Z.land_ones by lia. apply Z.mod_pos_bound. lia. }
  change (2 ^ 53) with (4294967296 * 2 ^ 21).
  change (2 ^ 32) with 4294967296 in H1.
  nia.
Qed.

End HashRange.

(** ** Shape of the 3D tree *)

Section MeshShape.

Import Mesh.
Local Open Scope Q_scope.

(** The branch nodes of a scene are the nodes of the trunk that
    [TreeRender] asks [Branch] for. *)
Lemma TreeRender_nodes (tree : TreeData) (n : BranchNode) :
  In n (branchNodes (TreeRender tree)) ->
  stage tree <> SEED /\
  exists root,
    Branch (0, 0, 0) (0, 0, 0) 1.5 0.3 0 (complexity (stage tree)) (species tree)
      (pruningCount tree) (wiringState tree) (dnaOf tree) = Some root
    /\ branchNodes (TreeRender tree) = nodes root
    /\ In n (nodes root).
Proof.
  unfold TreeRender, branchNodes.
  destruct (stage tree); [contradiction| | |];
    (split; [discriminate|]);
    match goal with
    | H : context [Branch ?x1 ?x2 ?x3 ?x4 ?x5 ?x6 ?x7 ?x8 ?x9 ?x10] |- _ =>
        destruct (Branch x1 x2 x3 x4 x5 x6 x7 x8 x9 x10) as [t|] eqn:Ht;
        [exists t; auto | contradiction]
    end.
Qed.

(** Every node of a tree is itself what a call of [Branch] renders. *)
Lemma nodes_are_calls fuel :
  forall pos rot len rad d m sp p w dna t,
    Branch_fuel fuel pos rot len rad d m sp p w dna = Some t ->
    (m - d <= fuel)%nat ->
    forall n, In n (nodes t) ->
      exists fuel' pos' rot' len' rad' d',
        Branch_fuel fuel' pos' rot' len' rad' d' m sp p w dna = Some n
        /\ (m - d' <= fuel')%nat /\ (d <= d')%nat.
Proof.
  induction fuel as [|fuel IH]; intros pos rot len rad d m sp p w dna t Ht Hfuel n Hn;
    pose proof Ht as Ht0;
    destruct (Branch_fuel_fields _ _ _ _ _ _ _ _ _ _ _ _ Ht)
      as (_ & _ & _ & _ & _ & _ & Ec);
    rewrite nodes_eq in Hn; destruct Hn as [<-|Hn];
    try (eexists _, pos, rot, len, rad, d; repeat split; [exact Ht0 | lia | lia]);
    rewrite Ec in Hn; apply kids_nodes in Hn;
    destruct Hn as (fuel' & i & t' & Hf & Hlt & Hi & Ht' & Hn);
    try discriminate.
  injection Hf as <-.
  destruct (IH _ _ _ _ _ _ _ _ _ _ _ Ht' ltac:(lia) n Hn)
    as (f2 & pos2 & rot2 & len2 & rad2 & d2 & H2 & Hf2 & Hd2).
  exists f2, pos2, rot2, len2, rad2, d2. repeat split; auto. lia.
Qed.

(** Every level from the root down to a node passed the pruning test. *)
Lemma nodes_unpruned fuel :
  forall pos rot len rad d m sp p w dna t,
    Branch_fuel fuel pos rot len rad d m sp p w dna = Some t ->
    forall n, In n (nodes t) ->
      forall k, (d <= k <= depth n)%nat -> pruned dna k p = false.
Proof.
  induction fuel as [|fuel IH]; intros pos rot len rad d m sp p w dna t Ht n Hn k Hk;
    pose proof Ht as Ht0;
    destruct (Branch_fuel_fields _ _ _ _ _ _ _ _ _ _ _ _ Ht)
      as (_ & _ & _ & _ & Ed & _ & Ec);
    rewrite Branch_fuel_eq in Ht0;
    destruct (pruned dna d p) eqn:Hp; try discriminate;
    rewrite nodes_eq in Hn; destruct Hn as [<-|Hn];
    try (replace k with d by lia; exact Hp);
    rewrite Ec in Hn; apply kids_nodes in Hn;
    destruct Hn as (fuel' & i & t' & Hf & Hlt & Hi & Ht' & Hn);
    try discriminate.
  injection Hf as <-.
  destruct (Nat.eq_dec k d) as [->|Hne]; [exact Hp|].
  apply (IH _ _ _ _ _ _ _ _ _ _ _ Ht' n Hn k). lia.
Qed.

End MeshShape.

Section MeshCount.

Import Mesh.
Local Open Scope nat_scope.

Lemma nodes_pair (a b : option BranchNode) :
  List.length (flat_map nodes (rendered [a; b])) = osize a + osize b.
Proof.
  destruct a as [a|], b as [b|]; simpl; rewrite ?app_nil_r, ?length_app; lia.
Qed.

Lemma foliage_pair (a b : option BranchNode) :
  List.length (filter leafy (flat_map nodes (rendered [a; b])))
  = ofoliage a + ofoliage b.
Proof.
  destruct a as [a|], b as [b|]; simpl;
    rewrite ?app_nil_r, ?filter_app, ?length_app; lia.
Qed.

Lemma pow2_pos (k : nat) : 1 <= 2 ^ k.
Proof. pose proof (Nat.pow_nonzero 2 k). lia. Qed.

(** A tree with [m - d] levels below its root has at most
    2^(m - d + 1) - 1 nodes. *)
Lemma Branch_fuel_size fuel :
  forall pos rot len rad d m sp p w dna,
    osize (Branch_fuel fuel pos rot len rad d m sp p w dna) <= 2 ^ S (m - d) - 1.
Proof.
  induction fuel as [|fuel IH]; intros pos rot len rad d m sp p w dna;
    rewrite Branch_fuel_eq; pose proof (pow2_pos (m - d));
    destruct (pruned dna d p); cbn [osize Nat.pow]; try lia;
    rewrite nodes_eq; cbn [children List.length]; unfold kids;
    destruct (Nat.leb_spec m d);
    try (cbn [rendered flat_map List.length]; lia).
  cbn [map]. rewrite nodes_pair.
  match goal with
  | |- S (osize ?a + osize ?b) <= _ =>
      assert (Ha : osize a <= 2 ^ S (m - (d + 1)) - 1) by apply IH;
      assert (Hb : osize b <= 2 ^ S (m - (d + 1)) - 1) by apply IH
  end.
  replace (m - d) with (S (m - (d + 1))) by lia.
  pose proof (pow2_pos (m - (d + 1))).
  cbn [Nat.pow] in *. lia.
Qed.

(** When no level is pruned the tree is complete: 2^(m - d + 1) - 1 nodes,
    of which the 2^(m - d) deepest carry foliage. *)
Lemma Branch_fuel_complete fuel :
  forall pos rot len rad d m sp p w dna,
    d <= m -> m - d <= fuel ->
    (forall k, d <= k <= m -> pruned dna k p = false) ->
    osize (Branch_fuel fuel pos rot len rad d m sp p w dna) = 2 ^ S (m - d) - 1
    /\ ofoliage (Branch_fuel fuel pos rot len rad d m sp p w dna) = 2 ^ (m - d).
Proof.
  induction fuel as [|fuel IH]; intros pos rot len rad d m sp p w dna Hd Hf Hp;
    rewrite Branch_fuel_eq, (Hp d) by lia;
    cbn [osize ofoliage]; rewrite nodes_eq;
    cbn [children List.length filter]; unfold leafy at 1; cbn [foliage];
    unfold kids; destruct (Nat.leb_spec m d);
    try (cbn [rendered flat_map List.length filter];
         replace (m - d) with 0 by lia; split; reflexivity);
    try lia.
  cbn [map]. rewrite nodes_pair, foliage_pair.
  match goal with
  | |- S (osize (Branch_fuel _ ?a1 ?a2 ?a3 ?a4 _ _ _ _ _ _)
          + osize (Branch_fuel _ ?b1 ?b2 ?b3 ?b4 _ _ _ _ _ _)) = _ /\ _ =>
      destruct (IH a1 a2 a3 a4 (d + 1) m sp p w dna ltac:(lia) ltac:(lia)
                  ltac:(intros; apply Hp; lia)) as [A1 A2];
      destruct (IH b1 b2 b3 b4 (d + 1) m sp p w dna ltac:(lia) ltac:(lia)
                  ltac:(intros; apply Hp; lia)) as [B1 B2]
  end.
  rewrite A1, A2, B1, B2.
  replace (m - d) with (S (m - (d + 1))) by lia.
  pose proof (pow2_pos (m - (d + 1))).
  cbn [Nat.pow]. lia.
Qed.

End MeshCount.

Section MeshScene.

Import Mesh.

Lemma TreeRender_branch (tree : TreeData) :
  stage tree <> SEED ->
  TreeRender tree =
  BranchScene
    (Branch (0, 0, 0)%Q (0, 0, 0)%Q 1.5 0.3 0 (complexity (stage tree))
       (species tree) (pruningCount tree) (wiringState tree) (dnaOf tree)).
Proof. unfold TreeRender. destruct (stage tree); congruence. Qed.

Lemma branchNodes_osize (o : option BranchNode) :
  List.length (branchNodes (BranchScene o)) = osize o.
Proof. destruct o; reflexivity. Qed.

Lemma foliageNodes_ofoliage (o : option BranchNode) :
  List.length (foliageNodes (BranchScene o)) = ofoliage o.
Proof. destruct o; reflexivity. Qed.

Lemma leafy_terminal fuel pos rot len rad d m sp p w dna n :
  Branch_fuel fuel pos rot len rad d m sp p w dna = Some n ->
  (leafy n = true <-> (m <= d)%nat)
  /\ ((m <= d)%nat -> children n = [])
  /\ (leafy n = true ->
      foliage n = Some (colorLeaf (SPECIES_CONFIG sp),
                        ((getDnaRandom dna m 999 - 0.5) * 0.1)%Q)).
Proof.
  rewrite Branch_fuel_eq. destruct (pruned dna d p); [discriminate|].
  intros H. injection H as <-. unfold leafy, kids. cbn [foliage children].
  destruct (Nat.leb_spec m d); repeat split; auto; try discriminate; lia.
Qed.

End MeshScene.

(** The 3D tree of a record has at most 2^(complexity + 1) - 1 branch
    nodes, so never more than 255. *)
Theorem tree_size_bound (tree : TreeData) :
  (List.length (Mesh.branchNodes (Mesh.TreeRender tree))
   <= 2 ^ (Mesh.complexity (stage tree) + 1) - 1)%nat
  /\ (List.length (Mesh.branchNodes (Mesh.TreeRender tree)) <= 255)%nat.
Proof.
  assert (H : (List.length (Mesh.branchNodes (Mesh.TreeRender tree))
               <= 2 ^ (Mesh.complexity (stage tree) + 1) - 1)%nat).
  { destruct (stage tree) eqn:E;
      [unfold Mesh.TreeRender; rewrite E; cbn; lia| | |];
      rewrite TreeRender_branch, branchNodes_osize by congruence;
      unfold Mesh.Branch; rewrite E;
      match goal with
      | |- (osize (Mesh.Branch_fuel ?f ?a1 ?a2 ?a3 ?a4 ?d ?m ?sp ?p ?w ?dna) <= _)%nat =>
          pose proof (Branch_fuel_size f a1 a2 a3 a4 d m sp p w dna) as Hs
      end;
      rewrite Nat.sub_0_r in Hs; rewrite Nat.add_1_r; exact Hs. }
  split; [exact H|].
  destruct (stage tree); cbn in H; lia.
Qed.

Lemma scene_leafy (tree : TreeData) (n : Mesh.BranchNode) :
  In n (Mesh.branchNodes (Mesh.TreeRender tree)) ->
  (leafy n = true <-> Mesh.depth n = Mesh.complexity (stage tree))
  /\ (Mesh.depth n = Mesh.complexity (stage tree) -> Mesh.children n = [])
  /\ (leafy n = true ->
      Mesh.foliage n
      = Some (colorLeaf (SPECIES_CONFIG (species tree)),
              ((Mesh.getDnaRandom (Mesh.dnaOf tree)
                  (Mesh.complexity (stage tree)) 999 - 0.5) * 0.1)%Q)).
Proof.
  intros Hn. destruct (TreeRender_nodes tree n Hn) as (_ & root & Hroot & _ & Hin).
  pose proof (Branch_fuel_depth _ _ _ _ _ _ _ _ _ _ _ _ Hroot (Nat.le_0_l _)) as Hd.
  rewrite Forall_forall in Hd. specialize (Hd n Hin).
  destruct (nodes_are_calls _ _ _ _ _ _ _ _ _ _ _ _ Hroot (Nat.le_refl _) n Hin)
    as (f & pos & rot & len & rad & d & Hcall & _ & _).
  destruct (Branch_fuel_fields _ _ _ _ _ _ _ _ _ _ _ _ Hcall)
    as (_ & _ & _ & _ & Ed & _).
  destruct (leafy_terminal _ _ _ _ _ _ _ _ _ _ _ _ Hcall) as (L1 & L2 & L3).
  rewrite Ed in *. repeat split; auto.
  - intros H. apply L1 in H. lia.
  - intros H. apply L1. lia.
  - intros H. apply L2. lia.
Qed.


(** Foliage sits exactly on the branches at the maximal depth; such a branch
    has no children, and every cluster of a tree has the same tint. *)
Theorem foliage_at_terminals (tree : TreeData) (n : Mesh.BranchNode) :
  In n (Mesh.branchNodes (Mesh.TreeRender tree)) ->
  (leafy n = true <-> Mesh.depth n = Mesh.complexity (stage tree))
  /\ (Mesh.depth n = Mesh.complexity (stage tree) -> Mesh.children n = [])
  /\ (leafy n = true ->
      Mesh.foliage n
      = Some (colorLeaf (SPECIES_CONFIG (species tree)),
              ((Mesh.getDnaRandom (Mesh.dnaOf tree)
                  (Mesh.complexity (stage tree)) 999 - 0.5) * 0.1)%Q)).
Proof. exact (scene_leafy tree n). Qed.

Lemma foliage_at_terminals_witness :
  leafy wiredRoot = true <-> Mesh.depth wiredRoot = Mesh.complexity (stage wiredOak).
Proof.
  refine (proj1 (foliage_at_terminals wiredOak wiredRoot _)).
  vm_compute. left. reflexivity.
Defined.

Lemma filter_none {A : Type} (f : A -> bool) (l : list A) :
  (forall x, In x l -> f x = false) -> filter f l = [].
Proof.
  induction l as [|a l IH]; intros H; simpl; auto.
  rewrite (H a) by (now left). apply IH. intros x Hx. apply H. now right.
Qed.

(** The pruning test is shared by a whole level: when it fires at a depth k
    (1 < k <= complexity) no branch of depth k or more is rendered, and the
    tree carries no foliage at all. *)
Theorem pruned_level_bare (tree : TreeData) (k : nat) :
  (1 < k <= Mesh.complexity (stage tree))%nat ->
  Mesh.pruned (Mesh.dnaOf tree) k (pruningCount tree) = true ->
  (forall n, In n (Mesh.branchNodes (Mesh.TreeRender tree)) ->
             (Mesh.depth n < k)%nat)
  /\ foliageNodes (Mesh.TreeRender tree) = [].
Proof.
  intros Hk Hp.
  assert (Hdepth : forall n, In n (Mesh.branchNodes (Mesh.TreeRender tree)) ->
                             (Mesh.depth n < k)%nat).
  { intros n Hn.
    destruct (TreeRender_nodes tree n Hn) as (_ & root & Hroot & _ & Hin).
    destruct (Nat.lt_ge_cases (Mesh.depth n) k) as [H|H]; [exact H|].
    assert (Hrange : (0 <= k <= Mesh.depth n)%nat) by lia.
    pose proof (nodes_unpruned _ _ _ _ _ _ _ _ _ _ _ _ Hroot n Hin k Hrange) as Hu.
    congruence. }
  split; [exact Hdepth|].
  apply filter_none. intros n Hn.
  destruct (leafy n) eqn:E; [|reflexivity].
  apply (proj1 (scene_leafy tree n Hn)) in E.
  specialize (Hdepth n Hn). lia.
Qed.

Lemma pruned_level_bare_witness :
  foliageNodes (Mesh.TreeRender (adultOf PINE 80 ["X"%string])) = [].
Proof.
  refine (proj2 (pruned_level_bare (adultOf PINE 80 ["X"%string]) 2 _ _)).
  - change (1 < 2 <= 5)%nat. lia.
  - vm_compute. reflexivity.
Defined.

(** When the pruning test fires at no depth the tree is complete: it has
    2^(complexity + 1) - 1 branches, of which 2^complexity carry foliage. *)
Theorem unpruned_complete (tree : TreeData) :
  stage tree <> SEED ->
  (forall k, (1 < k <= Mesh.complexity (stage tree))%nat ->
             Mesh.pruned (Mesh.dnaOf tree) k (pruningCount tree) = false) ->
  List.length (Mesh.branchNodes (Mesh.TreeRender tree))
  = (2 ^ (Mesh.complexity (stage tree) + 1) - 1)%nat
  /\ List.length (foliageNodes (Mesh.TreeRender tree))
     = (2 ^ Mesh.complexity (stage tree))%nat.
Proof.
  intros Hs Hp.
  rewrite TreeRender_branch, branchNodes_osize, foliageNodes_ofoliage by exact Hs.
  unfold Mesh.Branch.
  assert (Hall : forall k, (0 <= k <= Mesh.complexity (stage tree))%nat ->
                   Mesh.pruned (Mesh.dnaOf tree) k (pruningCount tree) = false).
  { intros k Hk. destruct (Nat.lt_ge_cases 1 k) as [H|H].
    - apply Hp. lia.
    - apply pruned_shallow. lia. }
  match goal with
  | |- osize (Mesh.Branch_fuel ?f ?a1 ?a2 ?a3 ?a4 ?d ?m ?sp ?p ?w ?dna) = _ /\ _ =>
      destruct (Branch_fuel_complete f a1 a2 a3 a4 d m sp p w dna
                  (Nat.le_0_l _) (Nat.le_refl _) Hall) as [A B]
  end.
  rewrite Nat.sub_0_r in *. rewrite Nat.add_1_r. auto.
Qed.

Lemma unpruned_complete_witness :
  List.length (Mesh.branchNodes (Mesh.TreeRender (adultOf PINE 0 ["X"%string])))
  = 63%nat.
Proof.
  refine (proj1 (unpruned_complete (adultOf PINE 0 ["X"%string]) _ _)).
  - discriminate.
  - intros k Hk. change (1 < k <= 5)%nat in Hk.
    assert (Hc : k = 2%nat \/ k = 3%nat \/ k = 4%nat \/ k = 5%nat) by lia.
    destruct Hc as [->|[->|[->| ->]]]; vm_compute; reflexivity.
Defined.

(** The two children of a branch differ by their rotation only: they have
    the same position, length, radius, depth, colours, foliage and the same
    children. *)
Theorem siblings_alike (tree : TreeData) (n c0 c1 : Mesh.BranchNode) :
  In n (Mesh.branchNodes (Mesh.TreeRender tree)) ->
  In c0 (Mesh.children n) -> In c1 (Mesh.children n) ->
  Mesh.position c0 = Mesh.position c1
  /\ Mesh.length c0 = Mesh.length c1
  /\ Mesh.radius c0 = Mesh.radius c1
  /\ Mesh.depth c0 = Mesh.depth c1
  /\ Mesh.topRadius c0 = Mesh.topRadius c1
  /\ Mesh.bark c0 = Mesh.bark c1
  /\ Mesh.foliage c0 = Mesh.foliage c1
  /\ Mesh.children c0 = Mesh.children c1.
Proof.
  intros Hn H0 H1.
  destruct (TreeRender_nodes tree n Hn) as (_ & root & Hroot & _ & Hin).
  destruct (nodes_are_calls _ _ _ _ _ _ _ _ _ _ _ _ Hroot (Nat.le_refl _) n Hin)
    as (f & pos & rot & len & rad & d & Hcall & _ & _).
  destruct (Branch_fuel_fields _ _ _ _ _ _ _ _ _ _ _ _ Hcall)
    as (_ & _ & _ & _ & _ & _ & Ec).
  rewrite Ec in H0, H1. apply rendered_In in H0, H1.
  unfold Mesh.kids in H0, H1.
  destruct (Mesh.complexity (stage tree) <=? d)%nat; [contradiction|].
  destruct f as [|f]; [contradiction|].
  apply in_map_iff in H0, H1.
  destruct H0 as (i & H0 & _). destruct H1 as (j & H1 & _).
  rewrite Branch_fuel_eq in H0, H1.
  destruct (Mesh.pruned (Mesh.dnaOf tree) (d + 1) (pruningCount tree));
    [discriminate|].
  injection H0 as <-. injection H1 as <-.
  repeat split; reflexivity.
Qed.

Lemma siblings_alike_witness :
  Mesh.children (nth 0 (Mesh.children wiredRoot) wiredRoot)
  = Mesh.children (nth 1 (Mesh.children wiredRoot) wiredRoot).
Proof.
  refine (proj2 (proj2 (proj2 (proj2 (proj2 (proj2 (proj2
            (siblings_alike wiredOak wiredRoot
               (nth 0 (Mesh.children wiredRoot) wiredRoot)
               (nth 1 (Mesh.children wiredRoot) wiredRoot) _ _ _)))))))).
  - vm_compute. left. reflexivity.
  - left. reflexivity.
  - right. left. reflexivity.
Defined.

(** A child starts at the tip of its parent, with the radius at which the
    wood segment of its parent ends, one level deeper. *)
Theorem child_attachment (tree : TreeData) (n c : Mesh.BranchNode) :
  In n (Mesh.branchNodes (Mesh.TreeRender tree)) ->
  In c (Mesh.children n) ->
  Mesh.position c = (0, Mesh.length n, 0)%Q
  /\ Mesh.radius c = Mesh.topRadius n
  /\ Mesh.depth c = (Mesh.depth n + 1)%nat.
Proof.
  intros Hn Hc.
  destruct (TreeRender_nodes tree n Hn) as (_ & root & Hroot & _ & Hin).
  pose proof (Branch_fuel_children _ _ _ _ _ _ _ _ _ _ _ _ Hroot) as Hk.
  rewrite Forall_forall in Hk.
  destruct (Hk n Hin c Hc) as (i & _ & Ep & _ & _ & Er & Ed).
  destruct (nodes_are_calls _ _ _ _ _ _ _ _ _ _ _ _ Hroot (Nat.le_refl _) n Hin)
    as (f & pos & rot & len & rad & d & Hcall & _ & _).
  destruct (Branch_fuel_fields _ _ _ _ _ _ _ _ _ _ _ _ Hcall)
    as (_ & _ & _ & Erad & _ & Etop & _).
  repeat split; auto. rewrite Er, Etop, Erad. reflexivity.
Qed.

Lemma child_attachment_witness :
  Mesh.radius (nth 0 (Mesh.children wiredRoot) wiredRoot) = Mesh.topRadius wiredRoot.
Proof.
  refine (proj1 (proj2 (child_attachment wiredOak wiredRoot
                          (nth 0 (Mesh.children wiredRoot) wiredRoot) _ _))).
  - vm_compute. left. reflexivity.
  - left. reflexivity.
Defined.

(** ** Size of the branches *)

Section MeshGeometry.

Import Mesh.
Local Open Scope Q_scope.

Lemma qpow_pos (q : Q) (k : nat) : 0 < q -> 0 < qpow q k.
Proof.
  intros Hq. induction k as [|k IH]; simpl; [reflexivity|].
  apply Qmult_lt_0_compat; assumption.
Qed.

(** Along the recursion the radius is the starting radius times 0.7 per
    level, and the length lies between the starting length times 0.75 and
    times 0.85 per level. *)
Lemma Branch_fuel_geometry fuel :
  forall pos rot len rad d m sp p w dna t,
    Branch_fuel fuel pos rot len rad d m sp p w dna = Some t ->
    0 < len ->
    Forall (fun n =>
              (d <= depth n)%nat
              /\ radius n == rad * qpow 0.7 (depth n - d)
              /\ len * qpow 0.75 (depth n - d) <= length n
              /\ length n <= len * qpow 0.85 (depth n - d))
      (nodes t).
Proof.
  induction fuel as [|fuel IH]; intros pos rot len rad d m sp p w dna t Ht Hl;
    destruct (Branch_fuel_fields _ _ _ _ _ _ _ _ _ _ _ _ Ht)
      as (_ & _ & El & Er & Ed & _ & Ec);
    rewrite nodes_eq; constructor;
    try (rewrite El, Er, Ed, Nat.sub_diag; cbn [qpow];
         split; [lia|]; split; [ring|]; split; lra);
    rewrite Ec, Forall_forall; intros n Hn; apply kids_nodes in Hn;
    destruct Hn as (fuel' & i & t' & Hf & Hlt & Hi & Ht' & Hn);
    try discriminate.
  injection Hf as <-.
  destruct (lengthFactor_range dna d) as [F0 F1].
  fold (lengthFactor dna d) in Ht'.
  set (f := lengthFactor dna d) in *.
  assert (Hf : 0 < f) by lra.
  apply IH in Ht'; [|apply Qmult_lt_0_compat; assumption].
  rewrite Forall_forall in Ht'.
  destruct (Ht' n Hn) as (Hd & Hr & H0 & H1).
  replace (depth n - d)%nat with (S (depth n - (d + 1))) by lia.
  cbn [qpow].
  pose proof (qpow_pos 0.75 (depth n - (d + 1)) ltac:(reflexivity)) as P0.
  pose proof (qpow_pos 0.85 (depth n - (d + 1)) ltac:(reflexivity)) as P1.
  split; [lia|]. split; [rewrite Hr; ring|].
  split.
  - eapply Qle_trans; [|exact H0].
    setoid_replace (len * (qpow 0.75 (depth n - (d + 1)) * 0.75))
      with (len * qpow 0.75 (depth n - (d + 1)) * 0.75) by ring.
    setoid_replace (len * f * qpow 0.75 (depth n - (d + 1)))
      with (len * qpow 0.75 (depth n - (d + 1)) * f) by ring.
    apply Qmult_le_l; [apply Qmult_lt_0_compat; assumption | exact F0].
  - eapply Qle_trans; [exact H1|].
    setoid_replace (len * (qpow 0.85 (depth n - (d + 1)) * 0.85))
      with (len * qpow 0.85 (depth n - (d + 1)) * 0.85) by ring.
    setoid_replace (len * f * qpow 0.85 (depth n - (d + 1)))
      with (len * qpow 0.85 (depth n - (d + 1)) * f) by ring.
    apply Qmult_le_l; [apply Qmult_lt_0_compat; assumption | lra].
Qed.

End MeshGeometry.

(** In the tree of a record the radius of a branch of depth k is
    0.3 * 0.7^k, and its length lies between 1.5 * 0.75^k and 1.5 * 0.85^k. *)
Theorem branch_geometry (tree : TreeData) (n : Mesh.BranchNode) :
  In n (Mesh.branchNodes (Mesh.TreeRender tree)) ->
  (Mesh.radius n == 0.3 * qpow 0.7 (Mesh.depth n))%Q
  /\ (1.5 * qpow 0.75 (Mesh.depth n) <= Mesh.length n)%Q
  /\ (Mesh.length n <= 1.5 * qpow 0.85 (Mesh.depth n))%Q.
Proof.
  intros Hn. destruct (TreeRender_nodes tree n Hn) as (_ & root & Hroot & _ & Hin).
  pose proof (Branch_fuel_geometry _ _ _ _ _ _ _ _ _ _ _ _ Hroot
                ltac:(reflexivity)) as H.
  rewrite Forall_forall in H. destruct (H n Hin) as (_ & Hr & H0 & H1).
  rewrite Nat.sub_0_r in *. auto.
Qed.

Lemma branch_geometry_witness :
  (Mesh.radius wiredRoot == 0.3 * qpow 0.7 (Mesh.depth wiredRoot))%Q.
Proof.
  refine (proj1 (branch_geometry wiredOak wiredRoot _)).
  vm_compute. left. reflexivity.
Defined.



(** ** Shape of the 2D drawing *)

Section CanvasShape.

Import Canvas.
Local Open Scope Q_scope.

Variable sin : Q -> Q.
Variable random : nat -> Q.

Lemma branchCount_range (dna : list string) (c : nat) :
  branchCount dna c = 2%Z \/ branchCount dna c = 3%Z.
Proof.
  unfold branchCount.
  destruct (getDnaFloat_range dna (c + 2)) as [H0 H1].
  set (x := getDnaFloat dna (c + 2) * 2) in *.
  assert (L : (0 <= Qfloor x)%Z).
  { change 0%Z with (Qfloor 0). apply Qfloor_resp_le. unfold x. lra. }
  assert (U : (Qfloor x < 2)%Z).
  { rewrite Zlt_Qlt. eapply Qle_lt_trans; [apply Qfloor_le|]. unfold x.
    change (inject_Z 2) with 2. lra. }
  lia.
Qed.

(** Every stroke of a drawing is itself what a call of [drawBranch] with
    enough fuel draws. *)
Lemma strokes_are_calls fuel :
  forall len d m c dna sp cfg time k,
    (m - d <= fuel)%nat ->
    forall n,
      In n (strokes (fst (drawBranch_fuel sin random fuel len d m c dna sp cfg
                            time k))) ->
      exists fuel' len' d' c' k',
        n = fst (drawBranch_fuel sin random fuel' len' d' m c' dna sp cfg time k')
        /\ (m - d' <= fuel')%nat /\ (d <= d')%nat.
Proof.
  induction fuel as [|fuel IH]; intros len d m c dna sp cfg time k Hfuel n Hn;
    rewrite strokes_eq in Hn; destruct Hn as [<-|Hn];
    try (eexists _, len, d, c, k; repeat split; [exact Hfuel | lia]);
    apply in_flat_map in Hn; destruct Hn as [b [Hb Hn]];
    apply drawBranch_fuel_branches in Hb;
    destruct Hb as (fuel' & i & len' & k' & Hf & Hlt & Hi & Hb); try discriminate.
  injection Hf as <-. rewrite Hb in Hn.
  assert (Hfuel' : (m - (d + 1) <= fuel)%nat) by lia.
  destruct (IH _ _ _ _ _ _ _ _ _ Hfuel' n Hn)
    as (f2 & l2 & d2 & c2 & k2 & E & Hf2 & Hd2).
  exists f2, l2, d2, c2, k2. repeat split; auto. lia.
Qed.

(** The sub-branch at index [i] of a call. *)
Lemma call_branch fuel len d m c dna sp cfg time k i b :
  (m - d <= fuel)%nat ->
  nth_error
    (branches (fst (drawBranch_fuel sin random fuel len d m c dna sp cfg time k)))
    i = Some b ->
  exists fuel' k',
    (d < m)%nat /\ (m - (d + 1) <= fuel')%nat
    /\ (i < Z.to_nat (branchCount dna c))%nat
    /\ b = (branchAngle sin dna sp d c time i,
            fst (drawBranch_fuel sin random fuel'
                   (len * (0.7 + getDnaFloat dna (c + 20 + i) * 0.1))
                   (d + 1) m (c + 100 + i * 50) dna sp cfg time k')).
Proof.
  intros Hfuel Hb. apply drawBranch_fuel_branch in Hb.
  destruct Hb as (fuel' & k' & -> & Hlt & Hi & ->).
  exists fuel', k'. repeat split; auto. lia.
Qed.

Lemma call_branch_count fuel len d m c dna sp cfg time k :
  (m - d <= fuel)%nat ->
  List.length
    (branches (fst (drawBranch_fuel sin random fuel len d m c dna sp cfg time k)))
  = if (d <? m)%nat then Z.to_nat (branchCount dna c) else 0%nat.
Proof.
  intros Hfuel. rewrite drawBranch_fuel_count_eq.
  destruct (Nat.ltb_spec d m); [|reflexivity].
  destruct fuel as [|fuel']; [lia|reflexivity].
Qed.

End CanvasShape.

Section CanvasInvariant.

Import Canvas.
Local Open Scope Q_scope.

Variable sin : Q -> Q.
Variable random : nat -> Q.

(** A property of (length, depth, cursor) that the trunk has and that
    [drawBranch] hands on to its sub-branches holds of every stroke. *)
Lemma strokes_invariant (I : Q -> nat -> nat -> Prop) m dna sp cfg time :
  (forall len d c i,
      I len d c -> (d < m)%nat -> (i < Z.to_nat (branchCount dna c))%nat ->
      I (len * (0.7 + getDnaFloat dna (c + 20 + i) * 0.1))
        (d + 1)%nat (c + 100 + i * 50)%nat) ->
  forall fuel len d c k,
    I len d c -> (m - d <= fuel)%nat ->
    forall n,
      In n (strokes (fst (drawBranch_fuel sin random fuel len d m c dna sp cfg
                            time k))) ->
      exists fuel' len' d' c' k',
        n = fst (drawBranch_fuel sin random fuel' len' d' m c' dna sp cfg time k')
        /\ (m - d' <= fuel')%nat /\ I len' d' c'.
Proof.
  intros Hstep. induction fuel as [|fuel IH]; intros len d c k HI Hfuel n Hn;
    rewrite strokes_eq in Hn; destruct Hn as [<-|Hn];
    try (eexists _, len, d, c, k; repeat split; [exact Hfuel | exact HI]);
    apply in_flat_map in Hn; destruct Hn as [b [Hb Hn]];
    apply In_nth_error in Hb; destruct Hb as [i Hb];
    apply call_branch in Hb; try exact Hfuel;
    destruct Hb as (fuel' & k' & Hlt & Hf' & Hi & ->); try lia.
  cbn [snd] in Hn.
  rewrite (drawBranch_fuel_enough sin random fuel' fuel) in Hn by lia.
  apply (IH _ _ _ k' (Hstep _ _ _ i HI Hlt Hi) ltac:(lia) n Hn).
Qed.

(** The strokes of a frame are calls of [drawBranch] for the record, at a
    positive length, a depth between 1 and the complexity, and a cursor that
    is a multiple of 50 between 100 and 200 per level below the trunk. *)
Lemma frame_calls (tree : TreeData) (time : Q) (t : Stroke) :
  In t (frameStrokes (TreeRender sin random tree time)) ->
  exists fuel len d c k,
    t = fst (drawBranch_fuel sin random fuel len d (complexity (stage tree)) c
               (dnaOf tree) (species tree) (SPECIES_CONFIG (species tree))
               time k)
    /\ (complexity (stage tree) - d <= fuel)%nat
    /\ 0 < len /\ (1 <= d <= complexity (stage tree))%nat
    /\ (100 * (d - 1) <= c <= 200 * (d - 1))%nat
    /\ (exists j, c = 50 * j)%nat.
Proof.
  set (I := fun (len : Q) (d c : nat) =>
              0 < len /\ (1 <= d <= complexity (stage tree))%nat
              /\ (100 * (d - 1) <= c <= 200 * (d - 1))%nat
              /\ (exists j, c = 50 * j)%nat).
  assert (Hstep : forall len d c i,
             I len d c -> (d < complexity (stage tree))%nat ->
             (i < Z.to_nat (branchCount (dnaOf tree) c))%nat ->
             I (len * (0.7 + getDnaFloat (dnaOf tree) (c + 20 + i) * 0.1))
               (d + 1)%nat (c + 100 + i * 50)%nat).
  { intros len d c i (Hl & Hd & Hc & [j Hj]) Hlt Hi.
    destruct (branchCount_range (dnaOf tree) c) as [E|E]; rewrite E in Hi;
      destruct (getDnaFloat_range (dnaOf tree) (c + 20 + i)) as [G0 G1];
      (split; [apply Qmult_lt_0_compat; [exact Hl|lra]|]);
      (split; [lia|]); (split; [lia|]);
      exists (j + 2 + i)%nat; lia. }
  assert (Htrunk : stage tree <> SEED -> I 140 1%nat 0%nat).
  { intros Hs. unfold I. split; [reflexivity|]. split.
    - destruct (stage tree); [congruence| | |]; cbv [complexity]; lia.
    - split; [lia|]. exists 0%nat. reflexivity. }
  intros Hin.
  assert (Hs : stage tree <> SEED).
  { intros E. unfold TreeRender in Hin. rewrite E in Hin. exact Hin. }
  assert (Hcall : In t (strokes (fst (drawBranch_fuel sin random
                                        (complexity (stage tree) - 1) 140 1
                                        (complexity (stage tree)) 0 (dnaOf tree)
                                        (species tree)
                                        (SPECIES_CONFIG (species tree)) time 0)))).
  { unfold TreeRender, frameStrokes, drawBranch in Hin.
    destruct (stage tree); [congruence| | |]; exact Hin. }
  clear Hin.
  destruct (strokes_invariant I (complexity (stage tree)) (dnaOf tree)
              (species tree) (SPECIES_CONFIG (species tree)) time Hstep
              (complexity (stage tree) - 1)%nat 140 1%nat 0%nat 0%nat
              (Htrunk Hs) (Nat.le_refl _) t Hcall)
    as (f & l & d & c & k & -> & Hf & Hl & Hd & Hc & Hk).
  exists f, l, d, c, k. repeat split; auto; lia.
Qed.

End CanvasInvariant.

(** A stroke above the maximal depth has two or three sub-branches, as many
    as the draw at cursor + 2 says; a stroke at the maximal depth has none.
    The 2D tree is never pruned. *)
Theorem stroke_branching (sin : Q -> Q) (random : nat -> Q) (tree : TreeData)
    (time : Q) (t : Canvas.Stroke) :
  In t (Canvas.frameStrokes (Canvas.TreeRender sin random tree time)) ->
  (1 <= Canvas.depth t <= Canvas.complexity (stage tree))%nat
  /\ ((Canvas.depth t < Canvas.complexity (stage tree))%nat ->
      Z.of_nat (List.length (Canvas.branches t))
      = Canvas.branchCount (Canvas.dnaOf tree) (Canvas.cursor t)
      /\ (2 <= List.length (Canvas.branches t) <= 3)%nat)
  /\ (Canvas.depth t = Canvas.complexity (stage tree) -> Canvas.branches t = []).
Proof.
  intros Hin.
  destruct (frame_calls sin random tree time t Hin)
    as (f & l & d & c & calls & -> & Hf & Hl & Hd & _).
  destruct (own_eq sin random f l d (Canvas.complexity (stage tree)) c
              (Canvas.dnaOf tree) (species tree) (SPECIES_CONFIG (species tree))
              time calls) as (_ & Ed & Ec & _).
  rewrite Ed, Ec. split; [exact Hd|].
  pose proof (call_branch_count sin random f l d _ c (Canvas.dnaOf tree)
                (species tree) (SPECIES_CONFIG (species tree)) time calls Hf) as Hc.
  split.
  - intros Hlt. rewrite Hc.
    destruct (Nat.ltb_spec d (Canvas.complexity (stage tree))); [|lia].
    destruct (branchCount_range (Canvas.dnaOf tree) c) as [E|E]; rewrite E;
      split; try reflexivity; cbn; lia.
  - intros E. apply length_zero_iff_nil. rewrite Hc.
    destruct (Nat.ltb_spec d (Canvas.complexity (stage tree))); [lia|reflexivity].
Qed.

Lemma stroke_branching_witness :
  (1 <= Canvas.depth pineTrunk <= Canvas.complexity (stage collidingPine))%nat.
Proof.
  refine (proj1 (stroke_branching (fun x => x) (fun _ => 0%Q) collidingPine 0 pineTrunk _)).
  vm_compute. left. reflexivity.
Defined.

(** Every sub-branch is between 0.7 and 0.8 times as long as the stroke it
    grows from, hence strictly shorter, and lies one level deeper. *)
Theorem stroke_decay (sin : Q -> Q) (random : nat -> Q) (tree : TreeData)
    (time : Q) (t : Canvas.Stroke) (i : nat) (b : Q * Canvas.Stroke) :
  In t (Canvas.frameStrokes (Canvas.TreeRender sin random tree time)) ->
  nth_error (Canvas.branches t) i = Some b ->
  Canvas.len (snd b)
  = (Canvas.len t
     * (0.7 + Canvas.getDnaFloat (Canvas.dnaOf tree) (Canvas.cursor t + 20 + i) * 0.1))%Q
  /\ (0.7 * Canvas.len t <= Canvas.len (snd b))%Q
  /\ (Canvas.len (snd b) < 0.8 * Canvas.len t)%Q
  /\ (0 < Canvas.len (snd b))%Q
  /\ (Canvas.len (snd b) < Canvas.len t)%Q
  /\ Canvas.depth (snd b) = (Canvas.depth t + 1)%nat.
Proof.
  intros Hin Hb.
  destruct (frame_calls sin random tree time t Hin)
    as (f & l & d & c & calls & -> & Hf & Hl & Hd & _).
  apply call_branch in Hb; [|exact Hf].
  destruct Hb as (f' & calls' & _ & _ & _ & ->). cbn [snd].
  destruct (own_eq sin random f l d (Canvas.complexity (stage tree)) c
              (Canvas.dnaOf tree) (species tree) (SPECIES_CONFIG (species tree))
              time calls) as (El & Ed & Ec & _).
  rewrite El, Ed, Ec.
  match goal with
  | |- Canvas.len ?s = _ /\ _ =>
      match s with
      | fst (Canvas.drawBranch_fuel _ _ ?a1 ?a2 ?a3 ?a4 ?a5 ?a6 ?a7 ?a8 ?a9 ?a10) =>
          destruct (own_eq sin random a1 a2 a3 a4 a5 a6 a7 a8 a9 a10)
            as (El' & Ed' & _)
      end
  end.
  rewrite El', Ed'.
  destruct (getDnaFloat_range (Canvas.dnaOf tree) (c + 20 + i)) as [G0 G1].
  set (g := Canvas.getDnaFloat (Canvas.dnaOf tree) (c + 20 + i)) in *.
  repeat split; try reflexivity; nra.
Qed.

Lemma stroke_decay_witness :
  (Canvas.len (snd (nth 0 (Canvas.branches pineTrunk) (0, pineTrunk)%Q))
   < Canvas.len pineTrunk)%Q.
Proof.
  refine (proj1 (proj2 (proj2 (proj2 (proj2
            (stroke_decay (fun x => x) (fun _ => 0%Q) collidingPine 0 pineTrunk 0
               (nth 0 (Canvas.branches pineTrunk) (0, pineTrunk)%Q) _ _)))))).
  - vm_compute. left. reflexivity.
  - reflexivity.
Defined.

(** The cursor of a stroke is a multiple of 50 that grows by 100 to 200 per
    level, and the sub-branch at index i starts at the cursor of its parent
    plus 100 + 50 * i. *)
Theorem stroke_cursors (sin : Q -> Q) (random : nat -> Q) (tree : TreeData)
    (time : Q) (t : Canvas.Stroke) :
  In t (Canvas.frameStrokes (Canvas.TreeRender sin random tree time)) ->
  (100 * (Canvas.depth t - 1) <= Canvas.cursor t <= 200 * (Canvas.depth t - 1))%nat
  /\ (exists k, Canvas.cursor t = 50 * k)%nat
  /\ (forall i b, nth_error (Canvas.branches t) i = Some b ->
        Canvas.cursor (snd b) = (Canvas.cursor t + 100 + i * 50)%nat).
Proof.
  intros Hin.
  destruct (frame_calls sin random tree time t Hin)
    as (f & l & d & c & calls & -> & Hf & Hl & Hd & Hc & Hk).
  destruct (own_eq sin random f l d (Canvas.complexity (stage tree)) c
              (Canvas.dnaOf tree) (species tree) (SPECIES_CONFIG (species tree))
              time calls) as (_ & Ed & Ec & _).
  rewrite Ed, Ec. split; [exact Hc|]. split; [exact Hk|].
  intros i b Hb. apply call_branch in Hb; [|exact Hf].
  destruct Hb as (f' & calls' & _ & _ & _ & ->). cbn [snd].
  apply (proj2 (drawBranch_fuel_depth_eq _ _ _ _ _ _ _ _ _ _ _ _)).
Qed.

Lemma stroke_cursors_witness :
  exists k, (Canvas.cursor pineTrunk = 50 * k)%nat.
Proof.
  refine (proj1 (proj2 (stroke_cursors (fun x => x) (fun _ => 0%Q) collidingPine 0 pineTrunk _))).
  vm_compute. left. reflexivity.
Defined.

(** The first sub-branch of the first sub-branch of a stroke starts at the
    cursor of its third sub-branch, so the two read the same value at every
    offset. *)
Theorem cursor_alias (sin : Q -> Q) (random : nat -> Q) (tree : TreeData)
    (time : Q) (t : Canvas.Stroke) (b0 b2 g : Q * Canvas.Stroke) :
  In t (Canvas.frameStrokes (Canvas.TreeRender sin random tree time)) ->
  nth_error (Canvas.branches t) 0 = Some b0 ->
  nth_error (Canvas.branches t) 2 = Some b2 ->
  nth_error (Canvas.branches (snd b0)) 0 = Some g ->
  Canvas.cursor (snd g) = Canvas.cursor (snd b2)
  /\ Canvas.depth (snd g) = (Canvas.depth (snd b2) + 1)%nat
  /\ forall k,
       Canvas.getDnaFloat (Canvas.dnaOf tree) (Canvas.cursor (snd g) + k)
       = Canvas.getDnaFloat (Canvas.dnaOf tree) (Canvas.cursor (snd b2) + k).
Proof.
  intros Hin H0 H2 Hg.
  destruct (frame_calls sin random tree time t Hin)
    as (f & l & d & c & calls & -> & Hf & _).
  apply call_branch in H0; [|exact Hf]. apply call_branch in H2; [|exact Hf].
  destruct H0 as (f0 & calls0 & _ & Hf0 & _ & ->).
  destruct H2 as (f2 & calls2 & _ & _ & _ & ->).
  cbn [snd] in *.
  apply call_branch in Hg; [|exact Hf0].
  destruct Hg as (fg & callsg & _ & _ & _ & ->). cbn [snd].
  rewrite !(proj2 (drawBranch_fuel_depth_eq _ _ _ _ _ _ _ _ _ _ _ _)).
  rewrite !(proj1 (drawBranch_fuel_depth_eq _ _ _ _ _ _ _ _ _ _ _ _)).
  assert (E : (c + 100 + 0 * 50 + 100 + 0 * 50 = c + 100 + 2 * 50)%nat) by lia.
  rewrite E. repeat split; auto.
Qed.

Lemma cursor_alias_witness :
  Canvas.cursor
    (snd (nth 0 (Canvas.branches (snd (nth 0 (Canvas.branches pineTrunk)
                                         (0, pineTrunk)%Q)))
            (0, pineTrunk)%Q))
  = Canvas.cursor (snd (nth 2 (Canvas.branches pineTrunk) (0, pineTrunk)%Q)).
Proof.
  refine (proj1 (cursor_alias (fun x => x) (fun _ => 0%Q) collidingPine 0 pineTrunk
                   (nth 0 (Canvas.branches pineTrunk) (0, pineTrunk)%Q)
                   (nth 2 (Canvas.branches pineTrunk) (0, pineTrunk)%Q)
                   (nth 0 (Canvas.branches (snd (nth 0 (Canvas.branches pineTrunk)
                                                   (0, pineTrunk)%Q)))
                      (0, pineTrunk)%Q) _ _ _ _)).
  - vm_compute. left. reflexivity.
  - reflexivity.
  - reflexivity.
  - reflexivity.
Defined.

(** A leaf is drawn exactly on the strokes of the last three levels whose
    draw at cursor + 99 exceeds 0.4, and it is drawn at the tip of the
    stroke. *)
Theorem leaf_band (sin : Q -> Q) (random : nat -> Q) (tree : TreeData)
    (time : Q) (t : Canvas.Stroke) :
  In t (Canvas.frameStrokes (Canvas.TreeRender sin random tree time)) ->
  (Canvas.leafAt t <> None <->
   (Canvas.complexity (stage tree) - 2 <= Canvas.depth t)%nat
   /\ (0.4 < Canvas.getDnaFloat (Canvas.dnaOf tree) (Canvas.cursor t + 99))%Q)
  /\ (forall p, Canvas.leafAt t = Some p -> p = Canvas.tip t).
Proof.
  intros Hin.
  destruct (frame_calls sin random tree time t Hin)
    as (f & l & d & c & calls & -> & Hf & Hl & Hd & _).
  destruct (own_eq sin random f l d (Canvas.complexity (stage tree)) c
              (Canvas.dnaOf tree) (species tree) (SPECIES_CONFIG (species tree))
              time calls) as (_ & Ed & Ec & _).
  rewrite leafAt_eq, Ed, Ec.
  set (roll := Canvas.getDnaFloat (Canvas.dnaOf tree) (c + 99)).
  assert (Hroll : Js.gt roll 0.4 = true <-> (0.4 < roll)%Q).
  { unfold Js.gt. rewrite negb_true_iff. split; intros H.
    - destruct (Qlt_le_dec 0.4 roll) as [H'|H']; auto.
      apply Qle_bool_iff in H'. congruence.
    - destruct (Qle_bool roll 0.4) eqn:E; auto.
      apply Qle_bool_iff in E. exfalso. apply (Qlt_irrefl 0.4).
      eapply Qlt_le_trans; eassumption. }
  destruct ((Z.of_nat (Canvas.complexity (stage tree)) - 3 <? Z.of_nat d)%Z
            || (d =? Canvas.complexity (stage tree))%nat) eqn:Eband.
  - assert (Hband : (Canvas.complexity (stage tree) - 2 <= d)%nat).
    { apply orb_true_iff in Eband. destruct Eband as [E|E].
      - apply Z.ltb_lt in E. lia.
      - apply Nat.eqb_eq in E. lia. }
    destruct (Js.gt roll 0.4) eqn:Eroll; split.
    + split; [intros _; split; [exact Hband | now apply Hroll] | discriminate].
    + intros p Hp. now injection Hp as <-.
    + split; [congruence|]. intros [_ H]. apply Hroll in H. congruence.
    + discriminate.
  - apply orb_false_iff in Eband. destruct Eband as [E _].
    apply Z.ltb_ge in E. split.
    + split; [congruence|]. intros [H _]. lia.
    + discriminate.
Qed.

Lemma leaf_band_witness :
  Canvas.leafAt pineTrunk <> None <->
  (Canvas.complexity (stage collidingPine) - 2 <= Canvas.depth pineTrunk)%nat
  /\ (0.4 < Canvas.getDnaFloat (Canvas.dnaOf collidingPine)
              (Canvas.cursor pineTrunk + 99))%Q.
Proof.
  refine (proj1 (leaf_band (fun x => x) (fun _ => 0%Q) collidingPine 0 pineTrunk _)).
  vm_compute. left. reflexivity.
Defined.

(** The clock and the sine function only bend a drawing: the lengths,
    depths, cursors and widths of its strokes, their number and the places
    where a leaf is drawn are the same at every instant, whatever
    [Math.random()] returns. *)
Theorem drawing_structure_clock_free (sin1 sin2 : Q -> Q)
    (random1 random2 : nat -> Q) (tree : TreeData) (time1 time2 : Q) :
  frameSkeleton (Canvas.TreeRender sin1 random1 tree time1)
  = frameSkeleton (Canvas.TreeRender sin2 random2 tree time2).
Proof.
  unfold Canvas.TreeRender.
  destruct (stage tree); [reflexivity| | |];
    unfold frameSkeleton, Canvas.drawBranch; apply f_equal;
    apply skeleton_clock_free.
Qed.

Section CanvasCount.

Import Canvas.
Local Open Scope nat_scope.

Variable sin : Q -> Q.
Variable random : nat -> Q.

Lemma flat_map_bounds {A B : Type} (g : A -> list B) (lo hi : nat) (l : list A) :
  (forall x, In x l -> lo <= List.length (g x) /\ 2 * List.length (g x) + 1 <= hi) ->
  List.length l * lo <= List.length (flat_map g l)
  /\ 2 * List.length (flat_map g l) + List.length l <= List.length l * hi.
Proof.
  induction l as [|a l IH]; intros H; simpl; [lia|].
  rewrite length_app.
  destruct (H a (or_introl eq_refl)) as [H1 H2].
  destruct (IH (fun x Hx => H x (or_intror Hx))) as [I1 I2].
  lia.
Qed.

(** A drawing with k levels has between 2^k - 1 and (3^k - 1) / 2 strokes. *)
Lemma drawBranch_fuel_count fuel :
  forall len d m c dna sp cfg time k,
    d <= m -> m - d <= fuel ->
    2 ^ S (m - d) - 1
    <= List.length
         (strokes (fst (drawBranch_fuel sin random fuel len d m c dna sp cfg time k)))
    /\ 2 * List.length
             (strokes (fst (drawBranch_fuel sin random fuel len d m c dna sp cfg
                              time k))) + 1
       <= 3 ^ S (m - d).
Proof.
  induction fuel as [|fuel IH]; intros len d m c dna sp cfg time k Hd Hfuel;
    rewrite strokes_eq; cbn [List.length];
    match goal with
    | |- context [branches (fst (drawBranch_fuel sin random ?f _ _ _ _ _ _ _ _ _))] =>
        pose proof (drawBranch_fuel_count_eq sin random f len d m c dna sp cfg
                      time k) as Hn
    end;
    destruct (Nat.ltb_spec d m);
    try (replace (m - d) with 0 by lia;
         apply length_zero_iff_nil in Hn; rewrite Hn; cbn; lia);
    try lia.
  set (g := fun b : Q * Stroke => strokes (snd b)).
  match goal with
  | |- context [flat_map g ?l] =>
      destruct (flat_map_bounds g (2 ^ S (m - (d + 1)) - 1) (3 ^ S (m - (d + 1))) l)
        as [L U]
  end.
  - intros b Hb. apply drawBranch_fuel_branches in Hb.
    destruct Hb as (fuel' & i & len' & k' & Hf & _ & _ & Hb).
    injection Hf as <-. unfold g. rewrite Hb. apply IH; lia.
  - rewrite Hn in L, U.
    replace (m - d) with (S (m - (d + 1))) by lia.
    pose proof (pow2_pos (S (m - (d + 1)))) as P2.
    assert (P3 : 1 <= 3 ^ S (m - (d + 1)))
      by (pose proof (Nat.pow_nonzero 3 (S (m - (d + 1)))); lia).
    set (A := 2 ^ S (m - (d + 1))) in *. set (B := 3 ^ S (m - (d + 1))) in *.
    replace (2 ^ S (S (m - (d + 1)))) with (2 * A) by (unfold A; cbn; lia).
    replace (3 ^ S (S (m - (d + 1)))) with (3 * B) by (unfold B; cbn; lia).
    destruct (branchCount_range dna c) as [E|E]; rewrite E in *;
      [change (Z.to_nat 2) with 2 in * | change (Z.to_nat 3) with 3 in *]; lia.
Qed.

End CanvasCount.

(** A drawing at complexity c has at least 2^c - 1 strokes and at most
    (3^c - 1) / 2, whatever the clock is. *)
Theorem stroke_count (sin : Q -> Q) (random : nat -> Q) (tree : TreeData)
    (time : Q) :
  (2 ^ Canvas.complexity (stage tree) - 1
   <= List.length
        (Canvas.frameStrokes (Canvas.TreeRender sin random tree time)))%nat
  /\ (2 * List.length
            (Canvas.frameStrokes (Canvas.TreeRender sin random tree time)) + 1
      <= 3 ^ Canvas.complexity (stage tree))%nat.
Proof.
  unfold Canvas.TreeRender, Canvas.frameStrokes.
  destruct (stage tree); [cbn; lia| | |]; unfold Canvas.drawBranch;
    match goal with
    | |- context [Canvas.drawBranch_fuel sin random ?f ?l ?d ?m ?c ?dna ?sp ?cfg
                    ?t ?k] =>
        pose proof (drawBranch_fuel_count sin random f l d m c dna sp cfg t k) as H
    end;
    cbv [Canvas.complexity] in *;
    (destruct H as [L U]; [lia | lia |]);
    match type of L with
    | context [S (?a - 1)] => change (S (a - 1)) with a in L, U
    end; auto.
Qed.

(** The draws of one stroke (static curve, leaf roll, branch count, and the
    variance and decay of each of its sub-branches) read pairwise different
    hash keys. *)
Theorem stroke_keys (history : list string) (c : nat) :
  NoDup (map (Canvas.hashKey history)
           (strokeDraws c (Z.to_nat (Canvas.branchCount history c)))).
Proof.
  apply Injective_map_NoDup.
  - intros a b H. now apply canvas_key_cursor in H.
  - unfold strokeDraws.
    destruct (branchCount_range history c) as [E|E]; rewrite E;
      [change (Z.to_nat 2) with 2%nat | change (Z.to_nat 3) with 3%nat];
      cbn [seq flat_map app];
      repeat (constructor; [cbn [In]; lia|]); constructor.
Qed.

(** ** The care loop *)

Section CareFacts.

Import Care.
Local Open Scope Q_scope.

Lemma max_spec (x y : Q) : (x <= y /\ max x y = y) \/ (y < x /\ max x y = x).
Proof.
  unfold max. destruct (Qle_bool x y) eqn:E.
  - left. split; [now apply Qle_bool_iff|reflexivity].
  - right. split; [|reflexivity].
    destruct (Qlt_le_dec y x) as [H|H]; [exact H|].
    apply Qle_bool_iff in H. congruence.
Qed.

Lemma min_spec (x y : Q) : (x <= y /\ min x y = x) \/ (y < x /\ min x y = y).
Proof.
  unfold min. destruct (Qle_bool x y) eqn:E.
  - left. split; [now apply Qle_bool_iff|reflexivity].
  - right. split; [|reflexivity].
    destruct (Qlt_le_dec y x) as [H|H]; [exact H|].
    apply Qle_bool_iff in H. congruence.
Qed.

Lemma max0_range (x : Q) : x <= 100 -> 0 <= max 0 x /\ max 0 x <= 100.
Proof. intros H. destruct (max_spec 0 x) as [[H1 ->]|[H1 ->]]; split; lra. Qed.

Lemma min100_range (x : Q) : 0 <= x -> 0 <= min MAX_STATS x /\ min MAX_STATS x <= 100.
Proof.
  intros H. unfold MAX_STATS.
  destruct (min_spec 100 x) as [[H1 ->]|[H1 ->]]; split; lra.
Qed.

Lemma tickTree_vitals (t : TreeData) : vitalsOk t -> vitalsOk (tickTree t).
Proof.
  intros (W0 & W1 & F0 & F1 & H0 & H1). unfold vitalsOk, tickTree.
  cbn [water fertilizer health].
  destruct (max0_range (water t - 0.5) ltac:(lra)).
  destruct (max0_range (fertilizer t - 0.2) ltac:(lra)).
  destruct (max0_range (health t - 0.5) ltac:(lra)).
  destruct (min100_range (health t + 0.1) ltac:(lra)).
  repeat split; auto;
    destruct (lt (water t) CRITICAL_LOW || lt (fertilizer t) CRITICAL_LOW); auto;
    destruct (Js.gt (water t) 50 && Js.gt (fertilizer t) 50); auto.
Qed.

Lemma Forall_map_if {A : Type} (P : A -> Prop) (c : A -> bool) (f : A -> A)
    (l : list A) :
  (forall x, P x -> P (f x)) ->
  Forall P l -> Forall P (map (fun x => if c x then f x else x) l).
Proof.
  intros Hf H. induction H; simpl; constructor; auto.
  destruct (c x); auto.
Qed.

Lemma updateActiveTree_Forall (P : TreeData -> Prop) (f : TreeData -> TreeData)
    (app : App) :
  (forall t, P t -> P (f t)) ->
  Forall P (inventory app) -> Forall P (inventory (updateActiveTree f app)).
Proof.
  intros Hf H. unfold updateActiveTree.
  destruct (Js.truthy (activeTreeId app)); [|exact H].
  cbn [inventory]. now apply Forall_map_if.
Qed.

Lemma tick_Forall (P : TreeData -> Prop) (app : App) :
  (forall t, P t -> P (tickTree t)) ->
  Forall P (inventory app) -> Forall P (inventory (tick app)).
Proof.
  intros Hf H. unfold tick.
  destruct (Js.truthy (activeTreeId app)); [|exact H].
  cbn [inventory]. induction H; simpl; constructor; auto.
  destruct (negb (isActive app x)); auto.
Qed.

(** What [mapActive] returns, tree by tree. *)
Lemma mapActive_Forall2 app updater (ts : list TreeData) :
  forall r, mapActive app updater ts = Some r ->
    Forall2 (fun t t' => if isActive app t then updater t = Some t' else t' = t)
      ts r.
Proof.
  induction ts as [|t ts IH]; intros r H; simpl in H.
  - injection H as <-. constructor.
  - destruct (isActive app t) eqn:E.
    + destruct (updater t) as [t'|] eqn:Eu; [|discriminate].
      destruct (mapActive app updater ts) as [r'|]; [|discriminate].
      injection H as <-. constructor; auto. now rewrite E.
    + destruct (mapActive app updater ts) as [r'|]; [|discriminate].
      injection H as <-. constructor; auto. now rewrite E.
Qed.

Lemma mapActive_defined app updater (ts : list TreeData) :
  (forall t, In t ts -> isActive app t = true -> updater t <> None) ->
  mapActive app updater ts <> None.
Proof.
  induction ts as [|t ts IH]; intros H; simpl; [discriminate|].
  destruct (isActive app t) eqn:E.
  - destruct (updater t) eqn:Eu;
      [|exfalso; exact (H t (or_introl eq_refl) E Eu)].
    destruct (mapActive app updater ts) eqn:Em; [discriminate|].
    exfalso. apply IH; auto. intros x Hx. apply H. now right.
  - destruct (mapActive app updater ts) eqn:Em; [discriminate|].
    exfalso. apply IH; auto. intros x Hx. apply H. now right.
Qed.

Lemma advanceTree_vitals next token t t' :
  advanceTree next token t = Some t' -> vitalsOk t -> vitalsOk t'.
Proof.
  unfold advanceTree. destruct (dna t); [|discriminate].
  intros H. injection H as <-. auto.
Qed.

(** The inventory after an action that does not throw. *)
Lemma step_vitals (app app' : App) (a : Action) :
  step app a = Some app' ->
  Forall vitalsOk (inventory app) -> Forall vitalsOk (inventory app').
Proof.
  intros Hstep Hinv. destruct a; cbn [step] in Hstep.
  - injection Hstep as <-. apply tick_Forall; auto. apply tickTree_vitals.
  - injection Hstep as <-. unfold handleCreateTree. cbn [inventory].
    apply Forall_app. split; [exact Hinv|]. constructor; [|constructor].
    unfold vitalsOk. cbn. repeat split; discriminate.
  - injection Hstep as <-. apply updateActiveTree_Forall; auto.
    intros t (W0 & W1 & F0 & F1 & H0 & H1). unfold vitalsOk.
    cbn [water fertilizer health].
    destruct (min100_range (water t + 30) ltac:(lra)). repeat split; auto.
  - injection Hstep as <-. apply updateActiveTree_Forall; auto.
    intros t (W0 & W1 & F0 & F1 & H0 & H1). unfold vitalsOk.
    cbn [water fertilizer health].
    destruct (min100_range (fertilizer t + 30) ltac:(lra)). repeat split; auto.
  - injection Hstep as <-. unfold handlePrune.
    destruct (activeTree app); [|exact Hinv].
    destruct (stageIndex (stage t) <? stageIndex SAPLING)%Z; [exact Hinv|].
    apply updateActiveTree_Forall; auto.
  - injection Hstep as <-. unfold handleWire.
    destruct (activeTree app); [|exact Hinv].
    destruct (stageIndex (stage t) <? stageIndex ADULT)%Z; [exact Hinv|].
    apply updateActiveTree_Forall; auto.
  - unfold handleAdvanceStage in Hstep.
    destruct (activeTree app) as [tree|]; [|injection Hstep as <-; exact Hinv].
    destruct (lt (health tree) 80); [injection Hstep as <-; exact Hinv|].
    destruct (lt (age tree) _); [injection Hstep as <-; exact Hinv|].
    destruct (stageIndex MASTER <? stageIndex (stage tree) + 1)%Z;
      [injection Hstep as <-; exact Hinv|].
    destruct (stageOfIndex _) as [next|]; [|injection Hstep as <-; exact Hinv].
    destruct (Js.truthy (activeTreeId app)); [|injection Hstep as <-; exact Hinv].
    destruct (mapActive app _ (inventory app)) as [inv|] eqn:Em; [|discriminate].
    injection Hstep as <-. cbn [inventory].
    apply mapActive_Forall2 in Em.
    clear - Em Hinv. induction Em; [constructor|].
    inversion Hinv; subst. constructor; auto.
    destruct (isActive app x).
    + eapply advanceTree_vitals; eassumption.
    + now subst.
  - injection Hstep as <-. exact Hinv.
Qed.

End CareFacts.

(** Water, fertilizer and health stay within [0, 100]: an action that finds
    every tree of the garden within these bounds leaves every tree within
    them. *)
Theorem care_vitals_bounded (app app' : Care.App) (a : Care.Action) :
  Care.step app a = Some app' ->
  Forall Care.vitalsOk (Care.inventory app) ->
  Forall Care.vitalsOk (Care.inventory app').
Proof. apply step_vitals. Qed.

Lemma care_vitals_bounded_witness :
  Forall Care.vitalsOk (Care.inventory (Care.handleWater youngGarden)).
Proof.
  apply (care_vitals_bounded youngGarden (Care.handleWater youngGarden) Care.Water).
  - reflexivity.
  - repeat constructor; cbn; discriminate.
Defined.

Section CareGrowth.

Import Care.
Local Open Scope Q_scope.

Lemma stageOfIndex_next (s next : GrowthStage) :
  stageOfIndex (stageIndex s + 1) = Some next ->
  stageIndex next = (stageIndex s + 1)%Z.
Proof. destruct s; cbn; intros H; inversion H; reflexivity. Qed.

Lemma token_nonempty prefix stats random36 :
  Encoder.generateDNASegment prefix stats random36 <> ""%string.
Proof.
  unfold Encoder.generateDNASegment. destruct stats; [discriminate|].
  destruct prefix; discriminate.
Qed.

Lemma tickTree_wellGrown (t : TreeData) : wellGrown t -> wellGrown (tickTree t).
Proof.
  intros (V & A & W & D). split; [now apply tickTree_vitals|].
  unfold tickTree. cbn [age wiringState dna stage].
  split; [lra|]. split; [exact W|exact D].
Qed.

Lemma water_wellGrown (t : TreeData) :
  wellGrown t ->
  wellGrown (mkTreeData (id t) (species t) (stage t) (age t)
               (min MAX_STATS (water t + 30)) (fertilizer t) (health t)
               (seedValue t) (pruningCount t) (wiringState t) (dna t) (name t)
               (createdAt t)).
Proof.
  intros ((W0 & W1 & F0 & F1 & H0 & H1) & A & W & D).
  destruct (min100_range (water t + 30) ltac:(lra)).
  repeat split; auto; apply W.
Qed.

Lemma fertilize_wellGrown (t : TreeData) :
  wellGrown t ->
  wellGrown (mkTreeData (id t) (species t) (stage t) (age t) (water t)
               (min MAX_STATS (fertilizer t + 30)) (health t)
               (seedValue t) (pruningCount t) (wiringState t) (dna t) (name t)
               (createdAt t)).
Proof.
  intros ((W0 & W1 & F0 & F1 & H0 & H1) & A & W & D).
  destruct (min100_range (fertilizer t + 30) ltac:(lra)).
  repeat split; auto; apply W.
Qed.

Lemma prune_wellGrown (t : TreeData) :
  wellGrown t -> wellGrown (setPruningCount t (pruningCount t + 1)).
Proof. intros (V & A & W & D). repeat split; auto; try apply V; apply W. Qed.

Lemma wire_wellGrown (t : TreeData) :
  wellGrown t -> wellGrown (setWiringState t (Z.rem (wiringState t + 1) 5)).
Proof.
  intros (V & A & W & D). split; [exact V|]. split; [exact A|]. split; [|exact D].
  cbn [wiringState setWiringState].
  rewrite Z.rem_mod_nonneg by lia. apply Z.mod_pos_bound. lia.
Qed.

Lemma advance_wellGrown next token t t' :
  advanceTree next token t = Some t' ->
  wellGrown t -> stageIndex next = (stageIndex (stage t) + 1)%Z ->
  token <> ""%string ->
  wellGrown t'.
Proof.
  unfold advanceTree. intros H (V & A & W & d & Ed & El & En) Hnext Htok.
  rewrite Ed in H. injection H as <-.
  split; [exact V|]. split; [exact A|]. split; [exact W|].
  exists (d ++ [token]). cbn [dna stage]. split; [reflexivity|]. split.
  - rewrite length_app. cbn [List.length]. lia.
  - apply Forall_app. split; [exact En|]. now constructor.
Qed.

(** With pairwise different identifiers the active tree is the only tree
    that an update touches. *)
Lemma active_unique (app : App) (tree t : TreeData) :
  NoDup (map id (inventory app)) ->
  activeTree app = Some tree ->
  In t (inventory app) -> isActive app t = true -> t = tree.
Proof.
  unfold activeTree. intros Hnd Hfind Hin Hact.
  apply find_some in Hfind. destruct Hfind as [Hin' Hact'].
  assert (Eid : id t = id tree).
  { unfold isActive in *. destruct (activeTreeId app); [|discriminate].
    apply String.eqb_eq in Hact, Hact'. congruence. }
  clear - Hnd Hin Hin' Eid.
  induction (inventory app) as [|x l IH]; [contradiction|].
  cbn [map] in Hnd. inversion Hnd as [|? ? Hx Hl]; subst.
  destruct Hin as [->|Hin], Hin' as [->|Hin']; auto.
  - exfalso. apply Hx. rewrite Eid. now apply in_map.
  - exfalso. apply Hx. rewrite <- Eid. now apply in_map.
Qed.

Lemma map_if_ids (c : TreeData -> bool) (f : TreeData -> TreeData)
    (l : list TreeData) :
  (forall t, id (f t) = id t) ->
  map id (map (fun t => if c t then f t else t) l) = map id l.
Proof.
  intros Hf. rewrite map_map. apply map_ext. intros t. destruct (c t); auto.
Qed.

Lemma updateActiveTree_ids (f : TreeData -> TreeData) (app : App) :
  (forall t, id (f t) = id t) ->
  map id (inventory (updateActiveTree f app)) = map id (inventory app).
Proof.
  intros Hf. unfold updateActiveTree.
  destruct (Js.truthy (activeTreeId app)); [|reflexivity].
  cbn [inventory]. now apply map_if_ids.
Qed.

Lemma tick_ids (app : App) : map id (inventory (tick app)) = map id (inventory app).
Proof.
  unfold tick. destruct (Js.truthy (activeTreeId app)); [|reflexivity].
  cbn [inventory]. rewrite map_map. apply map_ext. intros t.
  destruct (negb (isActive app t)); reflexivity.
Qed.

Lemma mapActive_ids app next token (ts r : list TreeData) :
  mapActive app (advanceTree next token) ts = Some r -> map id r = map id ts.
Proof.
  intros H. apply mapActive_Forall2 in H.
  induction H as [|t t' ts r Ht _ IH]; [reflexivity|].
  cbn [map]. rewrite IH. f_equal.
  destruct (isActive app t); [|now subst].
  unfold advanceTree in Ht. destruct (dna t); [|discriminate].
  now injection Ht as <-.
Qed.

Lemma mapActive_wellGrown app next token tree :
  forall ts inv,
    (forall t, In t ts -> isActive app t = true -> t = tree) ->
    stageIndex next = (stageIndex (stage tree) + 1)%Z ->
    token <> ""%string ->
    Forall wellGrown ts ->
    mapActive app (advanceTree next token) ts = Some inv ->
    Forall wellGrown inv.
Proof.
  induction ts as [|t ts IH]; intros inv Hu Hn Ht Hall Hm; simpl in Hm.
  - injection Hm as <-. constructor.
  - inversion Hall; subst.
    destruct (isActive app t) eqn:Ea.
    + destruct (advanceTree next token t) as [t'|] eqn:Eu; [|discriminate].
      destruct (mapActive app (advanceTree next token) ts) as [r|] eqn:Er;
        [|discriminate].
      injection Hm as <-. constructor.
      * assert (t = tree) by (apply Hu; [now left|exact Ea]). subst t.
        eapply advance_wellGrown; eauto.
      * apply IH; auto. intros x Hx. apply Hu. now right.
    + destruct (mapActive app (advanceTree next token) ts) as [r|] eqn:Er;
        [|discriminate].
      injection Hm as <-. constructor; auto.
      apply IH; auto. intros x Hx. apply Hu. now right.
Qed.

Lemma NoDup_snoc {A : Type} (l : list A) (x : A) :
  NoDup l -> ~ In x l -> NoDup (l ++ [x]).
Proof.
  induction l as [|a l IH]; intros Hnd Hx; simpl.
  - repeat constructor. intros [].
  - inversion Hnd; subst. constructor.
    + rewrite in_app_iff. intros [H|[H|[]]]; [contradiction|].
      apply Hx. now left.
    + apply IH; auto. intros H. apply Hx. now right.
Qed.

(** An action on a well-grown garden with pairwise different identifiers
    does not throw and gives such a garden again. *)
Lemma step_wellGrown (app : App) (a : Action) :
  Forall wellGrown (inventory app) ->
  NoDup (map id (inventory app)) ->
  freshIds (map id (inventory app)) [a] ->
  exists app',
    step app a = Some app'
    /\ Forall wellGrown (inventory app')
    /\ NoDup (map id (inventory app'))
    /\ forall rest, freshIds (map id (inventory app)) (a :: rest) ->
                    freshIds (map id (inventory app')) rest.
Proof.
  intros Hinv Hnd Hfresh. destruct a; cbn [step].
  - eexists. split; [reflexivity|]. rewrite tick_ids.
    repeat split; auto. apply tick_Forall; auto. apply tickTree_wellGrown.
  - eexists. split; [reflexivity|]. unfold handleCreateTree. cbn [inventory].
    rewrite map_app. cbn [map id]. cbn [freshIds] in Hfresh.
    destruct Hfresh as [Hnew _]. split; [|split].
    + apply Forall_app. split; [exact Hinv|]. constructor; [|constructor].
      split; [unfold vitalsOk; cbn; repeat split; discriminate|].
      split; [cbn; discriminate|]. split; [cbn; lia|].
      eexists. cbn [dna stage]. split; [reflexivity|]. split; [reflexivity|].
      constructor; [apply token_nonempty|constructor].
    + now apply NoDup_snoc.
    + intros rest [_ H]. exact H.
  - eexists. split; [reflexivity|]. unfold handleWater.
    rewrite updateActiveTree_ids by reflexivity.
    repeat split; auto.
    apply updateActiveTree_Forall; [intros x Hx; now apply water_wellGrown | exact Hinv].
  - eexists. split; [reflexivity|]. unfold handleFertilize.
    rewrite updateActiveTree_ids by reflexivity.
    repeat split; auto.
    apply updateActiveTree_Forall; [intros x Hx; now apply fertilize_wellGrown | exact Hinv].
  - eexists. split; [reflexivity|]. unfold handlePrune.
    destruct (activeTree app); [|repeat split; auto].
    destruct (stageIndex (stage t) <? stageIndex SAPLING)%Z; [repeat split; auto|].
    rewrite updateActiveTree_ids by reflexivity.
    repeat split; auto.
    apply updateActiveTree_Forall; [intros x Hx; now apply prune_wellGrown | exact Hinv].
  - eexists. split; [reflexivity|]. unfold handleWire.
    destruct (activeTree app); [|repeat split; auto].
    destruct (stageIndex (stage t) <? stageIndex ADULT)%Z; [repeat split; auto|].
    rewrite updateActiveTree_ids by reflexivity.
    repeat split; auto.
    apply updateActiveTree_Forall; [intros x Hx; now apply wire_wellGrown | exact Hinv].
  - unfold handleAdvanceStage.
    destruct (activeTree app) as [tree|] eqn:Eact;
      [|eexists; repeat split; eauto].
    destruct (lt (health tree) 80); [eexists; repeat split; eauto|].
    destruct (lt (age tree) _); [eexists; repeat split; eauto|].
    destruct (stageIndex MASTER <? stageIndex (stage tree) + 1)%Z;
      [eexists; repeat split; eauto|].
    destruct (stageOfIndex _) as [next|] eqn:Enext;
      [|eexists; repeat split; eauto].
    destruct (Js.truthy (activeTreeId app)); [|eexists; repeat split; eauto].
    match goal with
    | |- context [mapActive app (advanceTree next ?tok) (inventory app)] =>
        set (token := tok)
    end.
    destruct (mapActive app (advanceTree next token) (inventory app))
      as [inv|] eqn:Em.
    + eexists. split; [reflexivity|]. cbn [inventory].
      rewrite (mapActive_ids _ _ _ _ _ Em). repeat split; auto.
      apply (mapActive_wellGrown app next token tree (inventory app) inv); auto.
      * intros t Hin Ha. now apply (active_unique app).
      * now apply stageOfIndex_next.
      * apply token_nonempty.
    + exfalso. revert Em. apply mapActive_defined.
      intros t Hin _. rewrite Forall_forall in Hinv.
      destruct (Hinv t Hin) as (_ & _ & _ & d & Ed & _).
      unfold advanceTree. rewrite Ed. discriminate.
  - eexists. split; [reflexivity|]. cbn [inventory]. repeat split; auto.
Qed.

Lemma run_wellGrown (actions : list Action) :
  forall app,
    Forall wellGrown (inventory app) ->
    NoDup (map id (inventory app)) ->
    freshIds (map id (inventory app)) actions ->
    exists app',
      run app actions = Some app'
      /\ Forall wellGrown (inventory app')
      /\ NoDup (map id (inventory app')).
Proof.
  induction actions as [|a rest IH]; intros app Hinv Hnd Hfresh.
  - exists app. repeat split; auto.
  - assert (Hone : freshIds (map id (inventory app)) [a]).
    { destruct a; cbn [freshIds] in *; auto. destruct Hfresh. split; auto. }
    destruct (step_wellGrown app a Hinv Hnd Hone) as (app1 & Hs & Hi & Hn & Hf).
    cbn [run]. rewrite Hs. apply IH; auto.
Qed.

End CareGrowth.

(** A garden grown from the empty one, with a new identifier drawn for each
    new tree, never makes an action throw, and each of its trees has its
    vitals in [0, 100], a wiring state in 0..4 and one non-empty segment per
    stage reached, the seed segment included. *)
Theorem garden_well_grown (actions : list Care.Action) :
  Care.freshIds [] actions ->
  exists app,
    Care.run Care.emptyGarden actions = Some app
    /\ Forall Care.wellGrown (Care.inventory app)
    /\ NoDup (map id (Care.inventory app)).
Proof.
  intros H. apply run_wellGrown; auto; constructor.
Qed.

Lemma garden_well_grown_witness :
  exists app,
    Care.run Care.emptyGarden
      [Care.Create PINE "0.4fzyo82mvyr" "0.k3v9x1abcde" 0.5 1700000000000;
       Care.Tick; Care.Water; Care.Advance "0.7k2m"]%string = Some app
    /\ Forall Care.wellGrown (Care.inventory app)
    /\ NoDup (map id (Care.inventory app)).
Proof.
  apply garden_well_grown. cbn. split; [tauto|exact I].
Defined.

Section CareHistory.

Import Care.

Lemma Forall2_nth_error {A B : Type} (R : A -> B -> Prop) (l : list A) (r : list B) :
  Forall2 R l r ->
  forall i a, nth_error l i = Some a ->
    exists b, nth_error r i = Some b /\ R a b.
Proof.
  induction 1 as [|x y l r Hxy _ IH]; intros [|i] a Hi; simpl in *;
    try discriminate.
  - injection Hi as <-. eauto.
  - eauto.
Qed.

Lemma nth_error_map_if (c : TreeData -> bool) (f : TreeData -> TreeData)
    (l : list TreeData) (i : nat) (t : TreeData) :
  nth_error l i = Some t ->
  nth_error (map (fun x => if c x then f x else x) l) i
  = Some (if c t then f t else t).
Proof. intros H. rewrite nth_error_map, H. reflexivity. Qed.

(** A relation between a tree and what an action makes of it holds at every
    place of the inventory once each updater of the handlers establishes it. *)
Lemma step_pointwise (R : TreeData -> TreeData -> Prop) (app app' : App)
    (a : Action) :
  (forall t, R t t) ->
  (forall t, R t (tickTree t)) ->
  (forall t w, R t (mkTreeData (id t) (species t) (stage t) (age t) w
                      (fertilizer t) (health t) (seedValue t) (pruningCount t)
                      (wiringState t) (dna t) (name t) (createdAt t))) ->
  (forall t f, R t (mkTreeData (id t) (species t) (stage t) (age t) (water t) f
                      (health t) (seedValue t) (pruningCount t)
                      (wiringState t) (dna t) (name t) (createdAt t))) ->
  (forall t, R t (setPruningCount t (pruningCount t + 1))) ->
  (forall t, R t (setWiringState t (Z.rem (wiringState t + 1) 5))) ->
  (forall tree next token t t',
      activeTree app = Some tree ->
      stageOfIndex (stageIndex (stage tree) + 1) = Some next ->
      In t (inventory app) -> isActive app t = true ->
      advanceTree next token t = Some t' -> R t t') ->
  step app a = Some app' ->
  forall i t, nth_error (inventory app) i = Some t ->
    exists t', nth_error (inventory app') i = Some t' /\ R t t'.
Proof.
  intros Hrefl Htick Hwater Hfert Hprune Hwire Hadv Hstep i t Hi.
  assert (Hsame : inventory app' = inventory app ->
                  exists t', nth_error (inventory app') i = Some t' /\ R t t').
  { intros E. rewrite E. eauto. }
  assert (Hupd : forall f, (forall x, R x (f x)) ->
                   exists t', nth_error (inventory (updateActiveTree f app)) i
                              = Some t' /\ R t t').
  { intros f Hf. unfold updateActiveTree.
    destruct (Js.truthy (activeTreeId app)); [|eauto].
    cbn [inventory]. rewrite (nth_error_map_if _ _ _ _ _ Hi).
    eexists. split; [reflexivity|]. destruct (isActive app t); auto. }
  destruct a; cbn [step] in Hstep.
  - injection Hstep as <-. unfold tick.
    destruct (Js.truthy (activeTreeId app)); [|eauto].
    cbn [inventory]. rewrite nth_error_map, Hi. cbn [option_map].
    eexists. split; [reflexivity|]. destruct (negb (isActive app t)); auto.
  - injection Hstep as <-. unfold handleCreateTree. cbn [inventory].
    exists t. split; [|auto].
    rewrite nth_error_app1; [exact Hi|]. apply nth_error_Some. congruence.
  - injection Hstep as <-. apply Hupd. intros x. apply Hwater.
  - injection Hstep as <-. apply Hupd. intros x. apply Hfert.
  - injection Hstep as <-. unfold handlePrune.
    destruct (activeTree app); [|eauto].
    destruct (stageIndex (stage t0) <? stageIndex SAPLING)%Z; [eauto|].
    apply Hupd. exact Hprune.
  - injection Hstep as <-. unfold handleWire.
    destruct (activeTree app); [|eauto].
    destruct (stageIndex (stage t0) <? stageIndex ADULT)%Z; [eauto|].
    apply Hupd. exact Hwire.
  - unfold handleAdvanceStage in Hstep.
    destruct (activeTree app) as [tree|] eqn:Eact;
      [|injection Hstep as <-; eauto].
    destruct (lt (health tree) 80); [injection Hstep as <-; eauto|].
    destruct (lt (age tree) _); [injection Hstep as <-; eauto|].
    destruct (stageIndex MASTER <? stageIndex (stage tree) + 1)%Z;
      [injection Hstep as <-; eauto|].
    destruct (stageOfIndex _) as [next|] eqn:Enext;
      [|injection Hstep as <-; eauto].
    destruct (Js.truthy (activeTreeId app)); [|injection Hstep as <-; eauto].
    destruct (mapActive app _ (inventory app)) as [inv|] eqn:Em; [|discriminate].
    injection Hstep as <-. cbn [inventory].
    apply mapActive_Forall2 in Em.
    destruct (Forall2_nth_error _ _ _ Em i t Hi) as (t' & Hi' & Ht').
    exists t'. split; [exact Hi'|].
    destruct (isActive app t) eqn:Ea; [|subst; auto].
    eapply Hadv; eauto. eapply nth_error_In; eauto.
  - injection Hstep as <-. cbn [inventory]. eauto.
Qed.

End CareHistory.

(** No action removes, reorders or rewrites a tree's history: every tree
    keeps its place in the inventory, its identity, species and seed value,
    its pruning counter never decreases, and its segments are the former
    ones followed by at most one new segment. *)
Theorem history_append_only (app app' : Care.App) (a : Care.Action)
    (i : nat) (t : TreeData) :
  Care.step app a = Some app' ->
  nth_error (Care.inventory app) i = Some t ->
  exists t',
    nth_error (Care.inventory app') i = Some t'
    /\ id t' = id t /\ species t' = species t /\ seedValue t' = seedValue t
    /\ createdAt t' = createdAt t
    /\ (pruningCount t <= pruningCount t' <= pruningCount t + 1)%nat
    /\ exists ext, Care.segments t' = Care.segments t ++ ext
                   /\ (List.length ext <= 1)%nat.
Proof.
  intros Hstep. revert i t.
  apply (step_pointwise
           (fun t t' =>
              id t' = id t /\ species t' = species t /\ seedValue t' = seedValue t
              /\ createdAt t' = createdAt t
              /\ (pruningCount t <= pruningCount t' <= pruningCount t + 1)%nat
              /\ exists ext, Care.segments t' = Care.segments t ++ ext
                             /\ (List.length ext <= 1)%nat) app app' a);
    try exact Hstep;
    try (intros; repeat split; cbn; try lia;
         exists []; rewrite app_nil_r; split; [reflexivity|cbn; lia]).
  intros tree next token t0 t' _ _ _ _ H. unfold Care.advanceTree in H.
  destruct (dna t0) as [d|] eqn:Ed; [|discriminate].
  injection H as <-. repeat split; cbn; try lia.
  exists [token]. unfold Care.segments. cbn. rewrite Ed. split; [reflexivity|lia].
Qed.

Lemma history_append_only_witness :
  exists t',
    nth_error (Care.inventory (Care.tick youngGarden)) 0 = Some t'
    /\ id t' = "k3v9x1abc"%string.
Proof.
  destruct (history_append_only youngGarden (Care.tick youngGarden) Care.Tick 0
              (hd seedling (Care.inventory youngGarden)) eq_refl eq_refl)
    as (t' & H & Hid & _).
  exists t'. split; [exact H | exact Hid].
Defined.

(** When the identifiers of a garden are pairwise different, no action moves
    a tree back to an earlier stage or more than one stage ahead. *)
Theorem stage_steps (app app' : Care.App) (a : Care.Action)
    (i : nat) (t : TreeData) :
  NoDup (map id (Care.inventory app)) ->
  Care.step app a = Some app' ->
  nth_error (Care.inventory app) i = Some t ->
  exists t',
    nth_error (Care.inventory app') i = Some t'
    /\ (Care.stageIndex (stage t) <= Care.stageIndex (stage t')
        <= Care.stageIndex (stage t) + 1)%Z.
Proof.
  intros Hnd Hstep. revert i t.
  apply (step_pointwise
           (fun t t' =>
              (Care.stageIndex (stage t) <= Care.stageIndex (stage t')
               <= Care.stageIndex (stage t) + 1)%Z) app app' a);
    try exact Hstep;
    try (intros; cbn; lia).
  intros tree next token t0 t' Hact Hnext Hin Ha H.
  assert (t0 = tree) by (now apply (active_unique app)). subst t0.
  apply stageOfIndex_next in Hnext.
  unfold Care.advanceTree in H. destruct (dna tree); [|discriminate].
  injection H as <-. cbn. lia.
Qed.

Lemma stage_steps_witness :
  exists t',
    nth_error (Care.inventory (Care.tick youngGarden)) 0 = Some t'
    /\ (0 <= Care.stageIndex (stage t') <= 0 + 1)%Z.
Proof.
  apply (stage_steps youngGarden (Care.tick youngGarden) Care.Tick 0
           (hd seedling (Care.inventory youngGarden))).
  - repeat constructor. intros [].
  - reflexivity.
  - reflexivity.
Defined.

Section CareRendering.

Import Care.

Lemma mesh_render_fields (t1 t2 : TreeData) :
  species t1 = species t2 -> stage t1 = stage t2 -> dna t1 = dna t2 ->
  pruningCount t1 = pruningCount t2 -> wiringState t1 = wiringState t2 ->
  Mesh.TreeRender t1 = Mesh.TreeRender t2.
Proof.
  intros Hsp Hst Hdna Hp Hw. unfold Mesh.TreeRender, Mesh.dnaOf.
  rewrite Hsp, Hst, Hdna, Hp, Hw. reflexivity.
Qed.

Lemma canvas_render_fields sin random time (t1 t2 : TreeData) :
  species t1 = species t2 -> stage t1 = stage t2 -> dna t1 = dna t2 ->
  Canvas.TreeRender sin random t1 time = Canvas.TreeRender sin random t2 time.
Proof.
  intros Hsp Hst Hdna. unfold Canvas.TreeRender, Canvas.dnaOf.
  rewrite Hsp, Hst, Hdna. reflexivity.
Qed.

Lemma trunk_pruning_free (tree : TreeData) (n : nat) :
  Mesh.sceneUpTo 1 (Mesh.TreeRender (setPruningCount tree n))
  = Mesh.sceneUpTo 1 (Mesh.TreeRender tree).
Proof.
  unfold Mesh.TreeRender, Mesh.dnaOf, setPruningCount.
  cbn [stage species dna pruningCount wiringState].
  destruct (stage tree); [reflexivity| | |];
    unfold Mesh.sceneUpTo, Mesh.Branch; apply f_equal;
    apply upTo_agree; cbv [Mesh.complexity]; try lia; reflexivity.
Qed.

Lemma shape_wiring_free (tree : TreeData) (w : Z) :
  Mesh.sceneUnbent (Mesh.TreeRender (setWiringState tree w))
  = Mesh.sceneUnbent (Mesh.TreeRender tree).
Proof.
  unfold Mesh.TreeRender, Mesh.dnaOf, setWiringState.
  cbn [stage species dna pruningCount wiringState].
  destruct (stage tree); [reflexivity| | |];
    unfold Mesh.sceneUnbent, Mesh.Branch; apply f_equal;
    apply unbent_agree; reflexivity.
Qed.

Lemma updateActiveTree_map {B : Type} (view : TreeData -> B)
    (f : TreeData -> TreeData) (app : App) :
  (forall t, view (f t) = view t) ->
  map view (inventory (updateActiveTree f app)) = map view (inventory app).
Proof.
  intros Hf. unfold updateActiveTree.
  destruct (Js.truthy (activeTreeId app)); [|reflexivity].
  cbn [inventory]. rewrite map_map. apply map_ext. intros t.
  destruct (isActive app t); auto.
Qed.

Lemma tick_map {B : Type} (view : TreeData -> B) (app : App) :
  (forall t, view (tickTree t) = view t) ->
  map view (inventory (tick app)) = map view (inventory app).
Proof.
  intros Hf. unfold tick.
  destruct (Js.truthy (activeTreeId app)); [|reflexivity].
  cbn [inventory]. rewrite map_map. apply map_ext. intros t.
  destruct (negb (isActive app t)); auto.
Qed.

End CareRendering.

(** Ticking, watering and fertilizing never change what is rendered: after
    any of them every tree of the garden gives the same 3D tree and, at
    every instant and for the same results of [Math.random()], the same 2D
    drawing as before. *)
Theorem vitals_leave_rendering (app app' : Care.App) (a : Care.Action) :
  a = Care.Tick \/ a = Care.Water \/ a = Care.Fertilize ->
  Care.step app a = Some app' ->
  map Mesh.TreeRender (Care.inventory app')
  = map Mesh.TreeRender (Care.inventory app)
  /\ forall sin random time,
       map (fun t => Canvas.TreeRender sin random t time) (Care.inventory app')
       = map (fun t => Canvas.TreeRender sin random t time) (Care.inventory app).
Proof.
  intros [->|[->| ->]] Hstep; cbn [Care.step] in Hstep; injection Hstep as <-;
    split; try intros sin random time;
    first [ apply tick_map | apply updateActiveTree_map ];
    intros t;
    first [ apply mesh_render_fields | apply canvas_render_fields ];
    reflexivity.
Qed.

Lemma vitals_leave_rendering_witness :
  map Mesh.TreeRender (Care.inventory (Care.tick youngGarden))
  = map Mesh.TreeRender (Care.inventory youngGarden).
Proof.
  refine (proj1 (vitals_leave_rendering youngGarden (Care.tick youngGarden)
                   Care.Tick _ _)).
  - left. reflexivity.
  - reflexivity.
Defined.

(** Pruning leaves the trunk and its direct children of every 3D tree as
    they were, wiring changes nothing of a 3D tree but z-rotations, and
    neither changes a 2D drawing, at any instant and for any results of
    [Math.random()]. *)
Theorem shaping_keeps_structure (app : Care.App) :
  map (fun t => Mesh.sceneUpTo 1 (Mesh.TreeRender t))
    (Care.inventory (Care.handlePrune app))
  = map (fun t => Mesh.sceneUpTo 1 (Mesh.TreeRender t)) (Care.inventory app)
  /\ map (fun t => Mesh.sceneUnbent (Mesh.TreeRender t))
       (Care.inventory (Care.handleWire app))
     = map (fun t => Mesh.sceneUnbent (Mesh.TreeRender t)) (Care.inventory app)
  /\ forall sin random time,
       map (fun t => Canvas.TreeRender sin random t time)
         (Care.inventory (Care.handlePrune app))
       = map (fun t => Canvas.TreeRender sin random t time) (Care.inventory app)
       /\ map (fun t => Canvas.TreeRender sin random t time)
            (Care.inventory (Care.handleWire app))
          = map (fun t => Canvas.TreeRender sin random t time) (Care.inventory app).
Proof.
  unfold Care.handlePrune, Care.handleWire.
  destruct (Care.activeTree app) as [tree|];
    [|repeat split; reflexivity].
  split; [|split; [|intros sin random time; split]].
  - destruct (Care.stageIndex (stage tree) <? Care.stageIndex SAPLING)%Z;
      [reflexivity|].
    apply updateActiveTree_map. intros t. apply trunk_pruning_free.
  - destruct (Care.stageIndex (stage tree) <? Care.stageIndex ADULT)%Z;
      [reflexivity|].
    apply updateActiveTree_map. intros t. apply shape_wiring_free.
  - destruct (Care.stageIndex (stage tree) <? Care.stageIndex SAPLING)%Z;
      [reflexivity|].
    apply updateActiveTree_map. intros t.
    apply canvas_render_fields; reflexivity.
  - destruct (Care.stageIndex (stage tree) <? Care.stageIndex ADULT)%Z;
      [reflexivity|].
    apply updateActiveTree_map. intros t.
    apply canvas_render_fields; reflexivity.
Qed.

(** Advancing a record that has no history throws: when the active tree
    passes the health and age gates and is not a master yet, the updater
    spreads its missing [dna]. *)
Theorem advance_without_history_throws (app : Care.App) (tree : TreeData)
    (random36 : string) :
  Care.activeTree app = Some tree ->
  dna tree = None ->
  Care.lt (health tree) 80 = false ->
  Care.lt (age tree) (inject_Z (Z.of_nat (Care.minAge (stage tree)))) = false ->
  stage tree <> MASTER ->
  Js.truthy (Care.activeTreeId app) = true ->
  Care.handleAdvanceStage random36 app = None.
Proof.
  intros Hact Hdna Hh Ha Hs Hid. unfold Care.handleAdvanceStage.
  rewrite Hact, Hh, Ha.
  destruct (stage tree) eqn:Es; try congruence; cbn [Care.stageIndex];
    cbn -[Care.mapActive Encoder.generateDNASegment]; rewrite Hid;
    match goal with
    | |- match Care.mapActive app ?f ?l with _ => _ end = None =>
        destruct (Care.mapActive app f l) as [inv|] eqn:Em; [|reflexivity];
        apply mapActive_Forall2 in Em
    end;
    unfold Care.activeTree in Hact; apply find_some in Hact;
    destruct Hact as [Hin Hactive];
    apply In_nth_error in Hin; destruct Hin as [i Hi];
    destruct (Forall2_nth_error _ _ _ Em i tree Hi) as (t' & _ & Ht');
    rewrite Hactive in Ht'; unfold Care.advanceTree in Ht';
    rewrite Hdna in Ht'; discriminate.
Qed.

Lemma advance_without_history_throws_witness :
  Care.handleAdvanceStage "0.7k2m" legacyGarden = None.
Proof.
  apply (advance_without_history_throws legacyGarden
           (hd seedling (Care.inventory legacyGarden)) "0.7k2m");
    try reflexivity.
  discriminate.
Defined.

Section CareWiring.

Import Care.

Lemma wire_iter_fields (n : nat) (t : TreeData) :
  id (Nat.iter n (fun t => setWiringState t (Z.rem (wiringState t + 1) 5)) t) = id t
  /\ stage (Nat.iter n (fun t => setWiringState t (Z.rem (wiringState t + 1) 5)) t)
     = stage t.
Proof.
  induction n as [|n [IH1 IH2]]; [split; reflexivity|].
  cbn [Nat.iter nat_rect]. unfold setWiringState at 1 3. cbn [id stage]. auto.
Qed.

Lemma find_map_same {A : Type} (p : A -> bool) (h : A -> A) (l : list A) :
  (forall x, p (h x) = p x) ->
  find p (map h l) = option_map h (find p l).
Proof.
  intros Hp. induction l as [|x l IH]; [reflexivity|].
  cbn [map find]. rewrite Hp. destruct (p x); [reflexivity|exact IH].
Qed.

(** Either the wiring handler returns without an update, or each further
    call turns the wiring state of the active records once more. *)
Lemma handleWire_iter (app : App) :
  handleWire app = app
  \/ forall n,
       Nat.iter n handleWire app
       = mkApp (map (fun t =>
                       if isActive app t
                       then Nat.iter n (fun t => setWiringState t
                                                   (Z.rem (wiringState t + 1) 5)) t
                       else t) (inventory app))
           (activeTreeId app) (advice app).
Proof.
  destruct (activeTree app) as [tree|] eqn:Hact;
    [|left; unfold handleWire; rewrite Hact; reflexivity].
  destruct (stageIndex (stage tree) <? stageIndex ADULT)%Z eqn:Hst;
    [left; unfold handleWire; rewrite Hact, Hst; reflexivity|].
  destruct (Js.truthy (activeTreeId app)) eqn:Hid;
    [|left; unfold handleWire, updateActiveTree; rewrite Hact, Hst, Hid;
      reflexivity].
  right. induction n as [|n IH].
  - cbn [Nat.iter nat_rect]. destruct app as [inv aid adv]. cbn [inventory activeTreeId advice].
    apply (f_equal (fun l => mkApp l aid adv)).
    rewrite <- (map_id inv) at 1. apply map_ext. intros t.
    destruct (isActive _ t); reflexivity.
  - change (Nat.iter (S n) handleWire app)
      with (handleWire (Nat.iter n handleWire app)).
    rewrite IH. unfold handleWire at 1. unfold activeTree at 1.
    cbn [inventory].
    rewrite (find_map_same _ _ (inventory app)).
    2:{ intros t.
        change (isActive (mkApp _ (activeTreeId app) (advice app)))
          with (isActive app).
        destruct (isActive app t) eqn:Ea; [|exact Ea].
        unfold isActive in *. destruct (activeTreeId app); [|discriminate].
        rewrite (proj1 (wire_iter_fields n t)). exact Ea. }
    assert (Hfind : find (isActive (mkApp
                (map (fun t => if isActive app t
                               then Nat.iter n (fun t => setWiringState t
                                      (Z.rem (wiringState t + 1) 5)) t
                               else t) (inventory app))
                (activeTreeId app) (advice app))) (inventory app)
              = Some tree).
    { exact Hact. }
    rewrite Hfind. cbn [option_map].
    assert (Hactive : isActive app tree = true).
    { unfold activeTree in Hact. apply find_some in Hact. apply Hact. }
    rewrite Hactive, (proj2 (wire_iter_fields n tree)), Hst.
    unfold updateActiveTree. cbn [activeTreeId inventory advice].
    rewrite Hid.
    apply (f_equal (fun l => mkApp l (activeTreeId app) (advice app))).
    rewrite map_map. apply map_ext. intros t.
    change (isActive (mkApp _ (activeTreeId app) (advice app)))
      with (isActive app).
    destruct (isActive app t) eqn:Ea.
    + assert (Ea' : isActive app
                (Nat.iter n (fun t => setWiringState t
                                        (Z.rem (wiringState t + 1) 5)) t) = true).
      { unfold isActive in *. destruct (activeTreeId app); [|discriminate].
        rewrite (proj1 (wire_iter_fields n t)). exact Ea. }
      rewrite Ea'. reflexivity.
    + rewrite Ea. reflexivity.
Qed.

Lemma wire_five (t : TreeData) :
  (0 <= wiringState t < 5)%Z ->
  Nat.iter 5 (fun t => setWiringState t (Z.rem (wiringState t + 1) 5)) t = t.
Proof.
  intros H. destruct t as [i sp st ag wa fe he sv pc w d nm cr].
  cbn [wiringState] in H.
  assert (Hw : w = 0%Z \/ w = 1%Z \/ w = 2%Z \/ w = 3%Z \/ w = 4%Z) by lia.
  destruct Hw as [->|[->|[->|[->| ->]]]]; reflexivity.
Qed.

End CareWiring.

(** Wiring has period five: on a garden whose wiring states are in 0..4,
    five calls of the wiring handler give the garden back, whether or not
    the active tree may be wired. *)
Theorem wire_cycle (app : Care.App) :
  Forall (fun t => (0 <= wiringState t < 5)%Z) (Care.inventory app) ->
  Nat.iter 5 Care.handleWire app = app.
Proof.
  intros Hw. destruct (handleWire_iter app) as [E|E].
  - cbn [Nat.iter nat_rect]. rewrite !E. reflexivity.
  - rewrite E. destruct app as [inv aid adv].
    cbn [Care.inventory Care.activeTreeId Care.advice] in *.
    apply (f_equal (fun l => Care.mkApp l aid adv)).
    rewrite <- (map_id inv) at 2. apply map_ext_in. intros t Hin.
    rewrite Forall_forall in Hw.
    destruct (Care.isActive _ t); [|reflexivity].
    apply wire_five. now apply Hw.
Qed.

Lemma wire_cycle_witness :
  Nat.iter 5 Care.handleWire pineGarden = pineGarden
  /\ Care.handleWire pineGarden <> pineGarden.
Proof.
  split.
  - apply wire_cycle. repeat constructor; cbn; lia.
  - discriminate.
Defined.

Section EncoderDecoding.

Import Encoder.
Local Open Scope string_scope.

Lemma length_two (s : string) :
  String.length s = 2%nat -> exists a b, s = String a (String b "").
Proof.
  destruct s as [|a [|b [|c s]]]; cbn; intros H; try discriminate.
  now exists a, b.
Qed.

Lemma token_fields (prefix random36 : string) (stats : Vitals) :
  (0 <= v_health stats <= 100)%Q ->
  (0 <= v_water stats <= 100)%Q ->
  (0 <= v_fertilizer stats <= 100)%Q ->
  let token := generateDNASegment prefix (Some stats) random36 in
  substring 0 4 token = "EVO-"
  /\ hexValue (substring 4 2 token) = Qfloor (v_health stats)
  /\ hexValue (substring 6 2 token) = Qfloor (v_water stats)
  /\ hexValue (substring 8 2 token) = Qfloor (v_fertilizer stats)
  /\ substring 10 1 token = "-"
  /\ token = generateDNASegment "" (Some stats) random36.
Proof.
  intros [Hh0 Hh1] [Hw0 Hw1] [Hf0 Hf1] token. subst token.
  unfold generateDNASegment.
  destruct (hexByte_format _ Hh0 Hh1) as (Lh & _ & Vh).
  destruct (hexByte_format _ Hw0 Hw1) as (Lw & _ & Vw).
  destruct (hexByte_format _ Hf0 Hf1) as (Lf & _ & Vf).
  rewrite <- Vh, <- Vw, <- Vf.
  destruct (length_two _ Lh) as (h1 & h2 & ->).
  destruct (length_two _ Lw) as (w1 & w2 & ->).
  destruct (length_two _ Lf) as (f1 & f2 & ->).
  generalize (toUpperCase (substring 2 2 random36)). intros rnd.
  cbn [append substring].
  repeat split; destruct rnd; reflexivity.
Qed.

End EncoderDecoding.

(** The token of a stage transition can be read back: for vitals in
    [0, 100] it starts with "EVO-", its characters 4-5, 6-7 and 8-9 are the
    hexadecimal integer parts of health, water and fertilizer, a dash
    follows, and the prefix passed by the caller does not occur in it. *)
Theorem evolution_token_decodes (prefix random36 : string)
    (stats : Encoder.Vitals) :
  (0 <= Encoder.v_health stats <= 100)%Q ->
  (0 <= Encoder.v_water stats <= 100)%Q ->
  (0 <= Encoder.v_fertilizer stats <= 100)%Q ->
  let token := Encoder.generateDNASegment prefix (Some stats) random36 in
  substring 0 4 token = "EVO-"%string
  /\ Encoder.hexValue (substring 4 2 token) = Qfloor (Encoder.v_health stats)
  /\ Encoder.hexValue (substring 6 2 token) = Qfloor (Encoder.v_water stats)
  /\ Encoder.hexValue (substring 8 2 token) = Qfloor (Encoder.v_fertilizer stats)
  /\ substring 10 1 token = "-"%string
  /\ token = Encoder.generateDNASegment "" (Some stats) random36.
Proof. exact (token_fields prefix random36 stats). Qed.

Lemma evolution_token_decodes_witness :
  Encoder.hexValue
    (substring 4 2
       (Encoder.generateDNASegment "S1"
          (Some (Encoder.mkVitals 100 49.5 32)) "0.7k2m")) = 100%Z.
Proof.
  refine (proj1 (proj2 (evolution_token_decodes "S1" "0.7k2m"
                          (Encoder.mkVitals 100 49.5 32) _ _ _)));
    cbn; split; discriminate.
Defined.

Section CareAdvance.

Import Care.

Lemma mapActive_find app next token (ts : list TreeData) :
  forall r tree,
    mapActive app (advanceTree next token) ts = Some r ->
    find (isActive app) ts = Some tree ->
    exists tree', find (isActive app) r = Some tree'
                  /\ advanceTree next token tree = Some tree'.
Proof.
  induction ts as [|t ts IH]; intros r tree Hm Hf; [discriminate|].
  cbn [mapActive find] in Hm, Hf.
  destruct (isActive app t) eqn:Ea.
  - injection Hf as <-.
    destruct (advanceTree next token t) as [t'|] eqn:Eu; [|discriminate].
    destruct (mapActive app (advanceTree next token) ts) as [r'|];
      [|discriminate].
    injection Hm as <-. exists t'. split; [|reflexivity].
    cbn [find].
    assert (Ea' : isActive app t' = true).
    { unfold advanceTree in Eu. destruct (dna t); [|discriminate].
      injection Eu as <-. exact Ea. }
    rewrite Ea'. reflexivity.
  - destruct (mapActive app (advanceTree next token) ts) as [r'|] eqn:Em;
      [|discriminate].
    injection Hm as <-. cbn [find]. rewrite Ea. now apply IH.
Qed.

(** What [handleAdvanceStage] does once the gates are passed. *)
Lemma advance_passes (app : App) (tree : TreeData) (random36 : string) :
  activeTree app = Some tree ->
  lt (health tree) 80 = false ->
  lt (age tree) (inject_Z (Z.of_nat (minAge (stage tree)))) = false ->
  stage tree <> MASTER ->
  Js.truthy (activeTreeId app) = true ->
  exists next,
    stageIndex next = (stageIndex (stage tree) + 1)%Z
    /\ handleAdvanceStage random36 app
       = match mapActive app
                 (advanceTree next
                    (Encoder.generateDNASegment
                       ("S" ++ Js.str (Z.to_nat (stageIndex next)))
                       (Some (Encoder.mkVitals (health tree) (water tree)
                                (fertilizer tree))) random36))
                 (inventory app) with
         | Some inv =>
             Some (mkApp inv (activeTreeId app)
                     (Some "The roots spread deeper into the earth."%string))
         | None => None
         end.
Proof.
  intros Hact Hh Ha Hs Hid. unfold handleAdvanceStage.
  rewrite Hact, Hh, Ha.
  destruct (stage tree) eqn:Es; try congruence; cbn [stageIndex].
  - exists SAPLING. split; [reflexivity|].
    cbn -[mapActive Encoder.generateDNASegment]. rewrite Hid. reflexivity.
  - exists ADULT. split; [reflexivity|].
    cbn -[mapActive Encoder.generateDNASegment]. rewrite Hid. reflexivity.
  - exists MASTER. split; [reflexivity|].
    cbn -[mapActive Encoder.generateDNASegment]. rewrite Hid. reflexivity.
Qed.

End CareAdvance.

(** A stage transition records the vitals: when the active tree of a garden
    with pairwise different identifiers passes the gates, the handler does
    not throw, the tree is one stage further, and its history is the former
    one followed by one token from which the integer parts of its health,
    water and fertilizer at that moment can be read. *)
Theorem advance_records_vitals (app : Care.App) (tree : TreeData)
    (d : list string) (random36 : string) :
  NoDup (map id (Care.inventory app)) ->
  Care.activeTree app = Some tree ->
  Js.truthy (Care.activeTreeId app) = true ->
  Care.vitalsOk tree ->
  dna tree = Some d ->
  Care.lt (health tree) 80 = false ->
  Care.lt (age tree) (inject_Z (Z.of_nat (Care.minAge (stage tree)))) = false ->
  stage tree <> MASTER ->
  exists app' tree' token,
    Care.handleAdvanceStage random36 app = Some app'
    /\ Care.activeTree app' = Some tree'
    /\ Care.stageIndex (stage tree') = (Care.stageIndex (stage tree) + 1)%Z
    /\ dna tree' = Some (d ++ [token])
    /\ Encoder.hexValue (substring 4 2 token) = Qfloor (health tree)
    /\ Encoder.hexValue (substring 6 2 token) = Qfloor (water tree)
    /\ Encoder.hexValue (substring 8 2 token) = Qfloor (fertilizer tree).
Proof.
  intros Hnd Hact Hid (Hw0 & Hw1 & Hf0 & Hf1 & Hh0 & Hh1) Hdna Hh Ha Hs.
  destruct (advance_passes app tree random36 Hact Hh Ha Hs Hid)
    as (next & Hnext & ->).
  set (token := Encoder.generateDNASegment _ _ random36).
  destruct (Care.mapActive app (Care.advanceTree next token) (Care.inventory app))
    as [inv|] eqn:Em.
  - destruct (mapActive_find _ _ _ _ _ _ Em Hact) as (tree' & Hf' & Hu).
    exists (Care.mkApp inv (Care.activeTreeId app)
              (Some "The roots spread deeper into the earth."%string)),
      tree', token.
    split; [reflexivity|]. split; [exact Hf'|].
    unfold Care.advanceTree in Hu. rewrite Hdna in Hu. injection Hu as <-.
    cbn [stage dna]. split; [exact Hnext|]. split; [reflexivity|].
    destruct (token_fields ("S" ++ Js.str (Z.to_nat (Care.stageIndex next)))
                random36
                (Encoder.mkVitals (health tree) (water tree) (fertilizer tree))
                (conj Hh0 Hh1) (conj Hw0 Hw1) (conj Hf0 Hf1))
      as (_ & T1 & T2 & T3 & _).
    auto.
  - exfalso. revert Em. apply mapActive_defined. intros t Hin Hactive.
    rewrite (active_unique app tree t Hnd Hact Hin Hactive).
    unfold Care.advanceTree. rewrite Hdna. discriminate.
Qed.

Lemma advance_records_vitals_witness :
  exists app' tree' token,
    Care.handleAdvanceStage "0.7k2m" pineGarden = Some app'
    /\ Care.activeTree app' = Some tree'
    /\ stage tree' = MASTER
    /\ dna tree' = Some (["PIN-AB12"%string; "EVO-643232-7K"%string] ++ [token])
    /\ Encoder.hexValue (substring 4 2 token) = 100%Z.
Proof.
  destruct (advance_records_vitals pineGarden oldPine
              ["PIN-AB12"; "EVO-643232-7K"]%string "0.7k2m")
    as (app' & tree' & token & H1 & H2 & H3 & H4 & H5 & _).
  - cbn. repeat constructor; cbn; intuition discriminate.
  - reflexivity.
  - reflexivity.
  - cbn. repeat split; discriminate.
  - reflexivity.
  - reflexivity.
  - reflexivity.
  - discriminate.
  - exists app', tree', token. repeat split; auto.
    destruct (stage tree'); cbn in H3; try discriminate. reflexivity.
Defined.

(** A selection that is [null] or the empty text switches the care loop
    off: no tick and no care action changes any record, whatever is in the
    inventory; only creating a tree or selecting another one changes the
    garden. An identifier is empty when the random text it is cut from is
    "0". *)
Theorem falsy_selection_inert (app app' : Care.App) (a : Care.Action) :
  Js.truthy (Care.activeTreeId app) = false ->
  (forall sp r rid seed now, a <> Care.Create sp r rid seed now) ->
  Care.step app a = Some app' ->
  Care.inventory app' = Care.inventory app.
Proof.
  intros Hid Hc Hstep. destruct a; cbn [Care.step] in Hstep.
  - injection Hstep as <-. unfold Care.tick. rewrite Hid. reflexivity.
  - exfalso. eapply Hc. reflexivity.
  - injection Hstep as <-. unfold Care.handleWater, Care.updateActiveTree.
    rewrite Hid. reflexivity.
  - injection Hstep as <-. unfold Care.handleFertilize, Care.updateActiveTree.
    rewrite Hid. reflexivity.
  - injection Hstep as <-. unfold Care.handlePrune, Care.updateActiveTree.
    rewrite Hid. destruct (Care.activeTree app); [|reflexivity].
    destruct (_ <? _)%Z; reflexivity.
  - injection Hstep as <-. unfold Care.handleWire, Care.updateActiveTree.
    rewrite Hid. destruct (Care.activeTree app); [|reflexivity].
    destruct (_ <? _)%Z; reflexivity.
  - unfold Care.handleAdvanceStage in Hstep. rewrite Hid in Hstep.
    destruct (Care.activeTree app) as [tree|]; [|now injection Hstep as <-].
    destruct (Care.lt (health tree) 80); [now injection Hstep as <-|].
    destruct (Care.lt (age tree) _); [now injection Hstep as <-|].
    cbv zeta in Hstep.
    destruct (_ <? _)%Z; [now injection Hstep as <-|].
    destruct (Care.stageOfIndex _); now injection Hstep as <-.
  - injection Hstep as <-. reflexivity.
Qed.

Lemma falsy_selection_inert_witness :
  Care.activeTree unselectableGarden <> None
  /\ Care.inventory (Care.tick unselectableGarden)
     = Care.inventory unselectableGarden.
Proof.
  split; [discriminate|].
  apply (falsy_selection_inert unselectableGarden (Care.tick unselectableGarden)
           Care.Tick).
  - reflexivity.
  - discriminate.
  - reflexivity.
Defined.
